(** * A shallow embedding of the vCard text codec (pipobscure/vcard)

    The TypeScript sources are transcribed function by function:
    [escape.ts] (escaping and parameter quoting), [generator.ts] (line
    folding, serialization, validation before writing and, in the same
    file, the tolerant parser with its quoted-printable decoder) and
    [property.ts] (the base class of the properties with its accessors,
    the structured values of ADR, ORG, N, GENDER and CLIENTPIDMAP, and the
    date-and-or-time values).

    A JavaScript string is the list of its UTF-16 code units.  A regular
    expression is the scan it performs.  A function that pushes warnings
    returns the extended list; a function that throws returns a sum.  The
    case mappings of the platform and the typed constructors of the
    properties are parameters of the parser.

    The first part is the model, the second the vocabulary of the
    statements, the third the properties, one module per component. *)

From Stdlib Require Import String Ascii.
From Stdlib Require Import ZArith List Bool Lia DecimalString DecimalPos.
From Stdlib Require Import Permutation Sorted.
Import ListNotations.
Open Scope Z_scope.

(** ** JavaScript strings and the string primitives the sources use *)

Module JS.

Definition jsstring := list Z.

(** An ASCII literal as a JavaScript string. *)
Definition str (s : String.string) : jsstring :=
  map (fun a => Z.of_N (N_of_ascii a)) (String.list_ascii_of_string s).
Arguments str s%_string.

Definition bs : Z := 92.      (* backslash *)
Definition lf : Z := 10.      (* \n *)
Definition cr : Z := 13.      (* \r *)
Definition tab : Z := 9.
Definition sp : Z := 32.
Definition dq : Z := 34.      (* double quote *)
Definition comma : Z := 44.
Definition semi : Z := 59.
Definition colon : Z := 58.
Definition eqc : Z := 61.     (* = *)
Definition dash : Z := 45.
Definition dot : Z := 46.

Fixpoint eqs (a b : jsstring) : bool :=
  match a, b with
  | [], [] => true
  | x :: a', y :: b' => (x =? y) && eqs a' b'
  | _, _ => false
  end.

Definition len (s : jsstring) : Z := Z.of_nat (List.length s).

(** [s.replace(/c/g, r)] for a single code unit [c]. *)
Definition replaceChar (c : Z) (r : jsstring) (s : jsstring) : jsstring :=
  flat_map (fun x => if x =? c then r else [x]) s.

(** [s.replace(/ab/g, f)] for a regular expression that matches exactly two
    code units, [p] deciding the match: the scan goes left to right, a match
    consumes both units, anything else is copied one unit at a time. *)
Fixpoint replace2 (p : Z -> Z -> bool) (f : Z -> Z -> jsstring)
         (s : jsstring) : jsstring :=
  match s with
  | [] => []
  | c :: t =>
      match t with
      | d :: t' => if p c d then f c d ++ replace2 p f t'
                   else c :: replace2 p f t
      | [] => [c]
      end
  end.

Fixpoint startsWith (s p : jsstring) : bool :=
  match p, s with
  | [], _ => true
  | x :: p', y :: s' => (x =? y) && startsWith s' p'
  | _ :: _, [] => false
  end.

Definition endsWith (s p : jsstring) : bool := startsWith (rev s) (rev p).

(** [s.slice(a, b)], negative indices counting from the end. *)
Definition sliceIndex (n i : Z) : Z :=
  if i <? 0 then Z.max (n + i) 0 else Z.min i n.

Definition slice (s : jsstring) (a b : Z) : jsstring :=
  let from := sliceIndex (len s) a in
  let to := sliceIndex (len s) b in
  firstn (Z.to_nat (to - from)) (skipn (Z.to_nat from) s).

(** [s.slice(a)]. *)
Definition sliceFrom (s : jsstring) (a : Z) : jsstring :=
  skipn (Z.to_nat (sliceIndex (len s) a)) s.

(** [parts.join(sep)]. *)
Fixpoint join (sep : jsstring) (parts : list jsstring) : jsstring :=
  match parts with
  | [] => []
  | p :: rest =>
      match rest with
      | [] => p
      | _ :: _ => p ++ sep ++ join sep rest
      end
  end.

(** [s.split(c)] for a separator of one code unit; the empty string splits
    into one empty piece. *)
Fixpoint split (c : Z) (s : jsstring) : list jsstring :=
  match s with
  | [] => [[]]
  | x :: t =>
      if x =? c then [] :: split c t
      else match split c t with
           | h :: r => (x :: h) :: r
           | [] => [[x]]
           end
  end.

(** UTF-16 surrogates. *)
Definition isHighSurrogate (c : Z) : bool := (0xD800 <=? c) && (c <=? 0xDBFF).
Definition isLowSurrogate (c : Z) : bool := (0xDC00 <=? c) && (c <=? 0xDFFF).

(** [s.codePointAt(i)], on the suffix [c :: t] of [s] that starts at [i]. *)
Definition codePointAt (c : Z) (t : jsstring) : Z :=
  match t with
  | d :: _ =>
      if isHighSurrogate c && isLowSurrogate d
      then 0x10000 + (c - 0xD800) * 0x400 + (d - 0xDC00)
      else c
  | [] => c
  end.

(** [Buffer.byteLength(s, 'utf8')]: a surrogate pair takes four octets, a
    lone surrogate the three of U+FFFD. *)
Fixpoint byteLength (s : jsstring) : Z :=
  match s with
  | [] => 0
  | c :: t =>
      let one := if c <=? 0x7f then 1 else if c <=? 0x7ff then 2 else 3 in
      match t with
      | d :: t' =>
          if isHighSurrogate c && isLowSurrogate d then 4 + byteLength t'
          else one + byteLength t
      | [] => one
      end
  end.

(** The white space of [\s], [trim] and [parseInt]: ECMAScript's WhiteSpace
    and LineTerminator code units. *)
Definition isWhiteSpace (c : Z) : bool :=
  ((9 <=? c) && (c <=? 13)) || (c =? 32) || (c =? 0xA0) || (c =? 0x1680)
  || ((0x2000 <=? c) && (c <=? 0x200A)) || (c =? 0x2028) || (c =? 0x2029)
  || (c =? 0x202F) || (c =? 0x205F) || (c =? 0x3000) || (c =? 0xFEFF).

Fixpoint trimStart (s : jsstring) : jsstring :=
  match s with
  | c :: t => if isWhiteSpace c then trimStart t else s
  | [] => []
  end.

Definition trim (s : jsstring) : jsstring :=
  rev (trimStart (rev (trimStart s))).

(** [s.indexOf(c)] for one code unit, counting from [i]; -1 when absent. *)
Fixpoint indexOfFrom (c : Z) (s : jsstring) (i : Z) : Z :=
  match s with
  | [] => -1
  | x :: t => if x =? c then i else indexOfFrom c t (i + 1)
  end.

Definition indexOf (s : jsstring) (c : Z) : Z := indexOfFrom c s 0.

(** The numbers the codec computes with are the results of [parseInt]:
    [NaN] or an integer.  Integers are kept exact; a double rounds them
    above 2^53, which changes none of the comparisons made on them. *)
Inductive number : Type :=
| NaN
| Num (z : Z).

Definition isDigit (c : Z) : bool := (48 <=? c) && (c <=? 57).

Fixpoint digitsValue (acc : Z) (s : jsstring) : Z :=
  match s with
  | c :: t => if isDigit c then digitsValue (acc * 10 + (c - 48)) t else acc
  | [] => acc
  end.

(** [parseInt(s, 10)]: leading white space, an optional sign, then the
    longest run of decimal digits; [NaN] when there is no digit.  The value
    is the exact integer: it is the number JavaScript returns as long as it
    is at most 2^53 - 1 in absolute value; beyond, JavaScript rounds to the
    nearest double, which is not modelled. *)
Definition parseInt10 (s : jsstring) : number :=
  let s1 := trimStart s in
  let '(sign, s2) :=
    match s1 with
    | c :: t => if c =? 45 then (-1, t) else if c =? 43 then (1, t)
                else (1, s1)
    | [] => (1, s1)
    end in
  match s2 with
  | c :: _ => if isDigit c then Num (sign * digitsValue 0 s2) else NaN
  | [] => NaN
  end.

(** [String(n)] for [NaN] and for an integer: its decimal digits.  This
    is what JavaScript writes for every integer below 10^21 in absolute
    value; from there on it writes the exponent form, which is not
    modelled. *)
Definition numberToString (n : number) : jsstring :=
  match n with
  | NaN => str "NaN"
  | Num z => str (NilZero.string_of_int (Z.to_int z))
  end.

(** [s.padStart(n, '0')]. *)
Definition padStart0 (n : nat) (s : jsstring) : jsstring :=
  repeat 48 (n - List.length s) ++ s.

(** Case mapping restricted to ASCII letters; on ASCII text
    [toUpperCase] and [toLowerCase] are these maps. *)
Definition isAscii (s : jsstring) : bool :=
  forallb (fun c => (0 <=? c) && (c <? 128)) s.

Definition upperAscii (s : jsstring) : jsstring :=
  map (fun c => if (97 <=? c) && (c <=? 122) then c - 32 else c) s.

Definition lowerAscii (s : jsstring) : jsstring :=
  map (fun c => if (65 <=? c) && (c <=? 90) then c + 32 else c) s.

End JS.
Import JS.

(** ** escape.ts *)

Module Escape.

(** The alternation [(\\|n|N|,|;)] of the regular expression. *)
Definition isEscapeCode (c : Z) : bool :=
  (c =? bs) || (c =? 110) || (c =? 78) || (c =? comma) || (c =? semi).

(** The replacement callback of [unescapeText]. *)
Definition unescapeCallback (c : Z) : jsstring :=
  if (c =? 110) || (c =? 78) then [lf]
  else if c =? bs then [bs]
  else if c =? comma then [comma]
  else if c =? semi then [semi]
  else [c].

Definition unescapeText (s : jsstring) : jsstring :=
  replace2 (fun a b => (a =? bs) && isEscapeCode b)
           (fun _ b => unescapeCallback b) s.

Definition escapeText (s : jsstring) : jsstring :=
  replaceChar semi [bs; semi]
    (replaceChar comma [bs; comma]
      (replaceChar lf [bs; 110]
        (replaceChar bs [bs; bs] s))).

Definition needsParamQuoting (value : jsstring) : bool :=
  existsb (fun c => (c =? semi) || (c =? colon) || (c =? comma) || (c =? dq))
          value.

Definition quoteParamValue (value : jsstring) : jsstring :=
  if negb (needsParamQuoting value) then value
  else [dq] ++ replaceChar dq [bs; dq] (replaceChar bs [bs; bs] value) ++ [dq].

Definition unquoteParamValue (value : jsstring) : jsstring :=
  if startsWith value [dq] && endsWith value [dq] && (2 <=? len value) then
    replace2 (fun a b => (a =? bs) && (b =? bs)) (fun _ _ => [bs])
      (replace2 (fun a b => (a =? bs) && (b =? dq)) (fun _ _ => [dq])
         (slice value 1 (-1)))
  else value.

(** Only the order of the last two passes differs from [escapeText]. *)
Definition escapeStructuredComponent (s : jsstring) : jsstring :=
  replaceChar comma [bs; comma]
    (replaceChar semi [bs; semi]
      (replaceChar lf [bs; 110]
        (replaceChar bs [bs; bs] s))).

(** The loop shared by [splitStructured] and [splitList], which differ in
    the delimiter only: a backslash that is not the last code unit is
    copied together with the unit after it. *)
Fixpoint splitLoop (delimiter : Z) (value : jsstring)
         (parts : list jsstring) (current : jsstring) : list jsstring :=
  match value with
  | [] => parts ++ [current]
  | ch :: t =>
      match t with
      | next :: t' =>
          if ch =? bs then splitLoop delimiter t' parts (current ++ [ch; next])
          else if ch =? delimiter
               then splitLoop delimiter t (parts ++ [current]) []
          else splitLoop delimiter t parts (current ++ [ch])
      | [] =>
          if ch =? delimiter
          then splitLoop delimiter t (parts ++ [current]) []
          else splitLoop delimiter t parts (current ++ [ch])
      end
  end.

Definition splitStructured (value : jsstring) : list jsstring :=
  splitLoop semi value [] [].

Definition splitList (value : jsstring) : list jsstring :=
  splitLoop comma value [] [].

Definition parseStructured (value : jsstring) : list jsstring :=
  map unescapeText (splitStructured value).

Definition parseList (value : jsstring) : list jsstring :=
  map unescapeText (splitList value).

Definition parseStructuredList (value : jsstring) : list (list jsstring) :=
  map parseList (splitStructured value).

End Escape.

(** ** types.ts: parameters *)

Module Types.

(** A parameter holds one string or an array of strings. *)
Inductive ParamValue : Type :=
| Scalar (s : jsstring)
| Multi (l : list jsstring).

(** [ParameterMap] is a JavaScript [Map]: keys in insertion order, [set] on
    a present key replaces its value in place. *)
Definition ParameterMap := list (jsstring * ParamValue).

Fixpoint mapGet (m : ParameterMap) (k : jsstring) : option ParamValue :=
  match m with
  | [] => None
  | (k', v) :: r => if eqs k' k then Some v else mapGet r k
  end.

Fixpoint mapSet (m : ParameterMap) (k : jsstring) (v : ParamValue)
  : ParameterMap :=
  match m with
  | [] => [(k, v)]
  | (k', v') :: r =>
      if eqs k' k then (k, v) :: r else (k', v') :: mapSet r k v
  end.

Definition mapDelete (m : ParameterMap) (k : jsstring) : ParameterMap :=
  filter (fun kv => negb (eqs (fst kv) k)) m.

End Types.
Import Types.

(** ** property.ts: the base class *)

Module Props.

(** [VCardError]: a message and the name of the offending property. *)
Record VCardError : Type := {
  message : jsstring;
  property : option jsstring
}.

(** What a [throw] carries: the [VCardError] of the generator, or the
    [TypeError] of the runtime when a field of [undefined] is read. *)
Inductive Thrown : Type :=
| ThrownVCardError (e : VCardError)
| ThrownTypeError.

(** The result of reading [(prop as GenderProperty).value.sex]. *)
Inductive SexRead : Type :=
| SexIs (sex : jsstring)   (* a string *)
| SexUndefined             (* [value] has no field [sex] *)
| SexTypeError.            (* the object has no [value] *)

(** The abstract class [Property] as the generator uses it: the fields of
    the base class, the abstract method [toContentLine], and the two reads
    that [validateForGeneration] makes through its casts. *)
Class PropertyLike (P : Type) : Type := {
  prop_group : P -> option jsstring;
  prop_name : P -> jsstring;
  prop_params : P -> ParameterMap;
  toContentLine : P -> jsstring;
  gender_sex : P -> SexRead;
  (** [value instanceof Date && isNaN(value.getTime())] *)
  rev_invalid_date : P -> bool
}.

(** Two of the concrete classes: [TextProperty] (with its subclasses FN,
    NOTE, TITLE, ...) and [UnknownProperty]; [name] is the stored,
    upper-cased name. *)
Inductive PropertyObject : Type :=
| TextProperty (name value : jsstring) (params : ParameterMap)
               (group : option jsstring)
| UnknownProperty (name rawValue : jsstring) (params : ParameterMap)
                  (group : option jsstring).

#[export] Instance PropertyObject_like : PropertyLike PropertyObject := {|
  prop_group p :=
    match p with TextProperty _ _ _ g | UnknownProperty _ _ _ g => g end;
  prop_name p :=
    match p with TextProperty n _ _ _ | UnknownProperty n _ _ _ => n end;
  prop_params p :=
    match p with TextProperty _ _ ps _ | UnknownProperty _ _ ps _ => ps end;
  toContentLine p :=
    match p with
    | TextProperty _ v _ _ => Escape.escapeText v
    | UnknownProperty _ raw _ _ => raw
    end;
  gender_sex p :=
    match p with
    | TextProperty _ _ _ _ => SexUndefined
    | UnknownProperty _ _ _ _ => SexTypeError
    end;
  rev_invalid_date _ := false
|}.

Section Accessors.

Context {P : Type} `{PropertyLike P}.

(** [get pref()]. *)
Definition pref (prop : P) : option number :=
  match mapGet (prop_params prop) (str "PREF") with
  | Some (Scalar (c :: v)) =>
      match parseInt10 (c :: v) with
      | NaN => None
      | n => Some n
      end
  | _ => None
  end.

(** [get type()]. *)
Definition type (toLowerCase : jsstring -> jsstring) (prop : P)
  : list jsstring :=
  let pieces s := map (fun x => trim (toLowerCase x)) (split comma s) in
  match mapGet (prop_params prop) (str "TYPE") with
  | None | Some (Scalar []) => []
  | Some (Scalar v) => pieces v
  | Some (Multi vals) => flat_map pieces vals
  end.

End Accessors.

End Props.
Import Props.

(** ** generator.ts: line folding *)

Module Generator.

Definition MAX_LINE_OCTETS : Z := 75.

(** The inner [while] of [foldLine].  [rest] is [line.slice(end)] and the
    result is the pair of [line.slice(start, end)] as extended by the loop
    and what is left of the line.  A code point above 0xffff is a surrogate
    pair, for which [end] advances by two. *)
Fixpoint takeSegment (maxBytes octetCount : Z) (rest : jsstring)
  : jsstring * jsstring :=
  match rest with
  | [] => ([], [])
  | c :: t =>
      let cp := codePointAt c t in
      let charBytes :=
        if cp >? 0xffff then 4 else if cp >? 0x7ff then 3
        else if cp >? 0x7f then 2 else 1 in
      if octetCount + charBytes >? maxBytes then ([], rest)
      else
        match t with
        | d :: t' =>
            if cp >? 0xffff then
              let (seg, remaining) :=
                takeSegment maxBytes (octetCount + charBytes) t' in
              (c :: d :: seg, remaining)
            else
              let (seg, remaining) :=
                takeSegment maxBytes (octetCount + charBytes) t in
              (c :: seg, remaining)
        | [] => ([c], [])
        end
  end.

(** The outer [while (start < line.length)]; every round consumes at least
    one code unit, so [length line] rounds are enough. *)
Fixpoint foldParts (fuel : nat) (maxBytes : Z) (rest : jsstring)
  : list jsstring :=
  match fuel with
  | O => []
  | S fuel' =>
      match rest with
      | [] => []
      | c :: t =>
          match takeSegment maxBytes 0 rest with
          | ([], _) =>
              (* end === start: force-include one code unit *)
              [c] :: foldParts fuel' (MAX_LINE_OCTETS - 1) t
          | (seg, remaining) =>
              seg :: foldParts fuel' (MAX_LINE_OCTETS - 1) remaining
          end
      end
  end.

Definition foldLine (line : jsstring) : jsstring :=
  if byteLength line <=? MAX_LINE_OCTETS then line ++ [cr; lf]
  else join [cr; lf; sp] (foldParts (List.length line) MAX_LINE_OCTETS line)
       ++ [cr; lf].

(** *** Serialization *)

Definition serializeParameters (params : ParameterMap) : jsstring :=
  join [semi]
    (flat_map
       (fun entry =>
          match snd entry with
          | Multi [] => []
          | Multi value =>
              [fst entry ++ [eqc]
               ++ join [comma] (map Escape.quoteParamValue value)]
          | Scalar value => [fst entry ++ [eqc] ++ Escape.quoteParamValue value]
          end)
       params).

Record GenerateOptions : Type := {
  validate : option bool
}.

(** [PROPERTY_ORDER[name] ?? 100]. *)
Definition PROPERTY_ORDER : list (jsstring * Z) :=
  map (fun e => (str (fst e), snd e))
    [("FN", 1); ("N", 2); ("NICKNAME", 3); ("GENDER", 4); ("BDAY", 5);
     ("ANNIVERSARY", 6); ("ORG", 7); ("TITLE", 8); ("ROLE", 9);
     ("EMAIL", 10); ("TEL", 11); ("ADR", 12); ("URL", 13); ("IMPP", 14);
     ("LANG", 15); ("TZ", 16); ("GEO", 17); ("PHOTO", 18); ("LOGO", 19);
     ("SOUND", 20); ("NOTE", 21); ("CATEGORIES", 22); ("SOURCE", 23);
     ("XML", 24); ("KEY", 25); ("FBURL", 26); ("CALADRURI", 27);
     ("CALURI", 28); ("MEMBER", 29); ("RELATED", 30); ("UID", 31);
     ("REV", 32); ("PRODID", 33); ("KIND", 34); ("CLIENTPIDMAP", 35)]%string.

Fixpoint orderOf (table : list (jsstring * Z)) (name : jsstring) : Z :=
  match table with
  | [] => 100
  | (k, n) :: r => if eqs k name then n else orderOf r name
  end.

Section Serialize.

Context {P : Type} `{PropertyLike P}.

Definition serializeProperty (prop : P) : jsstring :=
  let namePart :=
    match prop_group prop with
    | Some (c :: g) => (c :: g) ++ [dot] ++ prop_name prop
    | _ => prop_name prop
    end in
  let paramStr := serializeParameters (prop_params prop) in
  let separator :=
    match paramStr with [] => [] | _ => [semi] ++ paramStr end in
  let value := toContentLine prop in
  foldLine (namePart ++ separator ++ [colon] ++ value).

(** [Array.prototype.sort] is stable: a property goes before the first
    one that the comparison does not put ahead of it. *)
Fixpoint insertOrdered (prop : P) (sorted : list P) : list P :=
  match sorted with
  | [] => [prop]
  | q :: r =>
      if orderOf PROPERTY_ORDER (prop_name prop)
         <=? orderOf PROPERTY_ORDER (prop_name q)
      then prop :: q :: r
      else q :: insertOrdered prop r
  end.

Definition orderProperties (properties : list P) : list P :=
  fold_right insertOrdered [] properties.

Definition validSex : list jsstring :=
  [str "M"; str "F"; str "O"; str "N"; str "U"; []].

(** The checks of [validateForGeneration]; each gives what it throws, or
    [None] when it passes.  [Number.isInteger] holds of every finite result
    of [parseInt], and an infinite one is above 100 already.  The text of
    the message is exact below 2^53. *)
Definition prefError (prop : P) : option Thrown :=
  match pref prop with
  | Some (Num n) =>
      if (n <? 1) || (n >? 100) then
        Some (ThrownVCardError
                {| message :=
                     str "PREF parameter on " ++ prop_name prop
                     ++ str " must be an integer between 1 and 100, got: "
                     ++ numberToString (Num n);
                   property := Some (prop_name prop) |})
      else None
  | _ => None
  end.

Definition genderError (prop : P) : option Thrown :=
  if eqs (prop_name prop) (str "GENDER") then
    match gender_sex prop with
    | SexIs sex =>
        if existsb (eqs sex) validSex then None
        else Some (ThrownVCardError
                     {| message :=
                          str "Invalid GENDER sex value: " ++ sex
                          ++ str ". Must be one of M, F, O, N, U";
                        property := Some (str "GENDER") |})
    | SexUndefined =>
        Some (ThrownVCardError
                {| message :=
                     str "Invalid GENDER sex value: undefined"
                     ++ str ". Must be one of M, F, O, N, U";
                   property := Some (str "GENDER") |})
    | SexTypeError => Some ThrownTypeError
    end
  else None.

Definition revError (prop : P) : option Thrown :=
  if eqs (prop_name prop) (str "REV") && rev_invalid_date prop then
    Some (ThrownVCardError
            {| message := str "REV property contains invalid date";
               property := Some (str "REV") |})
  else None.

(** The first [Some] of [check] along the list: a [for] loop that throws. *)
Fixpoint firstError (check : P -> option Thrown) (properties : list P)
  : option Thrown :=
  match properties with
  | [] => None
  | prop :: rest =>
      match check prop with
      | Some e => Some e
      | None => firstError check rest
      end
  end.

Definition validateForGeneration (properties : list P) : option Thrown :=
  match filter (fun p => eqs (prop_name p) (str "FN")) properties with
  | [] => Some (ThrownVCardError
                  {| message := str "Missing required property: FN";
                     property := Some (str "FN") |})
  | _ =>
      match firstError prefError properties with
      | Some e => Some e
      | None =>
          match firstError genderError properties with
          | Some e => Some e
          | None => firstError revError properties
          end
      end
  end.

(** [serializeVCard]: [inl] for what it throws, [inr] for the text it
    returns. *)
Definition serializeVCard (properties : list P) (options : GenerateOptions)
  : Thrown + jsstring :=
  let validate :=
    match validate options with Some false => false | _ => true end in
  let output :=
    str "BEGIN:VCARD" ++ [cr; lf] ++ str "VERSION:4.0" ++ [cr; lf]
    ++ flat_map serializeProperty
         (orderProperties
            (filter (fun p => negb (eqs (prop_name p) (str "VERSION")))
                    properties))
    ++ str "END:VCARD" ++ [cr; lf] in
  if validate then
    match validateForGeneration properties with
    | Some e => inl e
    | None => inr output
    end
  else inr output.

End Serialize.

End Generator.

(** ** generator.ts, second half: the tolerant parser *)

Module Parser.

Record ParseWarning : Type := {
  w_line : option Z;
  w_message : jsstring
}.

Record RawProperty : Type := {
  raw_group : option jsstring;
  raw_name : jsstring;
  raw_parameters : ParameterMap;
  raw_value : jsstring
}.

Definition unfoldLines (input : jsstring) : list jsstring :=
  let unfolded :=
    replace2 (fun a b => (a =? lf) && ((b =? sp) || (b =? tab)))
             (fun _ _ => [])
      (replaceChar cr [lf]
         (replace2 (fun a b => (a =? cr) && (b =? lf)) (fun _ _ => [lf])
            input)) in
  filter (fun line => 0 <? len line) (split lf unfolded).

(** The loop of [splitParamString], with its three variables. *)
Fixpoint splitParamLoop (s : jsstring) (parts : list jsstring)
         (current : jsstring) (inQuotes : bool) : list jsstring :=
  match s with
  | [] => match current with [] => parts | _ => parts ++ [current] end
  | ch :: t =>
      if ch =? dq then splitParamLoop t parts (current ++ [ch]) (negb inQuotes)
      else if (ch =? semi) && negb inQuotes
           then splitParamLoop t (parts ++ [current]) [] inQuotes
      else splitParamLoop t parts (current ++ [ch]) inQuotes
  end.

Definition splitParamString (s : jsstring) : list jsstring :=
  splitParamLoop s [] [] false.

(** [/^[A-Z0-9-]+$/.test(s)]. *)
Definition isBareToken (s : jsstring) : bool :=
  match s with
  | [] => false
  | _ => forallb (fun c => ((65 <=? c) && (c <=? 90)) || isDigit c
                           || (c =? dash)) s
  end.

(** The merge written out twice in [parseParameters]: a new name is set to
    the value, a second occurrence turns the entry into a two-element
    array, later ones are pushed onto that array. *)
Definition mergeParam (map : ParameterMap) (name value : jsstring)
  : ParameterMap :=
  match mapGet map name with
  | None => mapSet map name (Scalar value)
  | Some (Multi existing) => mapSet map name (Multi (existing ++ [value]))
  | Some (Scalar existing) => mapSet map name (Multi [existing; value])
  end.

(** [find the first colon not inside quotes] of [parseContentLine]. *)
Fixpoint findColon (s : jsstring) (inQuotes : bool) (i : Z) : Z :=
  match s with
  | [] => -1
  | ch :: t =>
      if ch =? dq then findColon t (negb inQuotes) (i + 1)
      else if (ch =? colon) && negb inQuotes then i
      else findColon t inQuotes (i + 1)
  end.

(** *** Quoted-printable *)

(** [encoded.replace(/=\r?\n/g, '')]. *)
Fixpoint removeSoftBreaks (s : jsstring) : jsstring :=
  match s with
  | [] => []
  | c :: t =>
      match t with
      | d :: t' =>
          if (c =? eqc) && (d =? lf) then removeSoftBreaks t'
          else
            match t' with
            | e :: t'' =>
                if (c =? eqc) && (d =? cr) && (e =? lf)
                then removeSoftBreaks t''
                else c :: removeSoftBreaks t
            | [] => c :: removeSoftBreaks t
            end
      | [] => [c]
      end
  end.

Definition isHexDigit (c : Z) : bool :=
  isDigit c || ((65 <=? c) && (c <=? 70)) || ((97 <=? c) && (c <=? 102)).

Definition hexValue (c : Z) : Z :=
  if isDigit c then c - 48
  else if (65 <=? c) && (c <=? 70) then c - 55
  else c - 87.

(** [Buffer.from(ch, 'utf8')] for one code unit: a lone surrogate becomes
    the three octets of U+FFFD. *)
Definition utf8OfUnit (c : Z) : list Z :=
  if c <? 0x80 then [c]
  else if c <? 0x800 then [0xC0 + c / 64; 0x80 + c mod 64]
  else if isHighSurrogate c || isLowSurrogate c then [0xEF; 0xBF; 0xBD]
  else [0xE0 + c / 4096; 0x80 + (c / 64) mod 64; 0x80 + c mod 64].

(** The [while] loop of [decodeQuotedPrintable]: the octets collected from
    [noSoftBreaks.slice(i)]. *)
Fixpoint collectBytes (s : jsstring) : list Z :=
  match s with
  | [] => []
  | ch :: t =>
      let plain :=
        if ch <? 128 then [ch] else utf8OfUnit ch in
      match t with
      | h1 :: h2 :: t' =>
          if (ch =? eqc) && isHexDigit h1 && isHexDigit h2
          then (16 * hexValue h1 + hexValue h2) :: collectBytes t'
          else plain ++ collectBytes t
      | _ => plain ++ collectBytes t
      end
  end.

Definition isContinuation (b : Z) : bool := (0x80 <=? b) && (b <=? 0xBF).

(** A code point as UTF-16 code units. *)
Definition utf16 (cp : Z) : jsstring :=
  if cp <? 0x10000 then [cp]
  else [0xD800 + (cp - 0x10000) / 0x400; 0xDC00 + (cp - 0x10000) mod 0x400].

(** [Buffer.from(bytes).toString('utf8')]: the UTF-8 decoder of the
    platform.  An ill-formed or truncated sequence gives one U+FFFD and
    decoding resumes at the first octet that does not continue it. *)
Fixpoint utf8ToString (bytes : list Z) : jsstring :=
  match bytes with
  | [] => []
  | b0 :: r0 =>
      if b0 <? 0x80 then b0 :: utf8ToString r0
      else if (0xC2 <=? b0) && (b0 <=? 0xDF) then
        match r0 with
        | b1 :: r1 =>
            if isContinuation b1
            then ((b0 - 0xC0) * 64 + (b1 - 0x80)) :: utf8ToString r1
            else 0xFFFD :: utf8ToString r0
        | [] => [0xFFFD]
        end
      else if (0xE0 <=? b0) && (b0 <=? 0xEF) then
        let lo := if b0 =? 0xE0 then 0xA0 else 0x80 in
        let hi := if b0 =? 0xED then 0x9F else 0xBF in
        match r0 with
        | b1 :: r1 =>
            if (lo <=? b1) && (b1 <=? hi) then
              match r1 with
              | b2 :: r2 =>
                  if isContinuation b2
                  then ((b0 - 0xE0) * 4096 + (b1 - 0x80) * 64 + (b2 - 0x80))
                       :: utf8ToString r2
                  else 0xFFFD :: utf8ToString r1
              | [] => [0xFFFD]
              end
            else 0xFFFD :: utf8ToString r0
        | [] => [0xFFFD]
        end
      else if (0xF0 <=? b0) && (b0 <=? 0xF4) then
        let lo := if b0 =? 0xF0 then 0x90 else 0x80 in
        let hi := if b0 =? 0xF4 then 0x8F else 0xBF in
        match r0 with
        | b1 :: r1 =>
            if (lo <=? b1) && (b1 <=? hi) then
              match r1 with
              | b2 :: r2 =>
                  if isContinuation b2 then
                    match r2 with
                    | b3 :: r3 =>
                        if isContinuation b3
                        then utf16 ((b0 - 0xF0) * 262144 + (b1 - 0x80) * 4096
                                    + (b2 - 0x80) * 64 + (b3 - 0x80))
                             ++ utf8ToString r3
                        else 0xFFFD :: utf8ToString r2
                    | [] => [0xFFFD]
                    end
                  else 0xFFFD :: utf8ToString r1
              | [] => [0xFFFD]
              end
            else 0xFFFD :: utf8ToString r0
        | [] => [0xFFFD]
        end
      else 0xFFFD :: utf8ToString r0
  end.

Definition decodeQuotedPrintable (encoded : jsstring) : jsstring :=
  let noSoftBreaks := removeSoftBreaks encoded in
  utf8ToString (collectBytes noSoftBreaks).

Section Parsing.

(** [String.prototype.toUpperCase] and [toLowerCase]. *)
Variable toUpperCase toLowerCase : jsstring -> jsstring.

(** One round of the [for] loop of [parseParameters]. *)
Definition parseParameter
           (st : ParameterMap * list ParseWarning) (part : jsstring)
  : ParameterMap * list ParseWarning :=
  let '(map, warnings) := st in
  match trim part with
  | [] => st
  | _ =>
    let eq := indexOf part eqc in
    if eq =? -1 then
      let upperPart := toUpperCase (trim part) in
      if isBareToken upperPart
      then (mergeParam map (str "TYPE") (toLowerCase upperPart), warnings)
      else (map, warnings ++
                 [{| w_line := None;
                     w_message := str "Ignoring malformed parameter: "
                                  ++ part |}])
    else
      let name := toUpperCase (trim (slice part 0 eq)) in
      let rawValue := trim (sliceFrom part (eq + 1)) in
      let value := Escape.unquoteParamValue rawValue in
      (mergeParam map name value, warnings)
  end.

Definition parseParameters (paramStr : jsstring) (warnings : list ParseWarning)
  : ParameterMap * list ParseWarning :=
  match paramStr with
  | [] => ([], warnings)
  | _ => fold_left parseParameter (splitParamString paramStr) ([], warnings)
  end.

Definition parseContentLine (line : jsstring) (warnings : list ParseWarning)
  : option RawProperty * list ParseWarning :=
  let colonIdx := findColon line false 0 in
  if colonIdx =? -1 then
    (None, warnings ++
           [{| w_line := None;
               w_message := str "Skipping line with no colon: "
                            ++ slice line 0 40 |}])
  else
    let namePart := slice line 0 colonIdx in
    let value := sliceFrom line (colonIdx + 1) in
    let semiIdx := indexOf namePart semi in
    let nameAndGroup :=
      if semiIdx =? -1 then namePart else slice namePart 0 semiIdx in
    let paramStr :=
      if semiIdx =? -1 then [] else sliceFrom namePart (semiIdx + 1) in
    let dotIdx := indexOf nameAndGroup dot in
    let group :=
      if dotIdx =? -1 then None
      else Some (trim (slice nameAndGroup 0 dotIdx)) in
    let name :=
      if dotIdx =? -1 then toUpperCase (trim nameAndGroup)
      else toUpperCase (trim (sliceFrom nameAndGroup (dotIdx + 1))) in
    match name with
    | [] =>
        (None, warnings ++
               [{| w_line := None;
                   w_message :=
                     str "Skipping line with empty property name" |}])
    | _ =>
        let '(parameters, warnings') := parseParameters paramStr warnings in
        (Some {| raw_group := group; raw_name := name;
                 raw_parameters := parameters; raw_value := value |},
         warnings')
    end.

(** The property classes of [property.ts] are the field-typing layer; the
    parser only hands them the name, the decoded value, the parameters and
    the group.  [construct] stands for the constructor that the [switch] of
    [instantiateProperty] selects by name. *)
Variable Property : Type.
Variable construct :
  jsstring -> jsstring -> ParameterMap -> option jsstring -> Property.

(** The [case] labels of the [switch]. *)
Definition knownNames : list jsstring :=
  map str
    ["FN"; "N"; "NICKNAME"; "PHOTO"; "BDAY"; "ANNIVERSARY"; "GENDER"; "ADR";
     "TEL"; "EMAIL"; "IMPP"; "LANG"; "TZ"; "GEO"; "TITLE"; "ROLE"; "LOGO";
     "ORG"; "MEMBER"; "RELATED"; "CATEGORIES"; "NOTE"; "PRODID"; "REV";
     "SOUND"; "UID"; "CLIENTPIDMAP"; "URL"; "KEY"; "FBURL"; "CALADRURI";
     "CALURI"; "KIND"; "XML"; "SOURCE"; "LABEL"; "MAILER"; "CLASS";
     "PROFILE"; "NAME"]%string.

Definition isQuotedPrintable (encoding : option ParamValue) : bool :=
  match encoding with
  | Some (Scalar e) =>
      eqs e (str "QUOTED-PRINTABLE") || eqs e (str "quoted-printable")
  | _ => false
  end.

Definition instantiateProperty (raw : RawProperty)
           (warnings : list ParseWarning) : Property * list ParseWarning :=
  let qp := isQuotedPrintable (mapGet (raw_parameters raw) (str "ENCODING")) in
  let v :=
    if qp then decodeQuotedPrintable (raw_value raw) else raw_value raw in
  let parameters :=
    if qp then mapDelete (raw_parameters raw) (str "ENCODING")
    else raw_parameters raw in
  let name := raw_name raw in
  let warnings' :=
    if existsb (eqs name) knownNames then warnings
    else if negb (startsWith name (str "X-"))
            && negb (startsWith name (str "VND."))
    then warnings ++
         [{| w_line := None;
             w_message := str "Unknown property: " ++ name ++ [sp; 8212]
                          ++ str " stored verbatim" |}]
    else warnings in
  (construct name v parameters (raw_group raw), warnings').

Record RawVCard : Type := {
  rv_version : jsstring;
  rv_properties : list Property;
  rv_warnings : list ParseWarning
}.

(** One round of the [for] loop of [parseVCardBlock]. *)
Definition parseBlockLine
           (st : jsstring * list Property * list ParseWarning)
           (line : jsstring)
  : jsstring * list Property * list ParseWarning :=
  let '(version, properties, warnings) := st in
  let upper := toUpperCase line in
  if startsWith upper (str "VERSION:") then
    (trim (sliceFrom line 8), properties, warnings)
  else
    match parseContentLine line warnings with
    | (None, warnings') => (version, properties, warnings')
    | (Some raw, warnings') =>
        if eqs (raw_name raw) (str "VERSION") then
          (trim (raw_value raw), properties, warnings')
        else
          let '(prop, warnings'') := instantiateProperty raw warnings' in
          (version, properties ++ [prop], warnings'')
    end.

Definition parseVCardBlock (lines : list jsstring)
           (warnings : list ParseWarning) : RawVCard :=
  let '(version, properties, warnings') :=
    fold_left parseBlockLine lines (str "4.0", [], warnings) in
  {| rv_version := version; rv_properties := properties;
     rv_warnings := warnings' |}.

Record ParseResult : Type := {
  rawVCards : list RawVCard;
  warnings : list ParseWarning
}.

(** The variables of the loop of [parseVCardText]. *)
Record Assembler : Type := {
  inVCard : bool;
  currentLines : list jsstring;
  blocks : list RawVCard;
  collected : list ParseWarning
}.

Definition isBeginMarker (line : jsstring) : bool :=
  eqs (trim (toUpperCase line)) (str "BEGIN:VCARD").

Definition isEndMarker (line : jsstring) : bool :=
  eqs (trim (toUpperCase line)) (str "END:VCARD").

(** One round of the [for] loop, at index [i]. *)
Definition assembleLine (i : Z) (line : jsstring) (st : Assembler)
  : Assembler :=
  if isBeginMarker line then
    {| inVCard := true; currentLines := [];
       blocks := blocks st; collected := collected st |}
  else if isEndMarker line then
    if negb (inVCard st) then
      {| inVCard := inVCard st; currentLines := currentLines st;
         blocks := blocks st;
         collected := collected st ++
           [{| w_line := Some (i + 1);
               w_message := str "Unexpected END:VCARD without BEGIN:VCARD" |}]
      |}
    else
      let card := parseVCardBlock (currentLines st) [] in
      {| inVCard := false; currentLines := [];
         blocks := blocks st ++ [card];
         collected := collected st ++ rv_warnings card |}
  else if inVCard st then
    {| inVCard := inVCard st; currentLines := currentLines st ++ [line];
       blocks := blocks st; collected := collected st |}
  else st.

Fixpoint assemble (lines : list jsstring) (i : Z) (st : Assembler)
  : Assembler :=
  match lines with
  | [] => st
  | line :: rest => assemble rest (i + 1) (assembleLine i line st)
  end.

Definition unclosedWarning : ParseWarning :=
  {| w_line := None;
     w_message := str "Unclosed vCard (missing END:VCARD) " ++ [8212]
                  ++ str " parsing anyway" |}.

Definition parseVCardText (input : jsstring) : ParseResult :=
  let lines := unfoldLines input in
  let st :=
    assemble lines 0
      {| inVCard := false; currentLines := []; blocks := [];
         collected := [] |} in
  if inVCard st then
    let card := parseVCardBlock (currentLines st) [unclosedWarning] in
    {| rawVCards := blocks st ++ [card];
       warnings := collected st ++ rv_warnings card |}
  else
    {| rawVCards := blocks st; warnings := collected st |}.

End Parsing.

Arguments rv_version {Property} _.
Arguments rv_properties {Property} _.
Arguments rv_warnings {Property} _.
Arguments rawVCards {Property} _.
Arguments warnings {Property} _.
Arguments inVCard {Property} _.
Arguments currentLines {Property} _.
Arguments blocks {Property} _.
Arguments collected {Property} _.
Arguments instantiateProperty {Property} construct raw warnings.
Arguments parseBlockLine toUpperCase toLowerCase {Property} construct st line.
Arguments parseVCardBlock toUpperCase toLowerCase {Property} construct
  lines warnings.
Arguments assembleLine toUpperCase toLowerCase {Property} construct i line st.
Arguments assemble toUpperCase toLowerCase {Property} construct lines i st.
Arguments parseVCardText toUpperCase toLowerCase {Property} construct input.

End Parser.

(** ** property.ts: date-and-or-time values *)

Module DateTime.

Record DateAndOrTime : Type := {
  year : option number;
  month : option number;
  day : option number;
  hour : option number;
  minute : option number;
  second : option number;
  utcOffset : option jsstring;
  hasTime : bool
}.

Definition isSign (c : Z) : bool := (c =? 43) || (c =? 45).

(** [tp.match(/([Zz]|[+-]\d{2}:?\d{2})$/)], the text of group 1.  The match
    is a suffix of six, five or one code units; the leftmost start wins. *)
Definition offsetMatch (tp : jsstring) : option jsstring :=
  let suffix k := skipn (List.length tp - k) tp in
  match suffix 6%nat with
  | [a; b; c; d; e; f] =>
      if isSign a && isDigit b && isDigit c && (d =? colon)
         && isDigit e && isDigit f
      then Some [a; b; c; d; e; f] else
      if isSign b && isDigit c && isDigit d && isDigit e && isDigit f
      then Some [b; c; d; e; f] else
      if (f =? 90) || (f =? 122) then Some [f] else None
  | _ =>
      match suffix 5%nat with
      | [b; c; d; e; f] =>
          if isSign b && isDigit c && isDigit d && isDigit e && isDigit f
          then Some [b; c; d; e; f] else
          if (f =? 90) || (f =? 122) then Some [f] else None
      | _ =>
          match suffix 1%nat with
          | [f] => if (f =? 90) || (f =? 122) then Some [f] else None
          | _ => None
          end
      end
  end.

Section Parse.

(** [String.prototype.toUpperCase], the platform's Unicode case mapping. *)
Variable toUpperCase : jsstring -> jsstring.

Definition parseDateAndOrTime (value : jsstring) : option DateAndOrTime :=
  match value with
  | [] => None
  | _ =>
    let v := filter (fun c => negb (isWhiteSpace c)) value in
    let tIndex := indexOf (toUpperCase v) 84 in
    let datePart := if tIndex =? -1 then v else slice v 0 tIndex in
    let timePart := if tIndex =? -1 then [] else sliceFrom v (tIndex + 1) in
    let hasTime := match timePart with [] => false | _ => true end in
    let '(year, month, day) :=
      match datePart with
      | [] => (None, None, None)
      | _ =>
        if startsWith datePart (str "--") then
          let d := replaceChar dash [] (sliceFrom datePart 2) in
          (None,
           if 2 <=? len d then Some (parseInt10 (slice d 0 2)) else None,
           if 4 <=? len d then Some (parseInt10 (slice d 2 4)) else None)
        else if startsWith datePart (str "---") then
          (None, None, Some (parseInt10 (sliceFrom datePart 3)))
        else
          let clean := replaceChar dash [] datePart in
          (if 4 <=? len clean then Some (parseInt10 (slice clean 0 4))
           else None,
           if 6 <=? len clean then Some (parseInt10 (slice clean 4 6))
           else None,
           if 8 <=? len clean then Some (parseInt10 (slice clean 6 8))
           else None)
      end in
    let '(hour, minute, second, utcOffset) :=
      match timePart with
      | [] => (None, None, None, None)
      | _ =>
        let '(utcOffset, tp) :=
          match offsetMatch timePart with
          | Some m =>
              (Some (toUpperCase m), slice timePart 0 (len timePart - len m))
          | None => (None, timePart)
          end in
        let clean := replaceChar colon [] tp in
        (if 2 <=? len clean then Some (parseInt10 (slice clean 0 2))
         else None,
         if 4 <=? len clean then Some (parseInt10 (slice clean 2 4))
         else None,
         if 6 <=? len clean then Some (parseInt10 (slice clean 4 6))
         else None,
         utcOffset)
      end in
    Some {| year := year; month := month; day := day;
            hour := hour; minute := minute; second := second;
            utcOffset := utcOffset; hasTime := hasTime |}
  end.

End Parse.

Definition defined {A} (o : option A) : bool :=
  match o with Some _ => true | None => false end.

(** [String(x).padStart(n, '0')] when [x] is defined, else nothing. *)
Definition padded (n : nat) (o : option number) : jsstring :=
  match o with
  | Some x => padStart0 n (numberToString x)
  | None => []
  end.

Definition formatDateAndOrTime (dt : DateAndOrTime) : jsstring :=
  let datePart :=
    if defined (year dt) || defined (month dt) || defined (day dt) then
      if negb (defined (year dt)) && defined (month dt) then
        str "--" ++ padded 2 (month dt) ++ padded 2 (day dt)
      else if negb (defined (year dt)) && defined (day dt) then
        str "---" ++ padded 2 (day dt)
      else
        padded 4 (year dt) ++ padded 2 (month dt) ++ padded 2 (day dt)
    else [] in
  let timePart :=
    if hasTime dt
       && (defined (hour dt) || defined (minute dt) || defined (second dt))
    then
      [84] ++ padded 2 (hour dt) ++ padded 2 (minute dt)
      ++ padded 2 (second dt)
      ++ match utcOffset dt with
         | Some (c :: o) => c :: o
         | _ => []
         end
    else [] in
  datePart ++ timePart.

End DateTime.
(** ** property.ts: structured property values

    The values of ADR, ORG, N, GENDER and CLIENTPIDMAP with the two
    functions that read them from text and write them back; parameters and
    group are passed through untouched by both and are left out. *)

Module Classes.
Import Escape.

Record Address : Type := {
  postOfficeBox : jsstring;
  extendedAddress : jsstring;
  streetAddress : jsstring;
  locality : jsstring;
  region : jsstring;
  postalCode : jsstring;
  countryName : jsstring
}.

(** [AdrProperty.fromText]; [c[i] ?? ''] is [nth i c []]. *)
Definition AdrProperty_fromText (text : jsstring) : Address :=
  let c := parseStructured text in
  {| postOfficeBox := nth 0 c [];
     extendedAddress := nth 1 c [];
     streetAddress := nth 2 c [];
     locality := nth 3 c [];
     region := nth 4 c [];
     postalCode := nth 5 c [];
     countryName := nth 6 c [] |}.

Definition AdrProperty_toContentLine (value : Address) : jsstring :=
  join [semi]
    [escapeStructuredComponent (postOfficeBox value);
     escapeStructuredComponent (extendedAddress value);
     escapeStructuredComponent (streetAddress value);
     escapeStructuredComponent (locality value);
     escapeStructuredComponent (region value);
     escapeStructuredComponent (postalCode value);
     escapeStructuredComponent (countryName value)].

Record Organization : Type := {
  org_name : jsstring;
  units : list jsstring
}.

Definition OrgProperty_fromText (text : jsstring) : Organization :=
  let parts := parseStructured text in
  {| org_name := nth 0 parts [];
     units := filter (fun s => negb (eqs s [])) (skipn 1 parts) |}.

Definition OrgProperty_toContentLine (value : Organization) : jsstring :=
  join [semi] (map escapeStructuredComponent (org_name value :: units value)).

Record StructuredName : Type := {
  familyNames : list jsstring;
  givenNames : list jsstring;
  additionalNames : list jsstring;
  honorificPrefixes : list jsstring;
  honorificSuffixes : list jsstring
}.

Definition NProperty_fromText (text : jsstring) : StructuredName :=
  let components := parseStructuredList text in
  {| familyNames := nth 0 components [];
     givenNames := nth 1 components [];
     additionalNames := nth 2 components [];
     honorificPrefixes := nth 3 components [];
     honorificSuffixes := nth 4 components [] |}.

Definition NProperty_toContentLine (value : StructuredName) : jsstring :=
  join [semi]
    [join [comma] (map escapeStructuredComponent (familyNames value));
     join [comma] (map escapeStructuredComponent (givenNames value));
     join [comma] (map escapeStructuredComponent (additionalNames value));
     join [comma] (map escapeStructuredComponent (honorificPrefixes value));
     join [comma] (map escapeStructuredComponent (honorificSuffixes value))].

(** [identity] is optional: [None] is [undefined]. *)
Record Gender : Type := {
  sex : jsstring;
  identity : option jsstring
}.

Section GenderText.

Variable toUpperCase : jsstring -> jsstring.

Definition GenderProperty_fromText (text : jsstring) : Gender :=
  let semiIdx := indexOf text semi in
  if semiIdx =? -1 then {| sex := toUpperCase text; identity := None |}
  else
    let sex := toUpperCase (slice text 0 semiIdx) in
    let identity := unescapeText (sliceFrom text (semiIdx + 1)) in
    {| sex := sex;
       identity := match identity with [] => None | _ => Some identity end |}.

End GenderText.

Definition GenderProperty_toContentLine (value : Gender) : jsstring :=
  match identity value with
  | Some (c :: i) => sex value ++ [semi] ++ escapeStructuredComponent (c :: i)
  | _ => sex value
  end.

(** [pid] is an integer; [parseInt(...) || 1] replaces [NaN] and 0 by 1. *)
Record ClientPidMap : Type := {
  pid : Z;
  uri : jsstring
}.

Definition orOne (n : number) : Z :=
  match n with
  | NaN => 1
  | Num z => if z =? 0 then 1 else z
  end.

Definition ClientPidMapProperty_fromText (text : jsstring) : ClientPidMap :=
  let semiIdx := indexOf text semi in
  if semiIdx =? -1 then {| pid := orOne (parseInt10 text); uri := [] |}
  else {| pid := orOne (parseInt10 (slice text 0 semiIdx));
          uri := sliceFrom text (semiIdx + 1) |}.

Definition ClientPidMapProperty_toContentLine (value : ClientPidMap)
  : jsstring :=
  numberToString (Num (pid value)) ++ [semi] ++ uri value.

(** [TextListProperty.toContentLine] (NICKNAME, CATEGORIES) and the
    [parseTextList] that [instantiateProperty] reads their values with. *)
Definition TextListProperty_toContentLine (values : list jsstring)
  : jsstring :=
  join [comma] (map escapeText values).

Definition parseTextList (v : jsstring) : list jsstring := parseList v.

End Classes.


(** ** property.ts: the setters of the base class

    A setter replaces one entry of [params]; with the objects of
    [PropertyObject] the updated object is returned. *)

Module Setters.

Definition withParams (prop : PropertyObject) (params : ParameterMap)
  : PropertyObject :=
  match prop with
  | TextProperty n v _ g => TextProperty n v params g
  | UnknownProperty n raw _ g => UnknownProperty n raw params g
  end.

(** [set type(values)]. *)
Definition set_type (prop : PropertyObject) (values : list jsstring)
  : PropertyObject :=
  withParams prop
    match values with
    | [] => mapDelete (prop_params prop) (str "TYPE")
    | [v] => mapSet (prop_params prop) (str "TYPE") (Scalar v)
    | _ => mapSet (prop_params prop) (str "TYPE") (Multi values)
    end.

(** [set pref(value)]; [None] is [undefined]. *)
Definition set_pref (prop : PropertyObject) (value : option number)
  : PropertyObject :=
  withParams prop
    match value with
    | None => mapDelete (prop_params prop) (str "PREF")
    | Some n =>
        mapSet (prop_params prop) (str "PREF") (Scalar (numberToString n))
    end.

(** [Array.isArray(v) ? v[0] : v], the getter of [language], [altid],
    [pid] and [valueType]. *)
Definition firstValue (v : option ParamValue) : option jsstring :=
  match v with
  | Some (Scalar s) => Some s
  | Some (Multi l) => nth_error l 0
  | None => None
  end.

Definition language (prop : PropertyObject) : option jsstring :=
  firstValue (mapGet (prop_params prop) (str "LANGUAGE")).

Definition altid (prop : PropertyObject) : option jsstring :=
  firstValue (mapGet (prop_params prop) (str "ALTID")).

Definition pid (prop : PropertyObject) : option jsstring :=
  firstValue (mapGet (prop_params prop) (str "PID")).

Definition valueType (prop : PropertyObject) : option jsstring :=
  firstValue (mapGet (prop_params prop) (str "VALUE")).

(** The setter of [language], [altid] and [valueType], for the name of
    its parameter. *)
Definition setString (name : jsstring) (prop : PropertyObject)
           (value : option jsstring) : PropertyObject :=
  withParams prop
    match value with
    | None => mapDelete (prop_params prop) name
    | Some v => mapSet (prop_params prop) name (Scalar v)
    end.

Definition set_language := setString (str "LANGUAGE").
Definition set_altid := setString (str "ALTID").
Definition set_valueType := setString (str "VALUE").

End Setters.

(** ** property.ts: the typed properties

    The classes whose values are modelled above, as objects of the class
    [Property]: the name is the one their constructor passes to [super],
    [toContentLine] is the method of the class. *)

Module Typed.
Import Escape Classes.

Inductive TypedProperty : Type :=
| Plain (prop : PropertyObject)
| TextListP (name : jsstring) (values : list jsstring)
            (params : ParameterMap) (group : option jsstring)
| NP (value : StructuredName) (params : ParameterMap)
     (group : option jsstring)
| AdrP (value : Address) (params : ParameterMap) (group : option jsstring)
| OrgP (value : Organization) (params : ParameterMap)
       (group : option jsstring)
| GenderP (value : Gender) (params : ParameterMap)
          (group : option jsstring)
| ClientPidMapP (value : ClientPidMap) (params : ParameterMap)
                (group : option jsstring).

(** Reading [value.sex] through the cast of [validateForGeneration]: a
    [value] without that field gives [undefined], an object without
    [value] a [TypeError]. *)
#[export] Instance TypedProperty_like : PropertyLike TypedProperty := {|
  prop_group p :=
    match p with
    | Plain q => prop_group q
    | TextListP _ _ _ g | NP _ _ g | AdrP _ _ g | OrgP _ _ g
    | GenderP _ _ g | ClientPidMapP _ _ g => g
    end;
  prop_name p :=
    match p with
    | Plain q => prop_name q
    | TextListP n _ _ _ => n
    | NP _ _ _ => str "N"
    | AdrP _ _ _ => str "ADR"
    | OrgP _ _ _ => str "ORG"
    | GenderP _ _ _ => str "GENDER"
    | ClientPidMapP _ _ _ => str "CLIENTPIDMAP"
    end;
  prop_params p :=
    match p with
    | Plain q => prop_params q
    | TextListP _ _ ps _ | NP _ ps _ | AdrP _ ps _ | OrgP _ ps _
    | GenderP _ ps _ | ClientPidMapP _ ps _ => ps
    end;
  toContentLine p :=
    match p with
    | Plain q => toContentLine q
    | TextListP _ values _ _ => TextListProperty_toContentLine values
    | NP value _ _ => NProperty_toContentLine value
    | AdrP value _ _ => AdrProperty_toContentLine value
    | OrgP value _ _ => OrgProperty_toContentLine value
    | GenderP value _ _ => GenderProperty_toContentLine value
    | ClientPidMapP value _ _ => ClientPidMapProperty_toContentLine value
    end;
  gender_sex p :=
    match p with
    | Plain q => gender_sex q
    | TextListP _ _ _ _ => SexTypeError
    | GenderP value _ _ => SexIs (sex value)
    | NP _ _ _ | AdrP _ _ _ | OrgP _ _ _ | ClientPidMapP _ _ _ =>
        SexUndefined
    end;
  rev_invalid_date _ := false
|}.

(** The names of the [case]s of [instantiateProperty] that build one of
    these objects. *)
Definition textNames : list jsstring :=
  map str ["FN"; "EMAIL"; "TITLE"; "ROLE"; "NOTE"; "PRODID"; "KIND";
           "XML"]%string.

Definition listNames : list jsstring :=
  map str ["NICKNAME"; "CATEGORIES"]%string.

Section Switch.

Variable toUpperCase : jsstring -> jsstring.

(** The [switch] of [instantiateProperty], for these names and for the
    names of its [default] branch. *)
Definition constructTyped (name value : jsstring) (params : ParameterMap)
           (group : option jsstring) : TypedProperty :=
  if existsb (eqs name) textNames
  then Plain (TextProperty name (unescapeText value) params group)
  else if existsb (eqs name) listNames
  then TextListP name (parseTextList value) params group
  else if eqs name (str "N") then NP (NProperty_fromText value) params group
  else if eqs name (str "ADR")
  then AdrP (AdrProperty_fromText value) params group
  else if eqs name (str "ORG")
  then OrgP (OrgProperty_fromText value) params group
  else if eqs name (str "GENDER")
  then GenderP (GenderProperty_fromText toUpperCase value) params group
  else if eqs name (str "CLIENTPIDMAP")
  then ClientPidMapP (ClientPidMapProperty_fromText value) params group
  else Plain (UnknownProperty name value params group).

End Switch.

End Typed.
Import Typed.

(** * The vocabulary of the statements

    Predicates on inputs, reference encoders and example inputs that the
    theorems below are stated with; none of them is part of the codec. *)

Module Spec.
Import Escape Generator Parser.

(** ** Escaping *)

(** What the four passes of [escapeText] do to one code unit. *)
Definition escapeUnit (c : Z) : jsstring :=
  if c =? bs then [bs; bs]
  else if c =? lf then [bs; 110]
  else if c =? comma then [bs; comma]
  else if c =? semi then [bs; semi]
  else [c].

Definition escQuote (s : jsstring) : jsstring := replaceChar dq [bs; dq] s.
Definition escBackslash (s : jsstring) : jsstring := replaceChar bs [bs; bs] s.
Definition unescQuote (s : jsstring) : jsstring :=
  replace2 (fun a b => (a =? bs) && (b =? dq)) (fun _ _ => [dq]) s.
Definition unescBackslash (s : jsstring) : jsstring :=
  replace2 (fun a b => (a =? bs) && (b =? bs)) (fun _ _ => [bs]) s.

(** ** Folding *)

(** A single-line text holds neither a carriage return nor a line feed. *)
Definition singleLine (s : jsstring) : bool :=
  forallb (fun c => negb (c =? cr) && negb (c =? lf)) s.

(** What [foldLine] returns for a list of segments. *)
Definition folded (parts : list jsstring) : jsstring :=
  join [cr; lf; sp] parts ++ [cr; lf].

(** The three replacements of [unfoldLines]. *)
Definition unfoldText (input : jsstring) : jsstring :=
  replace2 (fun a b => (a =? lf) && ((b =? sp) || (b =? tab)))
           (fun _ _ => [])
    (replaceChar cr [lf]
       (replace2 (fun a b => (a =? cr) && (b =? lf)) (fun _ _ => [lf])
          input)).

(** ** Parameters *)



(** ** Blocks and warnings *)

(** [ws'] is [ws] with warnings pushed onto it. *)
Definition extends (ws ws' : list ParseWarning) : Prop :=
  exists pushed, ws' = ws ++ pushed.

Definition unexpectedEnd (lineNumber : Z) : ParseWarning :=
  {| w_line := Some lineNumber;
     w_message := str "Unexpected END:VCARD without BEGIN:VCARD" |}.

Section Markers.

Variable toUpperCase : jsstring -> jsstring.
Variable Property : Type.

(** The state before the first line. *)
Definition start : Assembler Property :=
  {| inVCard := false; currentLines := []; blocks := []; collected := [] |}.

(** The lines end inside a block: the last marker among them is a begin
    marker. *)
Definition insideBlock (lines : list jsstring) : bool :=
  fold_left (fun inside line =>
               if isBeginMarker toUpperCase line then true
               else if isEndMarker toUpperCase line then false else inside)
            lines false.

(** The end markers met inside a block: each closes one block. *)
Fixpoint closedBlocks (inside : bool) (lines : list jsstring) : nat :=
  match lines with
  | [] => 0
  | line :: rest =>
      if isBeginMarker toUpperCase line then closedBlocks true rest
      else if isEndMarker toUpperCase line then
        ((if inside then 1 else 0) + closedBlocks false rest)%nat
      else closedBlocks inside rest
  end.

End Markers.

Arguments start {Property}.

Section Lines.

Variable toUpperCase toLowerCase : jsstring -> jsstring.
Variable Property : Type.
Variable construct :
  jsstring -> jsstring -> ParameterMap -> option jsstring -> Property.

(** The version that one accumulated line declares, if it declares one:
    a line that starts with [VERSION:], or a content line named VERSION. *)
Definition lineVersion (line : jsstring) : option jsstring :=
  if startsWith (toUpperCase line) (str "VERSION:") then
    Some (trim (sliceFrom line 8))
  else
    match fst (parseContentLine toUpperCase toLowerCase line []) with
    | Some raw =>
        if eqs (raw_name raw) (str "VERSION")
        then Some (trim (raw_value raw)) else None
    | None => None
    end.

(** The property that one accumulated line gives, if it gives one: what
    [instantiateProperty] makes of the content line read from it. *)
Definition lineProperty (line : jsstring) : option Property :=
  if startsWith (toUpperCase line) (str "VERSION:") then None
  else
    match fst (parseContentLine toUpperCase toLowerCase line []) with
    | Some raw =>
        if eqs (raw_name raw) (str "VERSION") then None
        else Some (fst (instantiateProperty construct raw []))
    | None => None
    end.

(** The warnings that reading one accumulated line pushes. *)
Definition lineWarnings (line : jsstring) : list ParseWarning :=
  if startsWith (toUpperCase line) (str "VERSION:") then []
  else
    match parseContentLine toUpperCase toLowerCase line [] with
    | (Some raw, ws) =>
        if eqs (raw_name raw) (str "VERSION") then ws
        else snd (instantiateProperty construct raw ws)
    | (None, ws) => ws
    end.

(** The version of a block: the last one that its lines declare, 4.0 when
    none does. *)
Definition declaredVersion (lines : list jsstring) : jsstring :=
  fold_left (fun version line =>
               match lineVersion line with
               | Some declared => declared
               | None => version
               end)
            lines (str "4.0").

(** The properties of a block, line by line and in the order of the
    lines. *)
Definition lineProperties (lines : list jsstring) : list Property :=
  flat_map (fun line =>
              match lineProperty line with
              | Some prop => [prop]
              | None => []
              end)
           lines.

End Lines.

Arguments lineProperty toUpperCase toLowerCase {Property} construct line.
Arguments lineWarnings toUpperCase toLowerCase {Property} construct line.
Arguments lineProperties toUpperCase toLowerCase {Property} construct lines.

(** An input with an end marker at line 1, then a begin marker that is
    never closed; unknown [X-] properties are instantiated as
    [UnknownProperty]. *)
Definition strayEndThenOpen : jsstring :=
  str "END:VCARD" ++ [cr; lf] ++ str "BEGIN:VCARD" ++ [cr; lf]
  ++ str "X-A:1" ++ [cr; lf].

(** ** Validation *)

Section Validation.

Context {P : Type} `{PropertyLike P}.

(** The [pref] accessor gives an integer below 1 or above 100. *)
Definition prefOutOfRange (prop : P) : bool :=
  match pref prop with
  | Some (Num n) => (n <? 1) || (n >? 100)
  | _ => false
  end.

Definition isFN (prop : P) : bool := eqs (prop_name prop) (str "FN").

End Validation.

(** FN present, and a telephone with [PREF=0]. *)
Definition cardWithBadPref : list PropertyObject :=
  [TextProperty (str "FN") (str "A") [] None;
   UnknownProperty (str "X-TEL") (str "1") [(str "PREF", Scalar (str "0"))]
                   None].

(** ** Quoted-printable and UTF-8 *)

(** The encoder that the decoder undoes: every octet written as [=XX],
    and UTF-8 itself. *)
Definition hexDigit (n : Z) : Z := if n <? 10 then 48 + n else 55 + n.

Definition triplet (b : Z) : jsstring :=
  [eqc; hexDigit (b / 16); hexDigit (b mod 16)].

Definition qpEncode (bytes : list Z) : jsstring := flat_map triplet bytes.

Definition isOctet (b : Z) : bool := (0 <=? b) && (b <? 256).

(** A Unicode scalar value: a code point that is no surrogate. *)
Definition isScalar (cp : Z) : bool :=
  ((0 <=? cp) && (cp <? 0xD800)) || ((0xE000 <=? cp) && (cp <=? 0x10FFFF)).

Definition utf8Encode (cp : Z) : list Z :=
  if cp <? 0x80 then [cp]
  else if cp <? 0x800 then [0xC0 + cp / 64; 0x80 + cp mod 64]
  else if cp <? 0x10000 then
    [0xE0 + cp / 4096; 0x80 + (cp / 64) mod 64; 0x80 + cp mod 64]
  else
    [0xF0 + cp / 262144; 0x80 + (cp / 4096) mod 64;
     0x80 + (cp / 64) mod 64; 0x80 + cp mod 64].


(** ** Structured values *)

(** The splitting loop takes [p] into the current component whole. *)
Definition absorbed (d : Z) (p : jsstring) : Prop :=
  forall rest parts current,
    splitLoop d (p ++ rest) parts current
    = splitLoop d rest parts (current ++ p).

(** What an empty list of names is read back as: one empty name. *)
Definition orEmptyName (names : list jsstring) : list jsstring :=
  match names with [] => [[]] | _ => names end.

(** ** Strings *)

(** No white space at either end. *)
Definition trimmed (s : jsstring) : bool :=
  match s with
  | [] => true
  | c :: _ => negb (isWhiteSpace c) && negb (isWhiteSpace (last s 0))
  end.

(** The integers that a JavaScript number holds exactly and prints in
    decimal digits. *)
Definition safeInteger (n : Z) : bool :=
  (- 9007199254740991 <=? n) && (n <=? 9007199254740991).

(** The code units of a JavaScript string are below 2^16. *)
Definition codeUnits (s : jsstring) : bool :=
  forallb (fun c => c <=? 0xFFFF) s.

(** The octets of a list of pieces, each encoded on its own. *)
Definition octetsOf (parts : list jsstring) : Z :=
  fold_right (fun p n => byteLength p + n) 0 parts.

(** A text as its physical lines, each ended by CRLF. *)
Definition physical (lines : list jsstring) : jsstring :=
  flat_map (fun l => l ++ [cr; lf]) lines.

(** ** Lines *)

(** A line of text: not empty, no line break in it, and no white space at
    its start that would make it a continuation. *)
Definition textLine (l : jsstring) : bool :=
  singleLine l
  && match l with
     | c :: _ => negb ((c =? sp) || (c =? tab))
     | [] => false
     end.

(** The three line terminators: CRLF, LF and CR. *)
Definition lineEnd (e : jsstring) : bool :=
  eqs e [cr; lf] || eqs e [lf] || eqs e [cr].

(** What follows a line terminator: nothing, or a line of text. *)
Definition lineStart (rest : jsstring) : Prop :=
  match rest with
  | [] => True
  | h :: _ => h <> cr /\ h <> lf /\ h <> sp /\ h <> tab
  end.

(** ** Parameters *)

(** A value for the TYPE parameter that the getter returns as it is: ASCII
    without capital letters or commas, no white space at either end. *)
Definition typeValue (v : jsstring) : bool :=
  isAscii v && eqs (lowerAscii v) v && negb (existsb (Z.eqb comma) v)
  && trimmed v.

(** A parameter value that is read back as written: no double quote in
    it and no white space at either end. *)
Definition paramText (v : jsstring) : bool :=
  trimmed v && negb (existsb (Z.eqb dq) v).

Fixpoint distinct (names : list jsstring) : bool :=
  match names with
  | [] => true
  | k :: r => negb (existsb (eqs k) r) && distinct r
  end.

(** A parameter map as the writer expects it: the names are distinct
    tokens in capital letters and each holds one text. *)
Definition scalarParams (params : ParameterMap) : bool :=
  forallb (fun kv => isBareToken (fst kv)
                     && match snd kv with
                        | Scalar v => paramText v
                        | Multi _ => false
                        end) params
  && distinct (map fst params).

(** What [serializeParameters] writes for one text. *)
Definition paramPart (k v : jsstring) : jsstring :=
  k ++ [eqc] ++ quoteParamValue v.

(** [splitParamString] takes [p] into the current part whole, outside
    quotes before and after. *)
Definition sealed (p : jsstring) : Prop :=
  forall rest parts current,
    splitParamLoop (p ++ rest) parts current false
    = splitParamLoop rest parts (current ++ p) false.

(** [parseContentLine] passes [p] when it looks for the colon, outside
    quotes before and after. *)
Definition colonSealed (p : jsstring) : Prop :=
  forall rest i,
    findColon (p ++ rest) false i = findColon rest false (i + len p).

(** ** Content lines *)

(** A token: letters, digits and dashes, at least one. *)
Definition tokenChar (c : Z) : bool :=
  isDigit c || ((65 <=? c) && (c <=? 90)) || ((97 <=? c) && (c <=? 122))
  || (c =? dash).

Definition isToken (s : jsstring) : bool :=
  match s with
  | [] => false
  | _ => forallb tokenChar s
  end.

(** A line whose upper-case form is a first token, then a delimiter that
    is neither a token character nor white space, then the rest. *)
Definition delimited (toUpperCase : jsstring -> jsstring)
    (line U : jsstring) (d : Z) : Prop :=
  exists Y, toUpperCase line = U ++ d :: Y /\ isToken U = true /\
            tokenChar d = false /\ isWhiteSpace d = false.

Section Properties.

Context {P : Type} `{PropertyLike P}.

(** The line that [serializeProperty] folds. *)
Definition contentLine (prop : P) : jsstring :=
  let namePart :=
    match prop_group prop with
    | Some (c :: g) => (c :: g) ++ [dot] ++ prop_name prop
    | _ => prop_name prop
    end in
  let paramStr := serializeParameters (prop_params prop) in
  let separator :=
    match paramStr with [] => [] | _ => [semi] ++ paramStr end in
  namePart ++ separator ++ [colon] ++ toContentLine prop.

(** What the tokenizer is expected to read from that line; an empty group
    is no group. *)
Definition rawOf (prop : P) : RawProperty :=
  {| raw_group := match prop_group prop with
                  | Some (c :: g) => Some (c :: g)
                  | _ => None
                  end;
     raw_name := prop_name prop;
     raw_parameters := prop_params prop;
     raw_value := toContentLine prop |}.

(** The name is a token in capital letters, the group a token, and the
    parameters are texts under distinct names. *)
Definition wellNamed (prop : P) : bool :=
  isBareToken (prop_name prop)
  && match prop_group prop with
     | Some (c :: g) => isToken (c :: g)
     | _ => true
     end
  && scalarParams (prop_params prop).

(** The rank of a property in [PROPERTY_ORDER]. *)
Definition rank (prop : P) : Z := orderOf PROPERTY_ORDER (prop_name prop).

(** A property that can be written on a line of its own: well named, no
    line break in its line, and not named like a block marker. *)
Definition writable (prop : P) : bool :=
  wellNamed prop && singleLine (contentLine prop)
  && negb (eqs (prop_name prop) (str "BEGIN"))
  && negb (eqs (prop_name prop) (str "END")).

(** The properties that [serializeVCard] writes, in the order it writes
    them. *)
Definition emitted (properties : list P) : list P :=
  orderProperties
    (filter (fun p => negb (eqs (prop_name p) (str "VERSION"))) properties).

(** What [instantiateProperty] makes of the line of a property. *)
Definition instantiated {Property : Type}
           (construct : jsstring -> jsstring -> ParameterMap
                        -> option jsstring -> Property)
           (prop : P) : Property :=
  fst (instantiateProperty construct (rawOf prop) []).

End Properties.

(** What the merge leaves under a name for the values met: one string,
    or the array of them. *)
Definition merged (values : list jsstring) : ParamValue :=
  match values with
  | [v] => Scalar v
  | _ => Multi values
  end.

(** ** Acceptance *)

Section Acceptance.

Context {P : Type} `{PropertyLike P}.

(** A property named GENDER holds one of the six sex values. *)
Definition genderAccepted (prop : P) : bool :=
  if eqs (prop_name prop) (str "GENDER") then
    match gender_sex prop with
    | SexIs sex => existsb (eqs sex) validSex
    | _ => false
    end
  else true.

(** A property named REV does not hold an invalid date. *)
Definition revAccepted (prop : P) : bool :=
  negb (eqs (prop_name prop) (str "REV") && rev_invalid_date prop).

Definition accepted (prop : P) : bool :=
  negb (prefOutOfRange prop) && genderAccepted prop && revAccepted prop.

End Acceptance.

(** ** Quoted-printable text *)

(** ASCII text without an equals sign. *)
Definition plainText (s : jsstring) : bool :=
  forallb (fun c => (0 <=? c) && (c <? 128) && negb (c =? eqc)) s.

(** ** Objects *)

Section Objects.

Import Classes.

(** The names for which [constructTyped] is the [switch]. *)
Definition typedNames : list jsstring :=
  textNames ++ listNames
  ++ map str ["N"; "ADR"; "ORG"; "GENDER"; "CLIENTPIDMAP"]%string.

(** The value of an object comes back from its text: no list of a name
    and no list of values is empty, no unit of an organization is empty,
    the sex is one of the six values and the identity is not the empty
    string, the pid is an exact integer other than 0.  A text property has
    one of the text names, a list property one of the list names, an
    unknown property a name that is no [case] of the [switch]. *)
Definition valueReadBack (prop : TypedProperty) : bool :=
  match prop with
  | Plain (TextProperty name _ _ _) => existsb (eqs name) textNames
  | Plain (UnknownProperty name _ _ _) => negb (existsb (eqs name) knownNames)
  | TextListP name values _ _ =>
      existsb (eqs name) listNames
      && match values with [] => false | _ => true end
  | NP value _ _ =>
      forallb (fun l => match l with [] => false | _ :: _ => true end)
        [familyNames value; givenNames value; additionalNames value;
         honorificPrefixes value; honorificSuffixes value]
  | AdrP _ _ _ => true
  | OrgP value _ _ => forallb (fun s => negb (eqs s [])) (units value)
  | GenderP value _ _ =>
      existsb (eqs (sex value)) validSex
      && match identity value with Some [] => false | _ => true end
  | ClientPidMapP value _ _ =>
      safeInteger (pid value) && negb (pid value =? 0)
  end.

(** An object that the parser builds again from its line: its value is
    read back, its group is not the empty string and its parameters do not
    announce quoted-printable. *)
Definition rebuilt (prop : TypedProperty) : bool :=
  valueReadBack prop
  && match prop_group prop with Some [] => false | _ => true end
  && negb (isQuotedPrintable (mapGet (prop_params prop) (str "ENCODING"))).

(** A card with a name, a structured name, an address, an organization,
    a gender, nicknames, a note and two extension properties. *)
Definition sampleCard : list TypedProperty :=
  [Plain (UnknownProperty (str "X-B") (str "b;c") []
                          (Some (str "item1")));
   AdrP {| postOfficeBox := []; extendedAddress := [];
           streetAddress := str "1 Main St; Apt 2";
           locality := str "Springfield"; region := str "IL";
           postalCode := str "62701"; countryName := str "USA" |}
        [(str "TYPE", Scalar (str "home"));
         (str "LABEL", Scalar (str "1 Main St, Springfield: IL"))] None;
   Plain (TextProperty (str "NOTE") (repeat 233 90 ++ [lf] ++ str "end")
                       [(str "LANGUAGE", Scalar (str "fr"))] None);
   GenderP {| sex := str "O"; identity := Some (str "it's; complicated") |}
           [] None;
   OrgP {| org_name := str "A, B & C"; units := [str "R;D"] |} [] None;
   TextListP (str "NICKNAME") [str "Al"; str "A,l"] [] None;
   ClientPidMapP {| pid := 2; uri := str "urn:uuid:3df4;x" |} [] None;
   NP {| familyNames := [str "Doe"]; givenNames := [str "Al"; str "Bo"];
         additionalNames := [[]]; honorificPrefixes := [str "Dr."];
         honorificSuffixes := [[]] |} [] None;
   Plain (UnknownProperty (str "X-A") (str "a")
                          [(str "X-P", Scalar (str "p:q"))] None);
   Plain (TextProperty (str "FN") (str "A, B") [] None)].

Definition sampleText : jsstring :=
  match serializeVCard sampleCard {| validate := None |} with
  | inr text => text
  | inl _ => []
  end.

End Objects.

(** ** Dates and times *)

Section Dates.

Import DateTime.

(** The date half of [parseDateAndOrTime], on the text before the [T]. *)
Definition dateFields (datePart : jsstring)
  : option number * option number * option number :=
  match datePart with
  | [] => (None, None, None)
  | _ =>
    if startsWith datePart (str "--") then
      let d := replaceChar dash [] (sliceFrom datePart 2) in
      (None,
       if 2 <=? len d then Some (parseInt10 (slice d 0 2)) else None,
       if 4 <=? len d then Some (parseInt10 (slice d 2 4)) else None)
    else if startsWith datePart (str "---") then
      (None, None, Some (parseInt10 (sliceFrom datePart 3)))
    else
      let clean := replaceChar dash [] datePart in
      (if 4 <=? len clean then Some (parseInt10 (slice clean 0 4))
       else None,
       if 6 <=? len clean then Some (parseInt10 (slice clean 4 6))
       else None,
       if 8 <=? len clean then Some (parseInt10 (slice clean 6 8))
       else None)
  end.

(** The time half, on the text after the [T]. *)
Definition timeFields (toUpperCase : jsstring -> jsstring)
           (timePart : jsstring)
  : option number * option number * option number * option jsstring :=
  match timePart with
  | [] => (None, None, None, None)
  | _ =>
    let '(utcOffset, tp) :=
      match offsetMatch timePart with
      | Some m =>
          (Some (toUpperCase m), slice timePart 0 (len timePart - len m))
      | None => (None, timePart)
      end in
    let clean := replaceChar colon [] tp in
    (if 2 <=? len clean then Some (parseInt10 (slice clean 0 2))
     else None,
     if 4 <=? len clean then Some (parseInt10 (slice clean 2 4))
     else None,
     if 6 <=? len clean then Some (parseInt10 (slice clean 4 6))
     else None,
     utcOffset)
  end.

(** The fields that are set: a date is year-month-day, year-month, year,
    month-day or month; a time is hour-minute-second, hour-minute or
    hour. *)
Definition dateShape (y m d : option number) : bool :=
  match y, m, d with
  | Some _, Some _, Some _ | Some _, Some _, None | Some _, None, None
  | None, Some _, Some _ | None, Some _, None | None, None, None => true
  | _, _, _ => false
  end.

Definition timeShape (h mi s : option number) : bool :=
  match h, mi, s with
  | Some _, Some _, Some _ | Some _, Some _, None | Some _, None, None =>
      true
  | _, _, _ => false
  end.

(** A field, when set, is an integer of at most the given value. *)
Definition upTo (hi : Z) (o : option number) : bool :=
  match o with
  | Some (Num n) => (0 <=? n) && (n <=? hi)
  | Some NaN => false
  | None => true
  end.

(** An offset as the parser returns it: [Z], [+hhmm] or [+hh:mm]. *)
Definition offsetText (o : jsstring) : bool :=
  match o with
  | [z] => z =? 90
  | [sg; a; b; c; d] =>
      isSign sg && isDigit a && isDigit b && isDigit c && isDigit d
  | [sg; a; b; col; c; d] =>
      isSign sg && isDigit a && isDigit b && (col =? colon) && isDigit c
      && isDigit d
  | _ => false
  end.

(** A value that [formatDateAndOrTime] writes in full: the fields set make
    a date, a time or both, each is within its width, and the time fields
    and the offset are set only with [hasTime]. *)
Definition canonical (dt : DateAndOrTime) : bool :=
  dateShape (year dt) (month dt) (day dt)
  && upTo 9999 (year dt) && upTo 99 (month dt) && upTo 99 (day dt)
  && upTo 99 (hour dt) && upTo 99 (minute dt) && upTo 99 (second dt)
  && if hasTime dt then
       timeShape (hour dt) (minute dt) (second dt)
       && match utcOffset dt with
          | Some o => offsetText o
          | None => true
          end
     else
       (defined (year dt) || defined (month dt))
       && negb (defined (hour dt)) && negb (defined (minute dt))
       && negb (defined (second dt)) && negb (defined (utcOffset dt)).

(** The two halves of what [formatDateAndOrTime] writes. *)
Definition dateText (dt : DateAndOrTime) : jsstring :=
  if defined (year dt) || defined (month dt) || defined (day dt) then
    if negb (defined (year dt)) && defined (month dt) then
      str "--" ++ padded 2 (month dt) ++ padded 2 (day dt)
    else if negb (defined (year dt)) && defined (day dt) then
      str "---" ++ padded 2 (day dt)
    else
      padded 4 (year dt) ++ padded 2 (month dt) ++ padded 2 (day dt)
  else [].

Definition timeText (dt : DateAndOrTime) : jsstring :=
  if hasTime dt
     && (defined (hour dt) || defined (minute dt) || defined (second dt))
  then
    [84] ++ padded 2 (hour dt) ++ padded 2 (minute dt)
    ++ padded 2 (second dt)
    ++ match utcOffset dt with
       | Some (c :: o) => c :: o
       | _ => []
       end
  else [].

(** A number of at most [hi], padded to [width] digits, is that many
    digits and reads back as the number. *)
Definition readsBack (width : nat) (n : Z) : bool :=
  let text := padded width (Some (Num n)) in
  (List.length text =? width)%nat && forallb isDigit text
  && match text with
     | c :: _ =>
         match parseInt10 text with
         | Num m => m =? n
         | NaN => false
         end
     | [] => false
     end.

(** Digits, signs, the colon and [Z]: what a formatted value is made of
    besides the dashes and the [T]. *)
Definition stampChar (c : Z) : bool :=
  isDigit c || isSign c || (c =? colon) || (c =? 90).

End Dates.

End Spec.
Import Spec.

(** * Properties *)

(** ** Scanning lemmas shared by the regular-expression replacements *)

Lemma replaceChar_app c r a b :
  replaceChar c r (a ++ b) = replaceChar c r a ++ replaceChar c r b.
Proof. unfold replaceChar. apply flat_map_app. Qed.

Lemma replaceChar_cons c r x s :
  replaceChar c r (x :: s) = (if x =? c then r else [x]) ++ replaceChar c r s.
Proof. reflexivity. Qed.

Lemma replace2_skip p f c t :
  (forall d, p c d = false) ->
  replace2 p f (c :: t) = c :: replace2 p f t.
Proof.
  intros Hp. destruct t as [|d t']; simpl; [reflexivity|].
  now rewrite Hp.
Qed.

Lemma replace2_hit p f c d t :
  p c d = true ->
  replace2 p f (c :: d :: t) = f c d ++ replace2 p f t.
Proof. intros Hp. simpl. now rewrite Hp. Qed.

Lemma replace2_miss p f c d t :
  p c d = false ->
  replace2 p f (c :: d :: t) = c :: replace2 p f (d :: t).
Proof. intros Hp. cbn [replace2]. now rewrite Hp. Qed.

Module EscapeFacts.
Import Escape.

Lemma escapeText_app a b :
  escapeText (a ++ b) = escapeText a ++ escapeText b.
Proof. unfold escapeText. now rewrite !replaceChar_app. Qed.

Lemma escapeText_unit c : escapeText [c] = escapeUnit c.
Proof.
  unfold escapeText, escapeUnit, bs, lf, comma, semi.
  destruct (Z.eqb_spec c 92) as [->|H1]; [reflexivity|].
  destruct (Z.eqb_spec c 10) as [->|H2]; [reflexivity|].
  destruct (Z.eqb_spec c 44) as [->|H3]; [reflexivity|].
  destruct (Z.eqb_spec c 59) as [->|H4]; [reflexivity|].
  cbn.
  repeat match goal with
         | |- context [c =? ?k] =>
             destruct (Z.eqb_spec c k); [congruence|]; cbn
         end.
  reflexivity.
Qed.

Lemma escapeText_cons c s : escapeText (c :: s) = escapeUnit c ++ escapeText s.
Proof.
  change (c :: s) with ([c] ++ s).
  now rewrite escapeText_app, escapeText_unit.
Qed.

Lemma unescapeText_escapeUnit c rest :
  unescapeText (escapeUnit c ++ rest) = c :: unescapeText rest.
Proof.
  unfold escapeUnit, unescapeText, bs, lf, comma, semi.
  destruct (Z.eqb_spec c 92) as [->|H1]; [reflexivity|].
  destruct (Z.eqb_spec c 10) as [->|H2]; [reflexivity|].
  destruct (Z.eqb_spec c 44) as [->|H3]; [reflexivity|].
  destruct (Z.eqb_spec c 59) as [->|H4]; [reflexivity|].
  cbn [app]. apply replace2_skip. intros d.
  destruct (Z.eqb_spec c 92); [congruence|reflexivity].
Qed.

(** C2. Unescaping inverts escaping: for every string [x],
    [unescapeText (escapeText x) = x]. *)
Theorem unescapeText_escapeText (x : jsstring) :
  unescapeText (escapeText x) = x.
Proof.
  induction x as [|c x IH]; [reflexivity|].
  rewrite escapeText_cons, unescapeText_escapeUnit. now rewrite IH.
Qed.

(** What [unescapeText] does at a backslash: the regular expression
    matches it only before backslash, [n], [N], comma or semicolon, and the
    pair is replaced by the character meant; before any other code unit
    there is no match, and the backslash stays in the output together with
    the unit after it. *)
Lemma unescapeText_backslash (c : Z) (rest : jsstring) :
  (isEscapeCode c = true ->
     unescapeText (bs :: c :: rest) = unescapeCallback c ++ unescapeText rest
     /\ unescapeCallback c
        = [if (c =? 110) || (c =? 78) then lf else c]) /\
  (isEscapeCode c = false ->
     unescapeText (bs :: c :: rest) = bs :: unescapeText (c :: rest)).
Proof.
  split; intros Hc.
  - split.
    + unfold unescapeText. now rewrite replace2_hit by (now rewrite Hc).
    + unfold isEscapeCode in Hc. unfold unescapeCallback.
      destruct ((c =? 110) || (c =? 78)) eqn:Hn; [reflexivity|].
      apply orb_false_iff in Hn as [Hn1 Hn2].
      rewrite Hn1, Hn2 in Hc. rewrite !orb_false_r in Hc. cbn in Hc.
      destruct (Z.eqb_spec c bs) as [->|]; [reflexivity|].
      destruct (Z.eqb_spec c comma) as [->|]; [reflexivity|].
      destruct (Z.eqb_spec c semi) as [->|]; [reflexivity|].
      reflexivity.
  - unfold unescapeText. now rewrite replace2_miss by (now rewrite Hc).
Qed.

Example unescapeText_backslash_example :
  unescapeText (bs :: semi :: str "b") = [semi] ++ unescapeText (str "b") /\
  unescapeText (bs :: 120 :: str "c") = bs :: unescapeText (120 :: str "c").
Proof.
  split.
  - exact (proj1 (proj1 (unescapeText_backslash semi (str "b")) eq_refl)).
  - exact (proj2 (unescapeText_backslash 120 (str "c")) eq_refl).
Qed.

(** C3, as the code is written. The four sequences are recognised, but a
    backslash before any other character is not dropped: the regular
    expression does not match there and the last [return c] of the
    callback is never reached. *)
Theorem unescapeText_keeps_unknown_escape :
  unescapeText (str "\x") = str "\x" /\ unescapeText (str "\x") <> str "x".
Proof. split; [reflexivity|discriminate]. Qed.

(** The examples of the README. *)
Example unescapeText_readme :
  unescapeText (str "Smith\, John\; Jr.") = str "Smith, John; Jr." /\
  unescapeText (str "Line one\nLine two")
  = str "Line one" ++ [lf] ++ str "Line two" /\
  escapeText (str "A;B") = str "A\;B".
Proof. repeat split. Qed.

(** *** Parameter quoting *)

(** An escaped text never begins with a bare quote. *)
Lemma escQuote_head s : hd 0 (escQuote s) <> dq.
Proof.
  destruct s as [|c s]; [discriminate|].
  unfold escQuote. rewrite replaceChar_cons.
  destruct (Z.eqb_spec c dq); cbn; [discriminate|assumption].
Qed.

Lemma unescQuote_escQuote s : unescQuote (escQuote s) = s.
Proof.
  induction s as [|c s IH]; [reflexivity|].
  unfold escQuote in *. rewrite replaceChar_cons.
  destruct (Z.eqb_spec c dq) as [->|Hc].
  - cbn [app]. unfold unescQuote in *.
    rewrite replace2_hit by reflexivity. cbn [app]. now rewrite IH.
  - cbn [app]. unfold unescQuote in *.
    pose proof (escQuote_head s) as Hh. unfold escQuote in Hh.
    destruct (replaceChar dq [bs; dq] s) as [|d t] eqn:E.
    + cbn in IH. subst s. reflexivity.
    + rewrite replace2_miss; [now rewrite IH|].
      cbn in Hh. apply andb_false_iff. right. now apply Z.eqb_neq.
Qed.

Lemma unescBackslash_escBackslash s : unescBackslash (escBackslash s) = s.
Proof.
  induction s as [|c s IH]; [reflexivity|].
  unfold escBackslash in *. rewrite replaceChar_cons.
  unfold unescBackslash in *.
  destruct (Z.eqb_spec c bs) as [->|Hc]; cbn [app].
  - rewrite replace2_hit by reflexivity. cbn [app]. now rewrite IH.
  - rewrite replace2_skip; [now rewrite IH|].
    intros d. apply andb_false_iff. left. now apply Z.eqb_neq.
Qed.

Lemma startsWith_cons c s : startsWith (c :: s) [c] = true.
Proof. cbn [startsWith]. rewrite Z.eqb_refl. now destruct s. Qed.

Lemma endsWith_snoc c s : endsWith (s ++ [c]) [c] = true.
Proof. unfold endsWith. rewrite rev_app_distr. apply startsWith_cons. Qed.

Lemma slice_inner c d (w : jsstring) : slice (c :: w ++ [d]) 1 (-1) = w.
Proof.
  unfold slice, sliceIndex, len. cbn [List.length].
  rewrite length_app. cbn [List.length].
  replace (1 <? 0) with false by reflexivity.
  replace (-1 <? 0) with true by reflexivity.
  rewrite Z.min_l by lia. rewrite Z.max_l by lia.
  change (Z.to_nat 1) with 1%nat. cbn [skipn].
  replace (Z.to_nat _) with (List.length w) by lia.
  rewrite firstn_app, Nat.sub_diag, firstn_all. cbn. apply app_nil_r.
Qed.

Lemma needsParamQuoting_false_head v :
  needsParamQuoting v = false -> startsWith v [dq] = false.
Proof.
  destruct v as [|c v]; [reflexivity|].
  cbn [needsParamQuoting existsb startsWith].
  intros H. apply orb_false_iff in H as [H _].
  apply orb_false_iff in H as [_ H].
  rewrite Z.eqb_sym in H. now rewrite H.
Qed.

(** C10. Unquoting inverts quoting: for every parameter value [v],
    [unquoteParamValue (quoteParamValue v) = v]. *)
Theorem unquoteParamValue_quoteParamValue (v : jsstring) :
  unquoteParamValue (quoteParamValue v) = v.
Proof.
  unfold quoteParamValue.
  destruct (needsParamQuoting v) eqn:Hq; cbn [negb].
  - unfold unquoteParamValue. cbn [app].
    fold (escBackslash v). fold (escQuote (escBackslash v)).
    set (w := escQuote (escBackslash v)).
    rewrite startsWith_cons.
    change (dq :: w ++ [dq]) with ((dq :: w) ++ [dq]) at 1.
    rewrite endsWith_snoc. cbn [andb].
    replace (2 <=? len (dq :: w ++ [dq])) with true.
    2:{ symmetry. apply Z.leb_le. unfold len. cbn [List.length].
        rewrite length_app. cbn [List.length]. lia. }
    rewrite slice_inner. subst w.
    fold (unescQuote (escQuote (escBackslash v))).
    rewrite unescQuote_escQuote.
    apply unescBackslash_escBackslash.
  - unfold unquoteParamValue.
    now rewrite (needsParamQuoting_false_head v Hq).
Qed.

End EscapeFacts.

(** ** Folding and unfolding *)

Module FoldFacts.
Import Generator Parser.

Lemma singleLine_app a b :
  singleLine (a ++ b) = singleLine a && singleLine b.
Proof. apply forallb_app. Qed.

Lemma singleLine_cons c s :
  singleLine (c :: s) = true -> c <> cr /\ c <> lf /\ singleLine s = true.
Proof.
  cbn. intros H. apply andb_true_iff in H as [H1 H2].
  apply andb_true_iff in H1 as [Hc Hl].
  apply negb_true_iff, Z.eqb_neq in Hc. apply negb_true_iff, Z.eqb_neq in Hl.
  auto.
Qed.

Lemma takeSegment_app rest :
  forall maxBytes octetCount,
    fst (takeSegment maxBytes octetCount rest)
    ++ snd (takeSegment maxBytes octetCount rest) = rest.
Proof.
  assert (H : forall n rest, (List.length rest <= n)%nat ->
              forall m o, fst (takeSegment m o rest)
                          ++ snd (takeSegment m o rest) = rest).
  { induction n as [|n IH]; intros [|c t] Hn m o; try reflexivity.
    - cbn in Hn. lia.
    - cbn [takeSegment].
      destruct (_ >? m); [reflexivity|].
      destruct t as [|d t']; [reflexivity|].
      destruct (codePointAt c (d :: t') >? 65535).
      + specialize (IH t'). cbn in Hn.
        destruct (takeSegment m _ t') as [seg remaining] eqn:E.
        cbn. f_equal. f_equal.
        specialize (IH ltac:(lia) m (o + 4)).
        match type of E with takeSegment _ ?o' _ = _ =>
          replace o' with (o + 4) in E
            by (destruct (codePointAt c (d :: t') >? 65535); reflexivity)
        end.
        now rewrite E in IH.
      + specialize (IH (d :: t')). cbn in Hn.
        destruct (takeSegment m _ (d :: t')) as [seg remaining] eqn:E.
        match type of E with takeSegment _ ?o' _ = _ =>
          specialize (IH ltac:(cbn; lia) m o')
        end.
        rewrite E in IH. cbn in *. now f_equal. }
  intros m o. now apply (H (List.length rest)).
Qed.

Lemma foldParts_concat fuel :
  forall maxBytes rest,
    (List.length rest <= fuel)%nat ->
    concat (foldParts fuel maxBytes rest) = rest.
Proof.
  induction fuel as [|fuel IH]; intros m [|c t] Hn; try reflexivity.
  - cbn in Hn. lia.
  - cbn [foldParts]. cbn in Hn.
    pose proof (takeSegment_app (c :: t) m 0) as Happ.
    destruct (takeSegment m 0 (c :: t)) as [[|x seg] remaining]; cbn in Happ.
    + cbn. now rewrite IH by lia.
    + cbn [concat]. rewrite IH; [exact Happ|].
      apply (f_equal (@List.length Z)) in Happ. cbn in Happ.
      rewrite length_app in Happ. lia.
Qed.

(** No segment is empty: a line whose length is an exact multiple of the
    budget gets no empty trailing fold. *)
Lemma foldParts_nonempty fuel :
  forall maxBytes rest, ~ In [] (foldParts fuel maxBytes rest).
Proof.
  induction fuel as [|fuel IH]; intros m [|c t]; cbn [foldParts];
    try (intros []).
  destruct (takeSegment m 0 (c :: t)) as [[|x seg] remaining];
    (intros [H|H]; [discriminate|now apply IH in H]).
Qed.

Lemma replace2_prefix p f pre rest :
  (forall c, In c pre -> forall d, p c d = false) ->
  replace2 p f (pre ++ rest) = pre ++ replace2 p f rest.
Proof.
  induction pre as [|c pre IH]; intros Hp; [reflexivity|].
  cbn [app]. rewrite replace2_skip by (apply Hp; now left).
  rewrite IH; [reflexivity|]. intros x Hx. apply Hp. now right.
Qed.

Lemma replaceChar_absent c r s :
  ~ In c s -> replaceChar c r s = s.
Proof.
  induction s as [|x s IH]; intros Hn; [reflexivity|].
  rewrite replaceChar_cons.
  destruct (Z.eqb_spec x c) as [->|_]; [exfalso; apply Hn; now left|].
  cbn. rewrite IH; [reflexivity|]. intros H. apply Hn. now right.
Qed.

Lemma singleLine_In s c :
  singleLine s = true -> In c s -> c <> cr /\ c <> lf.
Proof.
  induction s as [|x s IH]; intros Hs []; apply singleLine_cons in Hs;
    destruct Hs as (? & ? & ?); subst; auto.
Qed.

Lemma unfoldText_prefix pre rest :
  singleLine pre = true -> unfoldText (pre ++ rest) = pre ++ unfoldText rest.
Proof.
  intros Hs. unfold unfoldText.
  rewrite replace2_prefix.
  2:{ intros c Hc d. destruct (singleLine_In _ _ Hs Hc) as [Hcr _].
      apply andb_false_iff. left. now apply Z.eqb_neq. }
  rewrite replaceChar_app.
  rewrite (replaceChar_absent cr [lf] pre).
  2:{ intros Hc. now destruct (singleLine_In _ _ Hs Hc). }
  apply replace2_prefix.
  intros c Hc d. destruct (singleLine_In _ _ Hs Hc) as [_ Hlf].
  apply andb_false_iff. left. now apply Z.eqb_neq.
Qed.

Lemma unfoldText_fold rest :
  unfoldText ([cr; lf; sp] ++ rest) = unfoldText rest.
Proof.
  unfold unfoldText. cbn [app].
  rewrite replace2_hit by reflexivity. cbn [app].
  rewrite replace2_skip by reflexivity.
  rewrite !replaceChar_cons. cbn [app Z.eqb cr lf sp Pos.eqb].
  now rewrite replace2_hit by reflexivity.
Qed.

Lemma unfoldText_folded parts :
  Forall (fun p => singleLine p = true) parts ->
  unfoldText (folded parts) = concat parts ++ [lf].
Proof.
  unfold folded.
  induction 1 as [|p parts Hp Hparts IH]; [reflexivity|].
  destruct parts as [|q parts].
  - cbn [join concat]. rewrite app_nil_r.
    now rewrite unfoldText_prefix.
  - change (join [cr; lf; sp] (p :: q :: parts))
      with (p ++ [cr; lf; sp] ++ join [cr; lf; sp] (q :: parts)).
    rewrite <- !app_assoc. rewrite unfoldText_prefix by assumption.
    rewrite unfoldText_fold, IH. cbn [concat]. now rewrite app_assoc.
Qed.

Lemma split_line s :
  singleLine s = true -> split lf (s ++ [lf]) = [s; []].
Proof.
  induction s as [|c s IH]; intros Hs; [reflexivity|].
  apply singleLine_cons in Hs as (_ & Hlf & Hs).
  cbn [app split]. rewrite IH by assumption.
  apply Z.eqb_neq in Hlf. now rewrite Hlf.
Qed.

Lemma singleLine_concat parts s :
  concat parts = s -> singleLine s = true ->
  Forall (fun p => singleLine p = true) parts.
Proof.
  revert s. induction parts as [|p parts IH]; intros s Hc Hs; constructor;
    cbn in Hc; subst s; rewrite singleLine_app in Hs;
    apply andb_true_iff in Hs as [Hp Hr]; eauto.
Qed.

Lemma unfoldLines_folded parts s :
  concat parts = s -> singleLine s = true -> s <> [] ->
  unfoldLines (folded parts) = [s].
Proof.
  intros Hc Hs Hne. unfold unfoldLines. fold (unfoldText (folded parts)).
  rewrite unfoldText_folded by (eapply singleLine_concat; eauto).
  rewrite Hc, split_line by assumption.
  destruct s as [|c s]; [congruence|]. reflexivity.
Qed.

(** C1 (as amended). For every non-empty text [L] without a line break,
    unfolding the folded line gives back exactly the one line [L],
    whatever its UTF-8 length (74, 75, 76, 150, ...). *)
Theorem unfoldLines_foldLine (L : jsstring) :
  L <> [] -> singleLine L = true -> unfoldLines (foldLine L) = [L].
Proof.
  intros Hne Hs. unfold foldLine.
  destruct (byteLength L <=? MAX_LINE_OCTETS).
  - apply (unfoldLines_folded [L]); auto. cbn. apply app_nil_r.
  - apply unfoldLines_folded; auto. now apply foldParts_concat.
Qed.

Lemma unfoldLines_foldLine_witness :
  let L := str "NOTE:" ++ repeat 65 80 in
  unfoldLines (foldLine L) = [L].
Proof.
  apply (unfoldLines_foldLine (str "NOTE:" ++ repeat 65 80)).
  - discriminate.
  - reflexivity.
Defined.

(** C1, the claim as worded, fails for the empty line: its fold is a bare
    line terminator, and [unfoldLines] drops blank lines. *)
Lemma unfoldLines_foldLine_empty :
  singleLine [] = true /\ unfoldLines (foldLine []) = [] /\
  unfoldLines (foldLine []) <> [[]].
Proof. repeat split. discriminate. Qed.

(** Lines of 74, 75, 76 and 150 octets: the first two are not folded, the
    others are cut after 75 and then after 74 octets. *)
Example foldLine_74_75 :
  foldLine (repeat 65 74) = repeat 65 74 ++ [cr; lf] /\
  foldLine (repeat 65 75) = repeat 65 75 ++ [cr; lf].
Proof. split; reflexivity. Qed.

Example foldLine_76_150 :
  foldLine (repeat 65 76) = repeat 65 75 ++ [cr; lf; sp; 65; cr; lf] /\
  foldLine (repeat 65 150)
  = repeat 65 75 ++ [cr; lf; sp] ++ repeat 65 74
    ++ [cr; lf; sp; 65; cr; lf].
Proof. split; vm_compute; reflexivity. Qed.

(** Octets are counted, not characters: [FN:] and eighteen emoji of four
    octets each make 75 octets, and the line is not folded. *)
Example foldLine_emoji :
  let line := str "FN:" ++ concat (repeat [0xD83D; 0xDE00] 18) in
  byteLength line = 75 /\ foldLine line = line ++ [cr; lf].
Proof. split; reflexivity. Qed.

End FoldFacts.

(** ** Date-and-or-time values *)

Module DateFacts.
Import DateTime.

Lemma isAscii_filter f s : isAscii s = true -> isAscii (filter f s) = true.
Proof.
  unfold isAscii. rewrite !forallb_forall. intros H x Hx.
  apply filter_In in Hx as [Hx _]. now apply H.
Qed.

Lemma isDigit_ascii c : isDigit c = true -> (0 <=? c) && (c <? 128) = true.
Proof. unfold isDigit. lia. Qed.

Lemma isSign_ascii c : isSign c = true -> (0 <=? c) && (c <? 128) = true.
Proof. unfold isSign. lia. Qed.

Lemma isZulu_ascii c :
  (c =? 90) || (c =? 122) = true -> (0 <=? c) && (c <? 128) = true.
Proof. lia. Qed.

(** Whatever the regular expression captures is ASCII. *)
Lemma offsetMatch_ascii tp m : offsetMatch tp = Some m -> isAscii m = true.
Proof.
  unfold offsetMatch.
  repeat match goal with
         | |- context [match ?l with [] => _ | _ :: _ => _ end] =>
             destruct l
         | |- context [if ?b then _ else _] => destruct b eqn:?
         end;
    intros [=]; subst; cbn [isAscii forallb];
    repeat match goal with
           | H : _ && _ = true |- _ => apply andb_true_iff in H as [? ?]
           end;
    repeat match goal with
           | H : isDigit _ = true |- _ => apply isDigit_ascii in H; rewrite H
           | H : isSign _ = true |- _ => apply isSign_ascii in H; rewrite H
           | H : (_ =? 90) || _ = true |- _ =>
               apply isZulu_ascii in H; rewrite H
           | H : (?d =? colon) = true |- _ =>
               apply Z.eqb_eq in H; subst d
           end; reflexivity.
Qed.

Section AsciiInputs.

Variable toUpperCase : jsstring -> jsstring.

(** On ASCII text the platform's mapping is the ASCII one. *)
Hypothesis toUpperCase_ascii :
  forall s, isAscii s = true -> toUpperCase s = upperAscii s.

Lemma parseDateAndOrTime_ascii value :
  isAscii value = true ->
  parseDateAndOrTime toUpperCase value = parseDateAndOrTime upperAscii value.
Proof.
  intros Ha. unfold parseDateAndOrTime.
  destruct value as [|c value]; [reflexivity|].
  rewrite toUpperCase_ascii by now apply isAscii_filter.
  cbv zeta.
  match goal with
  | |- context [offsetMatch ?t] => destruct (offsetMatch t) as [m|] eqn:E
  end; [|reflexivity].
  now rewrite (toUpperCase_ascii m) by (eapply offsetMatch_ascii; eauto).
Qed.

(** C4. Parsing then formatting reproduces each of the canonical inputs
    ["19901231"], ["--0315"], ["1990"], ["20240101T120000Z"] and
    ["20240601T083000+0500"]. *)
Theorem formatDateAndOrTime_parseDateAndOrTime (x : jsstring) :
  In x [str "19901231"; str "--0315"; str "1990"; str "20240101T120000Z";
        str "20240601T083000+0500"] ->
  option_map formatDateAndOrTime (parseDateAndOrTime toUpperCase x) = Some x.
Proof.
  intros Hx.
  rewrite parseDateAndOrTime_ascii.
  - repeat (destruct Hx as [<-|Hx]; [vm_compute; reflexivity|]).
    destruct Hx.
  - repeat (destruct Hx as [<-|Hx]; [reflexivity|]). destruct Hx.
Qed.

(** C5, as the code is written. A date part that starts with three hyphens
    also starts with two, and the [--] test comes first: the digits after
    [---] are read as a month and the day stays unset. *)
Theorem parseDateAndOrTime_triple_dash :
  parseDateAndOrTime toUpperCase (str "---15")
  = Some {| year := None; month := Some (Num 15); day := None;
            hour := None; minute := None; second := None;
            utcOffset := None; hasTime := false |}.
Proof. now rewrite parseDateAndOrTime_ascii. Qed.

End AsciiInputs.

Lemma formatDateAndOrTime_parseDateAndOrTime_witness :
  option_map formatDateAndOrTime
    (parseDateAndOrTime upperAscii (str "20240601T083000+0500"))
  = Some (str "20240601T083000+0500").
Proof.
  apply (formatDateAndOrTime_parseDateAndOrTime upperAscii).
  - intros s _. reflexivity.
  - cbn [In]. tauto.
Defined.

Lemma parseDateAndOrTime_triple_dash_witness :
  option_map month (parseDateAndOrTime upperAscii (str "---15"))
  = Some (Some (Num 15)).
Proof.
  rewrite (parseDateAndOrTime_triple_dash upperAscii).
  - reflexivity.
  - intros s _. reflexivity.
Defined.

(** The [---] branch of the parser is never taken. *)
Lemma triple_dash_is_double_dash datePart :
  startsWith datePart (str "---") = true ->
  startsWith datePart (str "--") = true.
Proof.
  destruct datePart as [|a [|b [|c d]]]; cbn; try discriminate;
    intros H; apply andb_true_iff in H as [Ha H];
    try discriminate; apply andb_true_iff in H as [Hb H];
    try discriminate.
  now rewrite Ha, Hb.
Qed.

End DateFacts.

(** ** Parameters *)

Module ParamFacts.
Import Parser.

Lemma eqs_eq a b : eqs a b = true <-> a = b.
Proof.
  revert b. induction a as [|x a IH]; intros [|y b]; cbn;
    try (split; [discriminate|congruence]); [tauto|].
  rewrite andb_true_iff, Z.eqb_eq, IH. split; [intros [-> ->]|intros [= -> ->]];
    auto.
Qed.

Lemma eqs_refl a : eqs a a = true.
Proof. now apply eqs_eq. Qed.

Lemma eqs_neq a b : a <> b -> eqs a b = false.
Proof.
  intros Hn. destruct (eqs a b) eqn:E; [|reflexivity].
  now apply eqs_eq in E.
Qed.

Lemma mapGet_mapSet_same m k v : mapGet (mapSet m k v) k = Some v.
Proof.
  induction m as [|[k' v'] m IH]; cbn.
  - now rewrite eqs_refl.
  - destruct (eqs k' k) eqn:E; cbn; [now rewrite eqs_refl|now rewrite E].
Qed.

Lemma mapGet_mapSet_other m k k' v :
  k <> k' -> mapGet (mapSet m k v) k' = mapGet m k'.
Proof.
  intros Hn. induction m as [|[k0 v0] m IH]; cbn.
  - now rewrite eqs_neq.
  - destruct (eqs k0 k) eqn:E; cbn.
    + apply eqs_eq in E. subst k0. now rewrite !eqs_neq.
    + now rewrite IH.
Qed.


(** *** ASCII text stays ASCII *)


Lemma incl_skipn {A} n (l : list A) : incl (skipn n l) l.
Proof.
  intros x Hx. rewrite <- (firstn_skipn n l). apply in_or_app. now right.
Qed.






Lemma incl_sliceFrom s a : incl (sliceFrom s a) s.
Proof. apply incl_skipn. Qed.




Section AsciiInputs.

Variable toUpperCase toLowerCase : jsstring -> jsstring.

Hypothesis toUpperCase_ascii :
  forall s, isAscii s = true -> toUpperCase s = upperAscii s.
Hypothesis toLowerCase_ascii :
  forall s, isAscii s = true -> toLowerCase s = lowerAscii s.




End AsciiInputs.



End ParamFacts.

(** ** The block assembler *)

Module AssemblerFacts.
Import Parser.

Lemma extends_refl ws : extends ws ws.
Proof. exists []. now rewrite app_nil_r. Qed.

Lemma extends_trans a b c : extends a b -> extends b c -> extends a c.
Proof.
  intros [x ->] [y ->]. exists (x ++ y). now rewrite app_assoc.
Qed.

Lemma extends_push ws w : extends ws (ws ++ w).
Proof. now exists w. Qed.

Lemma extends_In ws ws' w : extends ws ws' -> In w ws -> In w ws'.
Proof. intros [x ->] Hw. apply in_or_app. now left. Qed.

Create HintDb warn.
#[local] Hint Resolve extends_refl extends_push : warn.

Section Markers.

Variable toUpperCase toLowerCase : jsstring -> jsstring.
Variable Property : Type.
Variable construct :
  jsstring -> jsstring -> ParameterMap -> option jsstring -> Property.

#[local] Abbreviation isBegin := (isBeginMarker toUpperCase).
#[local] Abbreviation isEnd := (isEndMarker toUpperCase).
#[local] Abbreviation runFrom := (assemble toUpperCase toLowerCase construct).
#[local] Abbreviation blockOf :=
  (parseVCardBlock toUpperCase toLowerCase construct).
#[local] Abbreviation parse :=
  (parseVCardText toUpperCase toLowerCase construct).
#[local] Abbreviation insideBlock := (Spec.insideBlock toUpperCase).
#[local] Abbreviation closedBlocks := (Spec.closedBlocks toUpperCase).

Lemma marker_exclusive line : isEnd line = true -> isBegin line = false.
Proof.
  unfold isBeginMarker, isEndMarker. intros He.
  apply ParamFacts.eqs_eq in He. rewrite He. reflexivity.
Qed.

Lemma assemble_app a b :
  forall i st,
    runFrom (a ++ b) i st
    = runFrom b (i + Z.of_nat (List.length a)) (runFrom a i st).
Proof.
  induction a as [|l a IH]; intros i st; cbn [app assemble].
  - f_equal. cbn. lia.
  - rewrite IH. f_equal. cbn [List.length]. lia.
Qed.

Lemma inVCard_assembleLine i line st :
  inVCard (assembleLine toUpperCase toLowerCase construct i line st)
  = if isBegin line then true
    else if isEnd line then false else inVCard st.
Proof.
  unfold assembleLine.
  destruct (isBegin line); [reflexivity|].
  destruct (isEnd line); destruct (inVCard st) eqn:E; cbn; auto.
Qed.

Lemma inVCard_assemble lines :
  forall i st,
    inVCard (runFrom lines i st)
    = fold_left (fun inside line =>
                   if isBegin line then true
                   else if isEnd line then false else inside)
                lines (inVCard st).
Proof.
  induction lines as [|l lines IH]; intros i st; [reflexivity|].
  cbn [assemble fold_left]. now rewrite IH, inVCard_assembleLine.
Qed.

Lemma inVCard_start lines i :
  inVCard (runFrom lines i start) = insideBlock lines.
Proof. apply inVCard_assemble. Qed.

Lemma collected_assembleLine i line st :
  extends
    (collected st)
    (collected (assembleLine toUpperCase toLowerCase construct i line st)).
Proof.
  unfold assembleLine.
  destruct (isBegin line); [cbn; auto with warn|].
  destruct (isEnd line).
  - destruct (inVCard st); cbn; auto with warn.
  - destruct (inVCard st); cbn; auto with warn.
Qed.

Lemma collected_assemble lines :
  forall i st, extends (collected st) (collected (runFrom lines i st)).
Proof.
  induction lines as [|l lines IH]; intros i st; cbn [assemble];
    [auto with warn|].
  eapply extends_trans; [apply collected_assembleLine|apply IH].
Qed.

(** Inside a block, lines that are no markers are accumulated. *)
Lemma assemble_body body :
  forall i st,
    inVCard st = true ->
    (forall l, In l body -> isBegin l = false /\ isEnd l = false) ->
    runFrom body i st
    = {| inVCard := true; currentLines := currentLines st ++ body;
         blocks := blocks st; collected := collected st |}.
Proof.
  induction body as [|l body IH]; intros i st Hin Hb; cbn [assemble].
  - rewrite app_nil_r. destruct st; cbn in *. now subst.
  - destruct (Hb l (or_introl eq_refl)) as [Hnb Hne].
    rewrite IH.
    + unfold assembleLine. rewrite Hnb, Hne, Hin. cbn.
      now rewrite <- app_assoc.
    + now rewrite inVCard_assembleLine, Hnb, Hne.
    + intros x Hx. apply Hb. now right.
Qed.

Lemma blocks_assemble lines :
  forall i st,
    List.length (blocks (runFrom lines i st))
    = (List.length (blocks st) + closedBlocks (inVCard st) lines)%nat.
Proof.
  induction lines as [|l lines IH]; intros i st; cbn [assemble closedBlocks];
    [lia|].
  rewrite IH, inVCard_assembleLine. unfold assembleLine.
  destruct (isBegin l); [reflexivity|].
  destruct (isEnd l); destruct (inVCard st) eqn:E; cbn; rewrite ?E; try lia.
  rewrite length_app. cbn. lia.
Qed.

(** Every block comes from an end marker met inside a block, or from the
    end of the input inside a block. *)
Lemma parseVCardText_block_count input :
  List.length (rawVCards (parse input))
  = (closedBlocks false (unfoldLines input)
     + if insideBlock (unfoldLines input) then 1 else 0)%nat.
Proof.
  unfold parseVCardText. fold (@start Property).
  rewrite inVCard_start.
  destruct (insideBlock (unfoldLines input)); cbn [rawVCards].
  - rewrite length_app, blocks_assemble. reflexivity.
  - rewrite blocks_assemble. cbn. lia.
Qed.

Lemma insideBlock_snoc lines line :
  insideBlock (lines ++ [line])
  = if isBegin line then true
    else if isEnd line then false else insideBlock lines.
Proof. unfold insideBlock. now rewrite fold_left_app. Qed.

(** The lines end inside a block exactly when some begin marker is followed
    by no marker at all. *)
Lemma insideBlock_true_iff lines :
  insideBlock lines = true <->
  exists pre b body,
    lines = pre ++ b :: body /\ isBegin b = true /\
    forall l, In l body -> isBegin l = false /\ isEnd l = false.
Proof.
  split.
  - induction lines as [|x lines IH] using rev_ind; [discriminate|].
    rewrite insideBlock_snoc.
    destruct (isBegin x) eqn:Hb.
    + intros _. exists lines, x, []. split; [reflexivity|].
      split; [assumption|]. intros ? [].
    + destruct (isEnd x) eqn:He; [discriminate|]. intros Hin.
      destruct (IH Hin) as (pre & b & body & -> & Hbb & Hbody).
      exists pre, b, (body ++ [x]). rewrite <- app_assoc.
      split; [reflexivity|]. split; [assumption|].
      intros y Hy. apply in_app_or in Hy as [Hy|[<-|[]]]; auto.
  - intros (pre & b & body & -> & Hb & Hbody).
    rewrite <- (inVCard_start _ 0).
    change (pre ++ b :: body) with (pre ++ [b] ++ body).
    rewrite app_assoc, assemble_app, assemble_body; [reflexivity| |exact Hbody].
    rewrite assemble_app. cbn [assemble].
    now rewrite inVCard_assembleLine, Hb.
Qed.

(** *** Warnings are only ever pushed *)

Lemma parseParameter_extends st part :
  extends (snd st) (snd (parseParameter toUpperCase toLowerCase st part)).
Proof.
  unfold parseParameter. destruct st as [map ws].
  destruct (trim part); [auto with warn|].
  destruct (_ =? -1); [|cbn; auto with warn].
  destruct (isBareToken _); cbn; auto with warn.
Qed.

Lemma parseParameters_extends paramStr ws :
  extends ws (snd (parseParameters toUpperCase toLowerCase paramStr ws)).
Proof.
  unfold parseParameters. destruct paramStr as [|c r]; [cbn; auto with warn|].
  change ws with (snd (@nil (jsstring * ParamValue), ws)) at 1.
  generalize (@nil (jsstring * ParamValue), ws).
  induction (splitParamString (c :: r)) as [|part parts IH]; intros st;
    cbn [fold_left]; [auto with warn|].
  eapply extends_trans; [apply parseParameter_extends|apply IH].
Qed.

Lemma parseContentLine_extends line ws :
  extends ws (snd (parseContentLine toUpperCase toLowerCase line ws)).
Proof.
  unfold parseContentLine.
  destruct (_ =? -1); [cbn; auto with warn|]. cbv zeta.
  match goal with
  | |- context [match ?name with [] => _ | _ :: _ => _ end] =>
      destruct name; [cbn; auto with warn|]
  end.
  match goal with
  | |- context [parseParameters _ _ ?p ws] =>
      pose proof (parseParameters_extends p ws) as Hp;
      destruct (parseParameters toUpperCase toLowerCase p ws)
  end.
  exact Hp.
Qed.

Lemma instantiateProperty_extends raw ws :
  extends ws (snd (instantiateProperty construct raw ws)).
Proof.
  unfold instantiateProperty. cbn [snd].
  destruct (existsb _ _); [auto with warn|].
  destruct (_ && _); auto with warn.
Qed.

Lemma parseBlockLine_extends st line :
  extends (snd st)
          (snd (parseBlockLine toUpperCase toLowerCase construct st line)).
Proof.
  unfold parseBlockLine. destruct st as [[version props] ws].
  destruct (startsWith _ _); [cbn; auto with warn|].
  pose proof (parseContentLine_extends line ws) as Hc.
  destruct (parseContentLine toUpperCase toLowerCase line ws) as [[raw|] ws'];
    cbn [snd] in *; [|exact Hc].
  destruct (eqs _ _); [exact Hc|].
  pose proof (instantiateProperty_extends raw ws') as Hi.
  destruct (instantiateProperty construct raw ws') as [prop ws''].
  cbn [snd] in *. eapply extends_trans; eauto.
Qed.

Lemma parseVCardBlock_extends lines ws :
  extends ws (rv_warnings (blockOf lines ws)).
Proof.
  unfold parseVCardBlock.
  change ws with (snd (str "4.0", @nil Property, ws)) at 1.
  generalize (str "4.0", @nil Property, ws).
  induction lines as [|l lines IH]; intros st; cbn [fold_left].
  - destruct st as [[v p] w]. cbn. auto with warn.
  - eapply extends_trans; [apply parseBlockLine_extends|apply IH].
Qed.

(** *** A block is read line by line *)

Lemma parseParameter_pushed map ws part :
  parseParameter toUpperCase toLowerCase (map, ws) part
  = (fst (parseParameter toUpperCase toLowerCase (map, []) part),
     ws ++ snd (parseParameter toUpperCase toLowerCase (map, []) part)).
Proof.
  unfold parseParameter.
  destruct (trim part); [cbn; now rewrite app_nil_r|].
  destruct (_ =? -1); [|cbn; now rewrite app_nil_r].
  destruct (isBareToken _); cbn; [now rewrite app_nil_r|reflexivity].
Qed.

Lemma parseParameter_fold_pushed parts :
  forall map ws pushed,
    fold_left (parseParameter toUpperCase toLowerCase) parts
              (map, ws ++ pushed)
    = (fst (fold_left (parseParameter toUpperCase toLowerCase) parts
                      (map, pushed)),
       ws ++ snd (fold_left (parseParameter toUpperCase toLowerCase) parts
                            (map, pushed))).
Proof.
  induction parts as [|part parts IH]; intros map ws pushed;
    cbn [fold_left]; [reflexivity|].
  rewrite (parseParameter_pushed map (ws ++ pushed)),
          (parseParameter_pushed map pushed).
  rewrite <- app_assoc. apply IH.
Qed.

Lemma parseParameters_pushed paramStr ws :
  parseParameters toUpperCase toLowerCase paramStr ws
  = (fst (parseParameters toUpperCase toLowerCase paramStr []),
     ws ++ snd (parseParameters toUpperCase toLowerCase paramStr [])).
Proof.
  unfold parseParameters. destruct paramStr as [|c r].
  - cbn. now rewrite app_nil_r.
  - rewrite <- (app_nil_r ws) at 1. apply parseParameter_fold_pushed.
Qed.

Lemma parseContentLine_pushed line ws :
  parseContentLine toUpperCase toLowerCase line ws
  = (fst (parseContentLine toUpperCase toLowerCase line []),
     ws ++ snd (parseContentLine toUpperCase toLowerCase line [])).
Proof.
  unfold parseContentLine.
  destruct (_ =? -1); [reflexivity|]. cbv zeta.
  match goal with
  | |- context [match ?name with [] => _ | _ :: _ => _ end] =>
      destruct name; [reflexivity|]
  end.
  match goal with
  | |- context [parseParameters _ _ ?p ws] =>
      rewrite (parseParameters_pushed p ws);
      destruct (parseParameters toUpperCase toLowerCase p [])
  end.
  reflexivity.
Qed.

Lemma instantiateProperty_pushed raw ws :
  instantiateProperty construct raw ws
  = (fst (instantiateProperty construct raw []),
     ws ++ snd (instantiateProperty construct raw [])).
Proof.
  unfold instantiateProperty. cbn [fst snd].
  destruct (existsb _ _); [now rewrite app_nil_r|].
  destruct (_ && _); [reflexivity|now rewrite app_nil_r].
Qed.

(** One round of the loop of [parseVCardBlock] adds what the line gives
    to what the lines before it gave. *)
Lemma parseBlockLine_line version properties ws line :
  parseBlockLine toUpperCase toLowerCase construct
                 (version, properties, ws) line
  = (match lineVersion toUpperCase toLowerCase line with
     | Some declared => declared
     | None => version
     end,
     properties ++ match lineProperty toUpperCase toLowerCase construct line
                   with
                   | Some prop => [prop]
                   | None => []
                   end,
     ws ++ lineWarnings toUpperCase toLowerCase construct line).
Proof.
  unfold parseBlockLine, lineVersion, lineProperty, lineWarnings.
  destruct (startsWith _ _); [now rewrite !app_nil_r|].
  rewrite (parseContentLine_pushed line ws).
  destruct (parseContentLine toUpperCase toLowerCase line [])
    as [[raw|] pushed]; cbn [fst snd]; [|now rewrite app_nil_r].
  destruct (eqs _ _); [now rewrite app_nil_r|].
  rewrite (instantiateProperty_pushed raw (ws ++ pushed)),
          (instantiateProperty_pushed raw pushed).
  cbn [fst snd]. now rewrite app_assoc.
Qed.

Lemma parseBlockLine_fold lines :
  forall version properties ws,
    fold_left (parseBlockLine toUpperCase toLowerCase construct) lines
              (version, properties, ws)
    = (fold_left (fun version line =>
                    match lineVersion toUpperCase toLowerCase line with
                    | Some declared => declared
                    | None => version
                    end)
                 lines version,
       properties ++ lineProperties toUpperCase toLowerCase construct lines,
       ws ++ flat_map (lineWarnings toUpperCase toLowerCase construct)
                      lines).
Proof.
  induction lines as [|line lines IH]; intros version properties ws;
    cbn [fold_left lineProperties flat_map].
  - now rewrite !app_nil_r.
  - rewrite parseBlockLine_line, IH. now rewrite <- !app_assoc.
Qed.

(** The block that [parseVCardBlock] returns, read off the lines. *)
Lemma parseVCardBlock_lines lines ws :
  blockOf lines ws
  = {| rv_version := declaredVersion toUpperCase toLowerCase lines;
       rv_properties :=
         lineProperties toUpperCase toLowerCase construct lines;
       rv_warnings :=
         ws ++ flat_map (lineWarnings toUpperCase toLowerCase construct)
                        lines |}.
Proof.
  unfold parseVCardBlock. rewrite parseBlockLine_fold. reflexivity.
Qed.

(** C7. For every input text: an end marker met outside a block (the
    lines before it do not end inside a block) emits no block and records
    the warning [Unexpected END:VCARD without BEGIN:VCARD] with its line
    number, which is among the warnings returned; and when the lines end
    inside a block, after a begin marker that no marker follows, exactly
    one block is emitted for it, built from the lines accumulated after
    that marker: its properties are the properties that these lines give,
    line by line and in their order, its version is the last one they
    declare (4.0 when none does), and its warnings are the warning
    [Unclosed vCard] followed by the warnings of these lines; that warning
    is among the warnings returned.  (By [insideBlock_true_iff] the lines
    end inside a block exactly when there is such a begin marker; a begin
    marker met inside a block restarts the accumulation.) *)
Theorem parseVCardText_tolerance (input : jsstring) :
  (forall pre e post,
     unfoldLines input = pre ++ e :: post ->
     isEnd e = true ->
     insideBlock pre = false ->
     let before := runFrom pre 0 start in
     let after := runFrom (pre ++ [e]) 0 start in
     let lineNumber := Z.of_nat (List.length pre) + 1 in
     blocks after = blocks before /\
     inVCard after = false /\
     collected after = collected before ++ [unexpectedEnd lineNumber] /\
     In (unexpectedEnd lineNumber) (warnings (parse input))) /\
  (forall pre b body,
     unfoldLines input = pre ++ b :: body ->
     isBegin b = true ->
     (forall l, In l body -> isBegin l = false /\ isEnd l = false) ->
     let before := runFrom pre 0 start in
     let card := blockOf body [unclosedWarning] in
     rawVCards (parse input) = blocks before ++ [card] /\
     warnings (parse input) = collected before ++ rv_warnings card /\
     extends [unclosedWarning] (rv_warnings card) /\
     In unclosedWarning (warnings (parse input)) /\
     rv_version card = declaredVersion toUpperCase toLowerCase body /\
     rv_properties card
     = lineProperties toUpperCase toLowerCase construct body /\
     rv_warnings card
     = unclosedWarning
       :: flat_map (lineWarnings toUpperCase toLowerCase construct) body).
Proof.
  split.
  - intros pre e post Hlines He Hout before after lineNumber.
    assert (Hafter : after
              = {| inVCard := false; currentLines := currentLines before;
                   blocks := blocks before;
                   collected := collected before
                                ++ [unexpectedEnd lineNumber] |}).
    { subst after. rewrite assemble_app. cbn [assemble].
      fold before. unfold assembleLine.
      rewrite (marker_exclusive e He), He.
      assert (Hb : inVCard before = false)
        by (subst before; now rewrite inVCard_start).
      rewrite Hb. cbn [negb]. reflexivity. }
    rewrite Hafter. cbn [blocks inVCard collected].
    repeat split.
    assert (Hw : In (unexpectedEnd lineNumber)
                    (collected (runFrom (unfoldLines input) 0 start))).
    { rewrite Hlines. change (pre ++ e :: post) with (pre ++ [e] ++ post).
      rewrite app_assoc, assemble_app. fold after.
      eapply extends_In; [apply collected_assemble|].
      rewrite Hafter. cbn [collected]. apply in_or_app. right. now left. }
    unfold parseVCardText. fold (@start Property).
    destruct (inVCard _); cbn [warnings]; [|exact Hw].
    apply in_or_app. now left.
  - intros pre b body Hlines Hb Hbody before card.
    assert (Hfinal : runFrom (unfoldLines input) 0 start
              = {| inVCard := true; currentLines := body;
                   blocks := blocks before; collected := collected before |}).
    { rewrite Hlines. change (pre ++ b :: body) with (pre ++ [b] ++ body).
      rewrite app_assoc, assemble_app, assemble_app. fold before.
      cbn [assemble]. unfold assembleLine at 1. rewrite Hb.
      now rewrite assemble_body. }
    assert (Hc : extends [unclosedWarning] (rv_warnings card))
      by apply parseVCardBlock_extends.
    unfold parseVCardText. fold (@start Property). rewrite Hfinal.
    cbn [inVCard currentLines blocks collected rawVCards warnings].
    fold card. split; [reflexivity|]. split; [reflexivity|].
    split; [exact Hc|]. split.
    { apply in_or_app. right. eapply extends_In; [exact Hc|now left]. }
    subst card. rewrite parseVCardBlock_lines. repeat split.
Qed.

End Markers.

Lemma parseVCardText_tolerance_witness :
  In (unexpectedEnd 1)
     (warnings (parseVCardText upperAscii lowerAscii UnknownProperty
                               strayEndThenOpen)) /\
  rawVCards (parseVCardText upperAscii lowerAscii UnknownProperty
                            strayEndThenOpen)
  = [{| rv_version := str "4.0";
        rv_properties := [UnknownProperty (str "X-A") (str "1") [] None];
        rv_warnings := [unclosedWarning] |}].
Proof.
  pose proof (parseVCardText_tolerance upperAscii lowerAscii PropertyObject
                UnknownProperty strayEndThenOpen) as [Hend Hopen].
  split.
  - destruct (Hend [] (str "END:VCARD") [str "BEGIN:VCARD"; str "X-A:1"])
      as (_ & _ & _ & Hw); [reflexivity|reflexivity|reflexivity|exact Hw].
  - destruct (Hopen [str "END:VCARD"] (str "BEGIN:VCARD") [str "X-A:1"])
      as (Hr & _ & _ & _ & Hv & Hp & Hw); [reflexivity|reflexivity| |].
    + intros l [<-|[]]. split; reflexivity.
    + rewrite Hr. cbn [app blocks assemble]. f_equal.
      destruct (parseVCardBlock upperAscii lowerAscii UnknownProperty
                                [str "X-A:1"] [unclosedWarning])
        as [version properties ws].
      cbn [rv_version rv_properties rv_warnings] in Hv, Hp, Hw.
      rewrite Hv, Hp, Hw. reflexivity.
Defined.

(** An unclosed block with a version line, a line without a colon and two
    properties: the block keeps the version and both properties, and the
    skipped line leaves a warning after the one for the missing end. *)
Example parseVCardText_unclosed_example :
  parseVCardText upperAscii lowerAscii UnknownProperty
    (str "BEGIN:VCARD" ++ [cr; lf] ++ str "VERSION:3.0" ++ [cr; lf]
     ++ str "FN:A" ++ [cr; lf] ++ str "stray" ++ [cr; lf]
     ++ str "X-B;TYPE=home:2" ++ [cr; lf])
  = {| rawVCards :=
         [{| rv_version := str "3.0";
             rv_properties :=
               [UnknownProperty (str "FN") (str "A") [] None;
                UnknownProperty (str "X-B") (str "2")
                  [(str "TYPE", Scalar (str "home"))] None];
             rv_warnings :=
               [unclosedWarning;
                {| w_line := None;
                   w_message :=
                     str "Skipping line with no colon: stray" |}] |}];
       warnings :=
         [unclosedWarning;
          {| w_line := None;
             w_message := str "Skipping line with no colon: stray" |}] |}.
Proof. reflexivity. Qed.

End AssemblerFacts.

(** ** Validation before writing *)

Module GeneratorFacts.
Import Generator.

Section Validation.

Context {P : Type} `{PropertyLike P}.

Lemma prefError_None prop :
  prefOutOfRange prop = false -> prefError prop = None.
Proof.
  unfold prefOutOfRange, prefError.
  destruct (pref prop) as [[|n]|]; try reflexivity. now intros ->.
Qed.

Lemma prefError_Some prop :
  prefOutOfRange prop = true ->
  exists e, prefError prop = Some (ThrownVCardError e)
            /\ property e = Some (prop_name prop).
Proof.
  unfold prefOutOfRange, prefError.
  destruct (pref prop) as [[|n]|]; try discriminate. intros ->.
  eexists. split; reflexivity.
Qed.

Lemma firstError_prefError pre prop post :
  forallb (fun q => negb (prefOutOfRange q)) pre = true ->
  prefOutOfRange prop = true ->
  firstError prefError (pre ++ prop :: post) = prefError prop.
Proof.
  intros Hpre Hp. induction pre as [|q pre IH]; cbn [app firstError].
  - destruct (prefError_Some prop Hp) as (e & -> & _). reflexivity.
  - cbn in Hpre. apply andb_true_iff in Hpre as [Hq Hpre].
    apply negb_true_iff in Hq. rewrite (prefError_None q Hq). now apply IH.
Qed.

(** The checks that are made.  With validation enabled (the default), a
    property list without FN makes [serializeVCard] throw a [VCardError]
    naming FN, and a list with FN in which some property has a PREF that
    the accessor reads as an integer below 1 or above 100 makes it throw a
    [VCardError] naming the first such property; nothing is returned.  With
    [validate] set to [false] no check is made and the text is returned. *)
Theorem serializeVCard_validates (properties : list P)
        (options : GenerateOptions) :
  (validate options <> Some false ->
   existsb isFN properties = false ->
   serializeVCard properties options
   = inl (ThrownVCardError
            {| message := str "Missing required property: FN";
               property := Some (str "FN") |})) /\
  (forall pre prop post,
     validate options <> Some false ->
     existsb isFN properties = true ->
     properties = pre ++ prop :: post ->
     forallb (fun q => negb (prefOutOfRange q)) pre = true ->
     prefOutOfRange prop = true ->
     exists e,
       serializeVCard properties options = inl (ThrownVCardError e)
       /\ property e = Some (prop_name prop)) /\
  (validate options = Some false ->
   exists output, serializeVCard properties options = inr output).
Proof.
  assert (Hv : validate options <> Some false ->
               match validate options with
               | Some false => false | _ => true end = true).
  { destruct (validate options) as [[|]|]; congruence. }
  assert (Hfn : forall l : list P,
             filter (fun p => eqs (prop_name p) (str "FN")) l = []
             <-> existsb isFN l = false).
  { induction l as [|q l IH]; cbn [filter existsb]; [tauto|].
    fold (isFN q). destruct (isFN q); cbn [orb]; [|exact IH].
    split; discriminate. }
  repeat split.
  - intros Hopt Hno. unfold serializeVCard. rewrite (Hv Hopt).
    unfold validateForGeneration.
    now rewrite (proj2 (Hfn properties) Hno).
  - intros pre prop post Hopt Hyes -> Hpre Hprop.
    unfold serializeVCard. rewrite (Hv Hopt). unfold validateForGeneration.
    destruct (filter _ (pre ++ prop :: post)) eqn:Ef.
    + apply Hfn in Ef. congruence.
    + rewrite firstError_prefError by assumption.
      destruct (prefError_Some prop Hprop) as (e & -> & He). now exists e.
  - intros Hopt. unfold serializeVCard. rewrite Hopt. eexists. reflexivity.
Qed.

End Validation.

Lemma serializeVCard_validates_witness :
  serializeVCard [UnknownProperty (str "X-TEL") (str "1") [] None]
                 {| validate := None |}
  = inl (ThrownVCardError
           {| message := str "Missing required property: FN";
              property := Some (str "FN") |}) /\
  (exists e,
     serializeVCard cardWithBadPref {| validate := Some true |}
     = inl (ThrownVCardError e) /\ property e = Some (str "X-TEL")) /\
  (exists output,
     serializeVCard cardWithBadPref {| validate := Some false |} = inr output).
Proof.
  split; [|split].
  - apply (serializeVCard_validates
             [UnknownProperty (str "X-TEL") (str "1") [] None]
             {| validate := None |}); [discriminate|reflexivity].
  - exact (proj1 (proj2 (serializeVCard_validates cardWithBadPref
                           {| validate := Some true |}))
             [TextProperty (str "FN") (str "A") [] None]
             (UnknownProperty (str "X-TEL") (str "1")
                              [(str "PREF", Scalar (str "0"))] None)
             [] ltac:(discriminate) eq_refl eq_refl eq_refl eq_refl).
  - apply (serializeVCard_validates cardWithBadPref
             {| validate := Some false |}). reflexivity.
Defined.

(** C8.  The code misses the rule it states.  The validator is to reject
    a PREF that is not an integer between 1 and 100 (its comment and its
    error message say so), but it reads PREF through the [pref] accessor,
    which gives [undefined] for a value that [parseInt] cannot read, and
    checks nothing then: for a card whose FN has the PREF [abc],
    [serializeVCard] with validation enabled (the default) throws nothing
    and returns the text, PREF=abc included. *)
Lemma serializeVCard_accepts_unreadable_pref :
  serializeVCard
    [TextProperty (str "FN") (str "A") [(str "PREF", Scalar (str "abc"))] None]
    {| validate := None |}
  = inr (str "BEGIN:VCARD" ++ [cr; lf] ++ str "VERSION:4.0" ++ [cr; lf]
         ++ str "FN;PREF=abc:A" ++ [cr; lf] ++ str "END:VCARD" ++ [cr; lf]).
Proof. reflexivity. Qed.

End GeneratorFacts.

(** ** Quoted-printable decoding *)

Module QuotedPrintableFacts.
Import Parser.

Lemma hexDigit_spec n :
  0 <= n < 16 ->
  isHexDigit (hexDigit n) = true /\ hexValue (hexDigit n) = n
  /\ hexDigit n <> eqc /\ hexDigit n <> lf /\ hexDigit n <> cr.
Proof.
  intros Hn. unfold isHexDigit, hexValue, isDigit, hexDigit, eqc, lf, cr.
  destruct (n <? 10) eqn:E.
  - replace ((48 <=? 48 + n) && (48 + n <=? 57)) with true by lia.
    cbn [orb]. cbv iota. lia.
  - replace ((48 <=? 55 + n) && (55 + n <=? 57)) with false by lia.
    replace ((65 <=? 55 + n) && (55 + n <=? 70)) with true by lia.
    cbn [orb]. cbv iota. lia.
Qed.

Lemma octet_nibbles b :
  isOctet b = true ->
  0 <= b / 16 < 16 /\ 0 <= b mod 16 < 16 /\ 16 * (b / 16) + b mod 16 = b.
Proof.
  unfold isOctet. intros Hb.
  pose proof (Z.div_mod b 16 ltac:(lia)).
  pose proof (Z.mod_pos_bound b 16 ltac:(lia)).
  assert (0 <= b / 16 < 16); [|lia].
  split; [apply Z.div_pos; lia|apply Z.div_lt_upper_bound; lia].
Qed.

Lemma removeSoftBreaks_skip c t :
  c <> eqc -> removeSoftBreaks (c :: t) = c :: removeSoftBreaks t.
Proof.
  intros Hc. apply Z.eqb_neq in Hc. cbn [removeSoftBreaks].
  destruct t as [|d [|e t]]; rewrite ?Hc; reflexivity.
Qed.

Lemma removeSoftBreaks_escape d t :
  d <> lf -> d <> cr ->
  removeSoftBreaks (eqc :: d :: t) = eqc :: removeSoftBreaks (d :: t).
Proof.
  intros Hl Hr. apply Z.eqb_neq in Hl, Hr. cbn [removeSoftBreaks].
  rewrite Hl, Hr, !andb_false_r. cbn [andb]. now destruct t.
Qed.

Lemma removeSoftBreaks_triplet b rest :
  isOctet b = true ->
  removeSoftBreaks (triplet b ++ rest) = triplet b ++ removeSoftBreaks rest.
Proof.
  intros Hb. destruct (octet_nibbles b Hb) as (Hh & Hl & _).
  destruct (hexDigit_spec _ Hh) as (_ & _ & Hh1 & Hh2 & Hh3).
  destruct (hexDigit_spec _ Hl) as (_ & _ & Hl1 & _ & _).
  unfold triplet. cbn [app].
  rewrite removeSoftBreaks_escape by assumption.
  now rewrite !removeSoftBreaks_skip by assumption.
Qed.

Lemma collectBytes_triplet b rest :
  isOctet b = true ->
  collectBytes (triplet b ++ rest) = b :: collectBytes rest.
Proof.
  intros Hb. destruct (octet_nibbles b Hb) as (Hh & Hl & Hsum).
  destruct (hexDigit_spec _ Hh) as (Hh1 & Hh2 & _).
  destruct (hexDigit_spec _ Hl) as (Hl1 & Hl2 & _).
  unfold triplet. cbn [app collectBytes].
  rewrite Hh1, Hl1, Hh2, Hl2, Z.eqb_refl. cbn [andb]. now rewrite Hsum.
Qed.

(** All octets are collected before anything is decoded. *)
Lemma decodeQuotedPrintable_qpEncode bytes :
  forallb isOctet bytes = true ->
  decodeQuotedPrintable (qpEncode bytes) = utf8ToString bytes.
Proof.
  intros Hb. unfold decodeQuotedPrintable. f_equal.
  induction bytes as [|b bytes IH]; [reflexivity|].
  cbn in Hb. apply andb_true_iff in Hb as [Hb Hbs].
  unfold qpEncode in *. cbn [flat_map].
  rewrite removeSoftBreaks_triplet, collectBytes_triplet by assumption.
  now rewrite IH.
Qed.

Ltac decide_tests :=
  repeat match goal with
         | |- context [if ?b then _ else _] =>
             lazymatch b with
             | context [if _ then _ else _] => fail
             | _ => let E := fresh "E" in destruct b eqn:E; try lia
             end
         end.

(** The platform's decoder inverts UTF-8 on every scalar value. *)
Lemma utf8ToString_utf8Encode cp rest :
  isScalar cp = true ->
  utf8ToString (utf8Encode cp ++ rest) = utf16 cp ++ utf8ToString rest.
Proof.
  unfold isScalar, utf8Encode. intros Hs.
  destruct (cp <? 0x80) eqn:E1.
  { cbn [app utf8ToString]. rewrite E1. unfold utf16.
    now replace (cp <? 65536) with true by lia. }
  destruct (cp <? 0x800) eqn:E2.
  { pose proof (Z.div_mod cp 64 ltac:(lia)) as Hd.
    pose proof (Z.mod_pos_bound cp 64 ltac:(lia)) as Hm.
    revert Hd Hm. generalize (cp / 64) (cp mod 64). intros a b Hd Hm.
    cbn [app utf8ToString]. unfold isContinuation, utf16.
    decide_tests; cbn [app]; f_equal; lia. }
  destruct (cp <? 0x10000) eqn:E3.
  { pose proof (Z.div_mod cp 64 ltac:(lia)) as Hd.
    pose proof (Z.mod_pos_bound cp 64 ltac:(lia)) as Hm.
    pose proof (Z.div_mod (cp / 64) 64 ltac:(lia)) as Hd2.
    pose proof (Z.mod_pos_bound (cp / 64) 64 ltac:(lia)) as Hm2.
    replace (cp / 4096) with (cp / 64 / 64)
      by (rewrite Z.div_div by lia; reflexivity).
    revert Hd Hm Hd2 Hm2.
    generalize (cp / 64) (cp / 64 / 64) ((cp / 64) mod 64) (cp mod 64).
    intros q a b c Hd Hm Hd2 Hm2.
    cbn [app utf8ToString]. unfold isContinuation, utf16.
    decide_tests; cbn [app]; f_equal; lia. }
  pose proof (Z.div_mod cp 64 ltac:(lia)) as Hd.
  pose proof (Z.mod_pos_bound cp 64 ltac:(lia)) as Hm.
  pose proof (Z.div_mod (cp / 64) 64 ltac:(lia)) as Hd2.
  pose proof (Z.mod_pos_bound (cp / 64) 64 ltac:(lia)) as Hm2.
  pose proof (Z.div_mod (cp / 64 / 64) 64 ltac:(lia)) as Hd3.
  pose proof (Z.mod_pos_bound (cp / 64 / 64) 64 ltac:(lia)) as Hm3.
  replace (cp / 262144) with (cp / 64 / 64 / 64)
    by (rewrite !Z.div_div by lia; reflexivity).
  replace (cp / 4096) with (cp / 64 / 64)
    by (rewrite Z.div_div by lia; reflexivity).
  revert Hd Hm Hd2 Hm2 Hd3 Hm3.
  generalize (cp / 64) (cp / 64 / 64) (cp / 64 / 64 / 64)
             ((cp / 64 / 64) mod 64) ((cp / 64) mod 64) (cp mod 64).
  intros q q2 a b c d Hd Hm Hd2 Hm2 Hd3 Hm3.
  cbn [app utf8ToString]. unfold isContinuation.
  decide_tests; f_equal;
    match goal with
    | |- utf16 ?x = utf16 _ => replace x with cp by lia; reflexivity
    end.
Qed.

Lemma utf8Encode_octets cp :
  isScalar cp = true -> forallb isOctet (utf8Encode cp) = true.
Proof.
  unfold isScalar, utf8Encode, isOctet. intros Hs.
  pose proof (Z.mod_pos_bound cp 64 ltac:(lia)).
  pose proof (Z.mod_pos_bound (cp / 64) 64 ltac:(lia)).
  pose proof (Z.mod_pos_bound (cp / 4096) 64 ltac:(lia)).
  assert (0 <= cp / 64 < 32 \/ 2048 <= cp)
    by (destruct (Z_lt_le_dec cp 2048); [left|right; lia];
        split; [apply Z.div_pos|apply Z.div_lt_upper_bound]; lia).
  assert (0 <= cp / 4096 < 16 \/ 65536 <= cp)
    by (destruct (Z_lt_le_dec cp 65536); [left|right; lia];
        split; [apply Z.div_pos|apply Z.div_lt_upper_bound]; lia).
  assert (0 <= cp / 262144 < 5)
    by (split; [apply Z.div_pos|apply Z.div_lt_upper_bound]; lia).
  decide_tests; cbn [forallb]; lia.
Qed.

Lemma utf8ToString_text cps :
  forallb isScalar cps = true ->
  utf8ToString (flat_map utf8Encode cps) = flat_map utf16 cps.
Proof.
  induction cps as [|cp cps IH]; [reflexivity|]. cbn [forallb flat_map].
  intros Hs. apply andb_true_iff in Hs as [Hcp Hs].
  now rewrite utf8ToString_utf8Encode, IH.
Qed.

Lemma flat_map_octets cps :
  forallb isScalar cps = true ->
  forallb isOctet (flat_map utf8Encode cps) = true.
Proof.
  induction cps as [|cp cps IH]; [reflexivity|]. cbn [forallb flat_map].
  intros Hs. apply andb_true_iff in Hs as [Hcp Hs].
  now rewrite forallb_app, utf8Encode_octets, IH.
Qed.

(** C9. The decoder collects every octet and decodes the whole sequence as
    UTF-8 at the end: a text whose UTF-8 octets are each written as an
    [=XX] triplet decodes to that text, multi-byte characters included;
    and [Fr=C3=A4nk] decodes to the five characters F, r, U+00E4, n, k. *)
Theorem decodeQuotedPrintable_reassembles :
  decodeQuotedPrintable (str "Fr=C3=A4nk") = [70; 114; 0xE4; 110; 107] /\
  (forall cps,
     forallb isScalar cps = true ->
     decodeQuotedPrintable (qpEncode (flat_map utf8Encode cps))
     = flat_map utf16 cps).
Proof.
  split; [reflexivity|]. intros cps Hs.
  rewrite decodeQuotedPrintable_qpEncode by now apply flat_map_octets.
  now apply utf8ToString_text.
Qed.

Lemma decodeQuotedPrintable_reassembles_witness :
  decodeQuotedPrintable (str "=E2=82=AC=F0=9F=98=80")
  = [0x20AC; 0xD83D; 0xDE00].
Proof.
  apply (proj2 decodeQuotedPrintable_reassembles [0x20AC; 0x1F600]).
  reflexivity.
Defined.

End QuotedPrintableFacts.

(** ** Structured and list values *)

Module StructuredFacts.
Import Escape.

Lemma escapeText_flat x : escapeText x = flat_map escapeUnit x.
Proof.
  induction x as [|c x IH]; [reflexivity|].
  rewrite EscapeFacts.escapeText_cons, IH. reflexivity.
Qed.

Lemma escapeStructuredComponent_flat x :
  escapeStructuredComponent x = flat_map escapeUnit x.
Proof.
  induction x as [|c x IH]; [reflexivity|].
  change (c :: x) with ([c] ++ x).
  unfold escapeStructuredComponent in *. rewrite !replaceChar_app, IH.
  cbn [flat_map app]. f_equal.
  unfold escapeUnit, bs, lf, comma, semi.
  destruct (Z.eqb_spec c 92) as [->|H1]; [reflexivity|].
  destruct (Z.eqb_spec c 10) as [->|H2]; [reflexivity|].
  destruct (Z.eqb_spec c 44) as [->|H3]; [reflexivity|].
  destruct (Z.eqb_spec c 59) as [->|H4]; [reflexivity|].
  cbn.
  repeat match goal with
         | |- context [c =? ?k] =>
             destruct (Z.eqb_spec c k); [congruence|]; cbn
         end.
  reflexivity.
Qed.

Lemma unescapeText_flat x : unescapeText (flat_map escapeUnit x) = x.
Proof.
  induction x as [|c x IH]; [reflexivity|]. cbn [flat_map].
  now rewrite EscapeFacts.unescapeText_escapeUnit, IH.
Qed.

(** X2. A structured component is escaped to the same text as a plain
    text value, and unescaping gives the component back. *)
Theorem escapeStructuredComponent_escapeText (x : jsstring) :
  escapeStructuredComponent x = escapeText x /\
  unescapeText (escapeStructuredComponent x) = x.
Proof.
  rewrite escapeStructuredComponent_flat, escapeText_flat.
  split; [reflexivity|apply unescapeText_flat].
Qed.

(** *** The splitting loop *)

Lemma join_snoc sep (l : list jsstring) a :
  join sep (l ++ [a])
  = match l with [] => a | _ :: _ => join sep l ++ sep ++ a end.
Proof.
  induction l as [|p l IH]; [reflexivity|].
  cbn [app]. destruct l as [|q l].
  - reflexivity.
  - change (join sep (p :: (q :: l) ++ [a]))
      with (p ++ sep ++ join sep ((q :: l) ++ [a])).
    rewrite IH.
    change (join sep (p :: q :: l)) with (p ++ sep ++ join sep (q :: l)).
    now rewrite <- !app_assoc.
Qed.

Lemma join_snoc_app sep (l : list jsstring) a x :
  join sep (l ++ [a ++ x]) = join sep (l ++ [a]) ++ x.
Proof.
  rewrite !join_snoc. destruct l; [reflexivity|].
  now rewrite <- !app_assoc.
Qed.

Lemma join_snoc_empty sep (l : list jsstring) a :
  join sep ((l ++ [a]) ++ [[]]) = join sep (l ++ [a]) ++ sep.
Proof.
  etransitivity; [exact (join_snoc sep (l ++ [a]) [])|].
  destruct (l ++ [a]) eqn:E; [now destruct l|]. now rewrite app_nil_r.
Qed.

(** Joining the pieces with the delimiter gives back what was scanned. *)
Lemma splitLoop_join d value :
  forall parts current,
    join [d] (splitLoop d value parts current)
    = join [d] (parts ++ [current]) ++ value.
Proof.
  assert (H : forall n value, (List.length value <= n)%nat ->
              forall parts current,
                join [d] (splitLoop d value parts current)
                = join [d] (parts ++ [current]) ++ value).
  { induction n as [|n IH]; intros [|ch t] Hn parts current;
      try (cbn [splitLoop]; now rewrite app_nil_r); [cbn in Hn; lia|].
    cbn in Hn. cbn [splitLoop].
    assert (Hd : join [d] (splitLoop d t (parts ++ [current]) [])
                 = join [d] (parts ++ [current]) ++ d :: t).
    { rewrite IH by lia. rewrite join_snoc_empty.
      now rewrite <- app_assoc. }
    assert (Hc : join [d] (splitLoop d t parts (current ++ [ch]))
                 = join [d] (parts ++ [current]) ++ ch :: t).
    { rewrite IH by lia. rewrite join_snoc_app.
      now rewrite <- app_assoc. }
    destruct t as [|next t'].
    - destruct (Z.eqb_spec ch d) as [->|_]; assumption.
    - destruct (ch =? bs).
      + rewrite IH by (cbn in Hn; lia). rewrite join_snoc_app.
        now rewrite <- app_assoc.
      + destruct (Z.eqb_spec ch d) as [->|_]; assumption. }
  intros parts current. now apply (H (List.length value)).
Qed.

Lemma splitLoop_nonempty d value :
  forall parts current, splitLoop d value parts current <> [].
Proof.
  assert (H : forall n value, (List.length value <= n)%nat ->
              forall parts current, splitLoop d value parts current <> []).
  { induction n as [|n IH]; intros [|ch t] Hn parts current;
      try (cbn [splitLoop]; now destruct parts);
      try (exfalso; cbn in Hn; lia).
    cbn in Hn. cbn [splitLoop].
    destruct t as [|next t'].
    - destruct (ch =? d); apply IH; cbn; lia.
    - destruct (ch =? bs); [apply IH; cbn in *; lia|].
      destruct (ch =? d); apply IH; cbn in *; lia. }
  intros parts current. now apply (H (List.length value)).
Qed.

(** X1. Splitting loses nothing: the pieces of [splitStructured] joined
    with semicolons, and the pieces of [splitList] joined with commas, are
    the value that was split; there is always at least one piece. *)
Theorem split_join (value : jsstring) :
  join [semi] (splitStructured value) = value /\
  join [comma] (splitList value) = value /\
  splitStructured value <> [] /\ splitList value <> [].
Proof.
  unfold splitStructured, splitList.
  rewrite !splitLoop_join. repeat split; try apply splitLoop_nonempty.
Qed.

(** A text that the loop copies whole into the current piece. *)
Lemma absorbed_nil d : absorbed d [].
Proof. intros rest parts current. now rewrite app_nil_r. Qed.

Lemma absorbed_app d p q : absorbed d p -> absorbed d q -> absorbed d (p ++ q).
Proof.
  intros Hp Hq rest parts current.
  now rewrite <- app_assoc, Hp, Hq, app_assoc.
Qed.

Lemma absorbed_plain d c : c <> bs -> c <> d -> absorbed d [c].
Proof.
  intros Hb Hd rest parts current. apply Z.eqb_neq in Hb, Hd.
  cbn [app splitLoop]. rewrite Hb, Hd. now destruct rest.
Qed.

Lemma absorbed_pair d c : absorbed d [bs; c].
Proof. intros rest parts current. reflexivity. Qed.

Lemma absorbed_escapeUnit d c :
  d = semi \/ d = comma -> absorbed d (escapeUnit c).
Proof.
  intros Hd. unfold escapeUnit.
  destruct (Z.eqb_spec c bs); [apply absorbed_pair|].
  destruct (Z.eqb_spec c lf); [apply absorbed_pair|].
  destruct (Z.eqb_spec c comma); [apply absorbed_pair|].
  destruct (Z.eqb_spec c semi); [apply absorbed_pair|].
  apply absorbed_plain; [assumption|]. destruct Hd; congruence.
Qed.

Lemma absorbed_escaped d x :
  d = semi \/ d = comma -> absorbed d (flat_map escapeUnit x).
Proof.
  intros Hd. induction x as [|c x IH]; [apply absorbed_nil|].
  cbn [flat_map]. apply absorbed_app; [now apply absorbed_escapeUnit|exact IH].
Qed.

Lemma splitLoop_delimiter d rest parts current :
  d <> bs ->
  splitLoop d (d :: rest) parts current
  = splitLoop d rest (parts ++ [current]) [].
Proof.
  intros Hd. apply Z.eqb_neq in Hd. cbn [splitLoop].
  rewrite Hd, Z.eqb_refl. now destruct rest.
Qed.

(** Absorbed pieces joined with the delimiter are split into themselves. *)
Lemma splitLoop_joined d p ps :
  d <> bs -> Forall (absorbed d) (p :: ps) ->
  forall parts current,
    splitLoop d (join [d] (p :: ps)) parts current
    = parts ++ (current ++ p) :: ps.
Proof.
  intros Hd. revert p. induction ps as [|q ps IH]; intros p Hall parts current.
  - cbn [join]. inversion Hall as [|? ? Hp _]; subst.
    rewrite <- (app_nil_r p) at 1. now rewrite Hp.
  - change (join [d] (p :: q :: ps)) with (p ++ [d] ++ join [d] (q :: ps)).
    inversion Hall as [|? ? Hp Hrest]; subst.
    rewrite Hp. cbn [app]. rewrite splitLoop_delimiter by assumption.
    rewrite IH by assumption. now rewrite <- app_assoc.
Qed.

Lemma semi_not_bs : semi <> bs. Proof. discriminate. Qed.
Lemma comma_not_bs : comma <> bs. Proof. discriminate. Qed.

Lemma splitLoop_escaped d (items : list jsstring) :
  d = semi \/ d = comma -> items <> [] ->
  splitLoop d (join [d] (map (flat_map escapeUnit) items)) [] []
  = map (flat_map escapeUnit) items.
Proof.
  intros Hd Hne. destruct items as [|x items]; [congruence|].
  cbn [map]. rewrite splitLoop_joined; [reflexivity| |].
  - destruct Hd; subst; discriminate.
  - change (Forall (absorbed d) (map (flat_map escapeUnit) (x :: items))).
    apply Forall_forall. intros p Hp. apply in_map_iff in Hp as (y & <- & _).
    now apply absorbed_escaped.
Qed.

Lemma map_unescape_escaped (items : list jsstring) :
  map unescapeText (map (flat_map escapeUnit) items) = items.
Proof.
  rewrite map_map. rewrite <- (map_id items) at 2.
  apply map_ext. apply unescapeText_flat.
Qed.

Lemma parseStructured_escaped (components : list jsstring) :
  components <> [] ->
  parseStructured (join [semi] (map escapeStructuredComponent components))
  = components.
Proof.
  intros Hne. unfold parseStructured, splitStructured.
  rewrite (map_ext _ _ escapeStructuredComponent_flat).
  rewrite splitLoop_escaped by auto. apply map_unescape_escaped.
Qed.

(** X3. A structured value written from its components (each escaped,
    joined with semicolons) is parsed back into the same components, for
    every non-empty list of components. *)
Theorem parseStructured_join (components : list jsstring) :
  components <> [] ->
  parseStructured (join [semi] (map escapeStructuredComponent components))
  = components.
Proof. apply parseStructured_escaped. Qed.

Lemma parseStructured_join_witness :
  parseStructured
    (join [semi] (map escapeStructuredComponent [str "a;b"; []; str "c,\d"]))
  = [str "a;b"; []; str "c,\d"].
Proof.
  apply (parseStructured_join [str "a;b"; []; str "c,\d"]). discriminate.
Defined.

Lemma parseList_escaped (items : list jsstring) :
  items <> [] ->
  parseList (join [comma] (map escapeText items)) = items.
Proof.
  intros Hne. unfold parseList, splitList.
  rewrite (map_ext _ _ escapeText_flat).
  rewrite splitLoop_escaped by auto. apply map_unescape_escaped.
Qed.

Lemma absorbed_list (items : list jsstring) :
  absorbed semi (join [comma] (map (flat_map escapeUnit) items)).
Proof.
  induction items as [|x items IH]; [apply absorbed_nil|].
  destruct items as [|y items].
  - cbn [map join]. now apply absorbed_escaped; left.
  - change (join [comma] (map (flat_map escapeUnit) (x :: y :: items)))
      with (flat_map escapeUnit x ++ [comma]
            ++ join [comma] (map (flat_map escapeUnit) (y :: items))).
    apply absorbed_app; [now apply absorbed_escaped; left|].
    apply absorbed_app; [|exact IH].
    apply absorbed_plain; discriminate.
Qed.

Lemma parseStructuredList_escaped (components : list (list jsstring)) :
  components <> [] ->
  Forall (fun items => items <> []) components ->
  parseStructuredList
    (join [semi]
       (map (fun items => join [comma] (map escapeStructuredComponent items))
            components))
  = components.
Proof.
  intros Hne Hall. unfold parseStructuredList, splitStructured.
  rewrite (map_ext
             (fun items => join [comma] (map escapeStructuredComponent items))
             (fun items => join [comma] (map (flat_map escapeUnit) items)))
    by (intros l; now rewrite (map_ext _ _ escapeStructuredComponent_flat)).
  destruct components as [|c cs]; [congruence|]. cbn [map].
  rewrite splitLoop_joined; [|exact semi_not_bs|].
  - cbn [app]. change (?a :: map ?f cs) with (map f (c :: cs)).
    rewrite map_map. rewrite <- (map_id (c :: cs)) at 2.
    apply map_ext_in. intros items Hin.
    unfold parseList, splitList.
    rewrite splitLoop_escaped;
      [apply map_unescape_escaped|now right|].
    rewrite Forall_forall in Hall. now apply Hall.
  - change (Forall (absorbed semi)
              (map (fun items => join [comma] (map (flat_map escapeUnit) items))
                   (c :: cs))).
    apply Forall_forall. intros p Hp. apply in_map_iff in Hp as (l & <- & _).
    apply absorbed_list.
Qed.

(** X5. A structured value whose components are lists (as N has) is parsed
    back into the same lists, provided there is at least one component and
    no component is the empty list. *)
Theorem parseStructuredList_join (components : list (list jsstring)) :
  components <> [] ->
  Forall (fun items => items <> []) components ->
  parseStructuredList
    (join [semi]
       (map (fun items => join [comma] (map escapeStructuredComponent items))
            components))
  = components.
Proof. apply parseStructuredList_escaped. Qed.

Lemma parseStructuredList_join_witness :
  parseStructuredList
    (join [semi]
       (map (fun items => join [comma] (map escapeStructuredComponent items))
            [[str "Smith"]; [str "ing. jr"; str "M.Sc."]]))
  = [[str "Smith"]; [str "ing. jr"; str "M.Sc."]].
Proof.
  apply (parseStructuredList_join
           [[str "Smith"]; [str "ing. jr"; str "M.Sc."]]);
    [discriminate|repeat constructor; discriminate].
Defined.

(** An empty value is one empty piece: a component written from the empty
    list is read back as the list of one empty item. *)
Example parseList_empty : parseList [] = [[]].
Proof. reflexivity. Qed.

End StructuredFacts.

(** ** Facts about the string primitives *)

Module JSFacts.

Lemma len_app (a b : jsstring) : len (a ++ b) = len a + len b.
Proof. unfold len. rewrite length_app. lia. Qed.

Lemma len_nonneg (a : jsstring) : 0 <= len a.
Proof. unfold len. lia. Qed.

Lemma slice_prefix (a b : jsstring) : slice (a ++ b) 0 (len a) = a.
Proof.
  unfold slice, sliceIndex. rewrite len_app.
  pose proof (len_nonneg a). pose proof (len_nonneg b).
  replace (0 <? 0) with false by reflexivity.
  replace (len a <? 0) with false by lia.
  rewrite Z.min_l, Z.min_l by lia. cbn [Z.to_nat skipn].
  replace (Z.to_nat (len a - 0)) with (List.length a) by (unfold len; lia).
  rewrite firstn_app, Nat.sub_diag, firstn_all. cbn. apply app_nil_r.
Qed.

Lemma sliceFrom_suffix (a b : jsstring) : sliceFrom (a ++ b) (len a) = b.
Proof.
  unfold sliceFrom, sliceIndex. rewrite len_app.
  pose proof (len_nonneg a). pose proof (len_nonneg b).
  replace (len a <? 0) with false by lia.
  rewrite Z.min_l by lia.
  replace (Z.to_nat (len a)) with (List.length a) by (unfold len; lia).
  rewrite skipn_app, Nat.sub_diag, skipn_all. reflexivity.
Qed.

Lemma sliceFrom_after (a : jsstring) c (b : jsstring) :
  sliceFrom (a ++ c :: b) (len a + 1) = b.
Proof.
  change (a ++ c :: b) with (a ++ [c] ++ b). rewrite app_assoc.
  replace (len a + 1) with (len (a ++ [c]))
    by (rewrite len_app; reflexivity).
  apply sliceFrom_suffix.
Qed.

Lemma indexOfFrom_absent c s i : ~ In c s -> indexOfFrom c s i = -1.
Proof.
  revert i. induction s as [|x s IH]; intros i Hn; [reflexivity|].
  cbn [indexOfFrom].
  destruct (Z.eqb_spec x c) as [->|_]; [exfalso; apply Hn; now left|].
  apply IH. intros H. apply Hn. now right.
Qed.

Lemma indexOfFrom_first c a b i :
  ~ In c a -> indexOfFrom c (a ++ c :: b) i = i + len a.
Proof.
  revert i. induction a as [|x a IH]; intros i Hn.
  - cbn. rewrite Z.eqb_refl. unfold len. cbn. lia.
  - cbn [app indexOfFrom].
    destruct (Z.eqb_spec x c) as [->|_]; [exfalso; apply Hn; now left|].
    rewrite IH by (intros H; apply Hn; now right).
    unfold len. cbn [List.length]. lia.
Qed.

Lemma indexOf_absent c s : ~ In c s -> indexOf s c = -1.
Proof. apply indexOfFrom_absent. Qed.

Lemma indexOf_first c a b : ~ In c a -> indexOf (a ++ c :: b) c = len a.
Proof. intros Hn. unfold indexOf. now rewrite indexOfFrom_first. Qed.

Lemma trimStart_head c s :
  isWhiteSpace c = false -> trimStart (c :: s) = c :: s.
Proof. intros Hc. cbn. now rewrite Hc. Qed.

(** A text that neither begins nor ends with white space is its own
    trim. *)
Lemma trim_trimmed s : trimmed s = true -> trim s = s.
Proof.
  destruct s as [|c s]; [reflexivity|]. unfold trimmed.
  intros H. apply andb_true_iff in H as [Hc Hl].
  apply negb_true_iff in Hc, Hl. unfold trim.
  rewrite (trimStart_head c s Hc).
  destruct (rev (c :: s)) as [|x r] eqn:E.
  - apply (f_equal (@List.length Z)) in E. rewrite length_rev in E.
    discriminate.
  - assert (Hx : x = last (c :: s) 0).
    { rewrite <- (rev_involutive (c :: s)), E. cbn [rev].
      now rewrite last_last. }
    rewrite trimStart_head by now rewrite Hx.
    rewrite <- E. apply rev_involutive.
Qed.

End JSFacts.

(** ** Numbers as text *)

Module NumberFacts.

Lemma str_String a s :
  str (String a s) = Z.of_N (N_of_ascii a) :: str s.
Proof. reflexivity. Qed.

Ltac read_digit IH :=
  cbn [NilEmpty.string_of_uint]; rewrite str_String;
  match goal with
  | |- context [Z.of_N (N_of_ascii ?a)] =>
      let v := eval vm_compute in (Z.of_N (N_of_ascii a)) in
      change (Z.of_N (N_of_ascii a)) with v
  end;
  cbn [digitsValue isDigit Z.leb Z.compare Pos.compare Pos.compare_cont andb];
  cbn [Pos.of_uint_acc Pos.of_uint].

(** Reading the digits of a decimal numeral accumulates as
    [Pos.of_uint_acc] does. *)
Lemma digitsValue_acc u :
  forall acc,
    digitsValue (Z.pos acc) (str (NilEmpty.string_of_uint u))
    = Z.pos (Pos.of_uint_acc u acc).
Proof.
  induction u; intros acc; [reflexivity|..]; read_digit IHu;
    rewrite <- IHu; f_equal; lia.
Qed.

Lemma digitsValue_uint u :
  digitsValue 0 (str (NilEmpty.string_of_uint u)) = Z.of_N (Pos.of_uint u).
Proof.
  induction u; [reflexivity|..]; read_digit IHu;
    [exact IHu|..];
    match goal with
    | |- digitsValue ?k _ = _ =>
        let p := eval vm_compute in (Z.to_pos k) in
        change k with (Z.pos p)
    end; now rewrite digitsValue_acc.
Qed.

Lemma digits_head u :
  u <> Decimal.Nil ->
  exists d rest,
    str (NilEmpty.string_of_uint u) = d :: rest /\ isDigit d = true.
Proof.
  destruct u; [congruence|..]; intros _; cbn [NilEmpty.string_of_uint];
    rewrite str_String; eexists; eexists; split; reflexivity.
Qed.

Lemma parseInt10_digits d rest :
  isDigit d = true ->
  parseInt10 (d :: rest) = Num (digitsValue 0 (d :: rest)).
Proof.
  intros Hd. unfold parseInt10.
  assert (Hw : isWhiteSpace d = false)
    by (unfold isDigit, isWhiteSpace in *; lia).
  cbn [trimStart]. rewrite Hw.
  replace (d =? 45) with false by (unfold isDigit in Hd; lia).
  replace (d =? 43) with false by (unfold isDigit in Hd; lia).
  rewrite Hd. f_equal. lia.
Qed.

Lemma parseInt10_pos p :
  parseInt10 (str (NilEmpty.string_of_uint (Pos.to_uint p))) = Num (Z.pos p).
Proof.
  destruct (digits_head _ (DecimalPos.Unsigned.to_uint_nonnil p))
    as (d & rest & E & Hd).
  pose proof (digitsValue_uint (Pos.to_uint p)) as Hv.
  rewrite DecimalPos.Unsigned.of_to in Hv. rewrite E in *.
  rewrite parseInt10_digits by assumption. f_equal. exact Hv.
Qed.

(** [parseInt(String(n), 10)] is [n], for every integer [n]. *)
Lemma parseInt10_numberToString z :
  parseInt10 (numberToString (Num z)) = Num z.
Proof.
  unfold numberToString. destruct z as [|p|p]; [reflexivity|..].
  - cbn [Z.to_int NilZero.string_of_int].
    unfold NilZero.string_of_uint.
    pose proof (DecimalPos.Unsigned.to_uint_nonnil p) as Hn.
    destruct (Pos.to_uint p) eqn:E; [congruence|..];
      rewrite <- E; apply parseInt10_pos.
  - cbn [Z.to_int].
    pose proof (DecimalPos.Unsigned.to_uint_nonnil p) as Hn.
    pose proof (parseInt10_pos p) as Hp.
    destruct (digits_head _ Hn) as (d & rest & Ed & Hd).
    assert (Hu : NilZero.string_of_int (Decimal.Neg (Pos.to_uint p))
                 = String "-" (NilEmpty.string_of_uint (Pos.to_uint p))).
    { cbn [NilZero.string_of_int]. unfold NilZero.string_of_uint.
      now destruct (Pos.to_uint p). }
    rewrite Hu, str_String. rewrite Ed in *.
    assert (Hv : digitsValue 0 (d :: rest) = Z.pos p)
      by (rewrite parseInt10_digits in Hp by assumption; congruence).
    change (Z.of_N (N_of_ascii "-")) with 45.
    unfold parseInt10. cbn [trimStart].
    change (isWhiteSpace 45) with false.
    cbv beta iota zeta. rewrite Z.eqb_refl.
    cbv beta iota zeta. rewrite Hd, Hv. reflexivity.
Qed.

End NumberFacts.

(** ** Structured property values *)

Module ClassFacts.
Import Escape Classes JSFacts.

Lemma TextListProperty_read (values : list jsstring) :
  parseTextList (TextListProperty_toContentLine values) = orEmptyName values.
Proof.
  unfold parseTextList, TextListProperty_toContentLine.
  destruct values as [|v values]; [reflexivity|].
  now apply StructuredFacts.parseList_escaped.
Qed.

(** X4. NICKNAME and CATEGORIES: reading the text written for a list of
    values gives back the same values, whatever characters they hold; the
    empty list comes back as the list of one empty value. *)
Theorem TextListProperty_round_trip (values : list jsstring) :
  parseTextList (TextListProperty_toContentLine values) = orEmptyName values.
Proof. apply TextListProperty_read. Qed.

Lemma AdrProperty_read (value : Address) :
  AdrProperty_fromText (AdrProperty_toContentLine value) = value.
Proof.
  unfold AdrProperty_fromText, AdrProperty_toContentLine.
  destruct value as [a1 a2 a3 a4 a5 a6 a7]. cbn [postOfficeBox
    extendedAddress streetAddress locality region postalCode countryName].
  change [escapeStructuredComponent a1; escapeStructuredComponent a2;
          escapeStructuredComponent a3; escapeStructuredComponent a4;
          escapeStructuredComponent a5; escapeStructuredComponent a6;
          escapeStructuredComponent a7]
    with (map escapeStructuredComponent [a1; a2; a3; a4; a5; a6; a7]).
  rewrite StructuredFacts.parseStructured_escaped by discriminate.
  reflexivity.
Qed.

(** X6. ADR: reading the text written for an address gives back the same
    seven components, whatever characters they hold. *)
Theorem AdrProperty_round_trip (value : Address) :
  AdrProperty_fromText (AdrProperty_toContentLine value) = value.
Proof. apply AdrProperty_read. Qed.

Lemma OrgProperty_read (value : Organization) :
  OrgProperty_fromText (OrgProperty_toContentLine value)
  = {| org_name := org_name value;
       units := filter (fun s => negb (eqs s [])) (units value) |}.
Proof.
  unfold OrgProperty_fromText, OrgProperty_toContentLine.
  rewrite StructuredFacts.parseStructured_escaped by discriminate.
  reflexivity.
Qed.

(** X7. ORG: reading the text written for an organization gives back its
    name and its units, except that empty units are dropped. *)
Theorem OrgProperty_round_trip (value : Organization) :
  OrgProperty_fromText (OrgProperty_toContentLine value)
  = {| org_name := org_name value;
       units := filter (fun s => negb (eqs s [])) (units value) |}.
Proof. apply OrgProperty_read. Qed.

Lemma join_orEmptyName names :
  join [comma] (map escapeStructuredComponent names)
  = join [comma] (map escapeStructuredComponent (orEmptyName names)).
Proof. now destruct names. Qed.

Lemma orEmptyName_nonempty names : orEmptyName names <> [].
Proof. now destruct names. Qed.

Lemma NProperty_read (value : StructuredName) :
  NProperty_fromText (NProperty_toContentLine value)
  = {| familyNames := orEmptyName (familyNames value);
       givenNames := orEmptyName (givenNames value);
       additionalNames := orEmptyName (additionalNames value);
       honorificPrefixes := orEmptyName (honorificPrefixes value);
       honorificSuffixes := orEmptyName (honorificSuffixes value) |}.
Proof.
  unfold NProperty_fromText, NProperty_toContentLine.
  destruct value as [n1 n2 n3 n4 n5]. cbn [familyNames givenNames
    additionalNames honorificPrefixes honorificSuffixes].
  rewrite (join_orEmptyName n1), (join_orEmptyName n2),
    (join_orEmptyName n3), (join_orEmptyName n4), (join_orEmptyName n5).
  change [join [comma] (map escapeStructuredComponent (orEmptyName n1));
          join [comma] (map escapeStructuredComponent (orEmptyName n2));
          join [comma] (map escapeStructuredComponent (orEmptyName n3));
          join [comma] (map escapeStructuredComponent (orEmptyName n4));
          join [comma] (map escapeStructuredComponent (orEmptyName n5))]
    with (map (fun items =>
                 join [comma] (map escapeStructuredComponent items))
              [orEmptyName n1; orEmptyName n2; orEmptyName n3;
               orEmptyName n4; orEmptyName n5]).
  rewrite StructuredFacts.parseStructuredList_escaped;
    [reflexivity|discriminate|].
  repeat constructor; apply orEmptyName_nonempty.
Qed.

(** X8. N: reading the text written for a structured name gives back the
    five lists of names, an empty list coming back as the list of one empty
    name. *)
Theorem NProperty_round_trip (value : StructuredName) :
  NProperty_fromText (NProperty_toContentLine value)
  = {| familyNames := orEmptyName (familyNames value);
       givenNames := orEmptyName (givenNames value);
       additionalNames := orEmptyName (additionalNames value);
       honorificPrefixes := orEmptyName (honorificPrefixes value);
       honorificSuffixes := orEmptyName (honorificSuffixes value) |}.
Proof. apply NProperty_read. Qed.

Section GenderAscii.

Variable toUpperCase : jsstring -> jsstring.
Hypothesis toUpperCase_ascii :
  forall s, isAscii s = true -> toUpperCase s = upperAscii s.

Lemma GenderProperty_read (value : Gender) :
  In (sex value) Generator.validSex ->
  GenderProperty_fromText toUpperCase (GenderProperty_toContentLine value)
  = {| sex := sex value;
       identity := match identity value with
                   | Some (c :: i) => Some (c :: i)
                   | _ => None
                   end |}.
Proof.
  intros Hsex. destruct value as [s [[|c i]|]]; cbn [sex identity] in *;
    unfold GenderProperty_toContentLine, GenderProperty_fromText;
    cbn [sex identity].
  1, 3: repeat (destruct Hsex as [<-|Hsex];
                [now rewrite indexOf_absent, toUpperCase_ascii
                   by (reflexivity || (cbn; intuition discriminate))|]);
        destruct Hsex.
  assert (Hs : ~ In semi s /\ toUpperCase s = s).
  { repeat (destruct Hsex as [<-|Hsex];
            [split; [cbn; intuition discriminate
                    |now rewrite toUpperCase_ascii by reflexivity]|]).
    destruct Hsex. }
  destruct Hs as [Hsemi Hup].
  cbn [app]. rewrite indexOf_first by assumption.
  replace (len s =? -1) with false by (pose proof (len_nonneg s); lia).
  rewrite slice_prefix, sliceFrom_after, Hup.
  rewrite StructuredFacts.escapeStructuredComponent_flat,
    StructuredFacts.unescapeText_flat.
  reflexivity.
Qed.

(** X9. GENDER: for each of the six valid sex values and every identity
    text, reading the text written gives back the sex and the identity; an
    empty identity comes back as no identity. *)
Theorem GenderProperty_round_trip (value : Gender) :
  In (sex value) Generator.validSex ->
  GenderProperty_fromText toUpperCase (GenderProperty_toContentLine value)
  = {| sex := sex value;
       identity := match identity value with
                   | Some (c :: i) => Some (c :: i)
                   | _ => None
                   end |}.
Proof. apply GenderProperty_read. Qed.

End GenderAscii.

Lemma GenderProperty_round_trip_witness :
  GenderProperty_fromText upperAscii
    (GenderProperty_toContentLine
       {| sex := str "O"; identity := Some (str "it's; complicated") |})
  = {| sex := str "O"; identity := Some (str "it's; complicated") |}.
Proof.
  apply (GenderProperty_round_trip upperAscii).
  - intros s _. reflexivity.
  - cbn. tauto.
Defined.

Lemma numberToString_digits z :
  Forall (fun c => isDigit c = true \/ c = 45) (numberToString (Num z)).
Proof.
  assert (Hu : forall u,
             Forall (fun c => isDigit c = true \/ c = 45)
                    (str (NilEmpty.string_of_uint u))).
  { induction u; cbn [NilEmpty.string_of_uint]; [constructor|..];
      rewrite NumberFacts.str_String; constructor; auto; left; reflexivity. }
  assert (Hz : forall u,
             Forall (fun c => isDigit c = true \/ c = 45)
                    (str (NilZero.string_of_uint u))).
  { intros u. unfold NilZero.string_of_uint.
    destruct u; try apply Hu. repeat constructor. }
  unfold numberToString. destruct (Z.to_int z) as [u|u];
    cbn [NilZero.string_of_int]; [apply Hz|].
  rewrite NumberFacts.str_String. constructor; [now right|apply Hz].
Qed.

Lemma ClientPidMapProperty_read (value : ClientPidMap) :
  safeInteger (pid value) = true ->
  ClientPidMapProperty_fromText (ClientPidMapProperty_toContentLine value)
  = {| pid := if pid value =? 0 then 1 else pid value; uri := uri value |}.
Proof.
  intros _.
  unfold ClientPidMapProperty_fromText, ClientPidMapProperty_toContentLine.
  destruct value as [n u]. cbn [pid uri app].
  assert (Hsemi : ~ In semi (numberToString (Num n))).
  { intros Hin. pose proof (numberToString_digits n) as Hd.
    rewrite Forall_forall in Hd. destruct (Hd _ Hin) as [H|H];
      [discriminate H|discriminate H]. }
  rewrite indexOf_first by assumption.
  replace (len _ =? -1) with false
    by (pose proof (len_nonneg (numberToString (Num n))); lia).
  rewrite slice_prefix, sliceFrom_after.
  now rewrite NumberFacts.parseInt10_numberToString.
Qed.

(** X10. CLIENTPIDMAP: reading the text written for a pid and a URI gives
    back the same pair, whatever the URI holds, except that pid 0 is read
    as 1.  The pid is an integer that a JavaScript number holds exactly. *)
Theorem ClientPidMapProperty_round_trip (value : ClientPidMap) :
  safeInteger (pid value) = true ->
  ClientPidMapProperty_fromText (ClientPidMapProperty_toContentLine value)
  = {| pid := if pid value =? 0 then 1 else pid value; uri := uri value |}.
Proof. apply ClientPidMapProperty_read. Qed.

Lemma ClientPidMapProperty_round_trip_witness :
  ClientPidMapProperty_fromText
    (ClientPidMapProperty_toContentLine
       {| pid := 12; uri := str "urn:uuid:3df403f4;x" |})
  = {| pid := 12; uri := str "urn:uuid:3df403f4;x" |}.
Proof.
  apply (ClientPidMapProperty_round_trip
           {| pid := 12; uri := str "urn:uuid:3df403f4;x" |}).
  reflexivity.
Defined.

End ClassFacts.

(** ** Folding: the length of the physical lines *)

Module FoldBound.
Import Generator FoldFacts.

Lemma codeUnits_cons c s :
  codeUnits (c :: s) = true <-> c <= 0xFFFF /\ codeUnits s = true.
Proof.
  unfold codeUnits. cbn [forallb]. rewrite andb_true_iff, Z.leb_le.
  reflexivity.
Qed.

Lemma codeUnits_app a b :
  codeUnits (a ++ b) = true -> codeUnits a = true /\ codeUnits b = true.
Proof. unfold codeUnits. rewrite forallb_app. apply andb_true_iff. Qed.

Lemma codePointAt_pair c d t :
  isHighSurrogate c && isLowSurrogate d = true ->
  (codePointAt c (d :: t) >? 0xffff) = true.
Proof.
  intros Hp. unfold codePointAt. rewrite Hp.
  apply andb_true_iff in Hp as [Hc Hd].
  unfold isHighSurrogate, isLowSurrogate in *. lia.
Qed.

Lemma codePointAt_single c t :
  c <= 0xFFFF ->
  match t with
  | d :: _ => isHighSurrogate c && isLowSurrogate d = false
  | [] => True
  end ->
  codePointAt c t = c.
Proof. destruct t as [|d t]; [reflexivity|]. cbn. now intros _ ->. Qed.

Lemma byteLength_nonneg s : 0 <= byteLength s.
Proof.
  assert (H : forall n s, (List.length s <= n)%nat -> 0 <= byteLength s).
  { induction n as [|n IH]; intros [|c t] Hn; cbn [byteLength]; try lia.
    - cbn in Hn. lia.
    - cbn in Hn. destruct t as [|d t'].
      + destruct (c <=? 127), (c <=? 2047); lia.
      + destruct (isHighSurrogate c && isLowSurrogate d).
        * specialize (IH t' ltac:(cbn in Hn; lia)). lia.
        * specialize (IH (d :: t') ltac:(cbn in *; lia)).
          destruct (c <=? 127), (c <=? 2047); lia. }
  now apply (H (List.length s)).
Qed.

(** The octets of the segment that [takeSegment] cuts fit in what is left
    of the budget. *)
Lemma takeSegment_octets rest :
  forall maxBytes octetCount,
    codeUnits rest = true -> octetCount <= maxBytes ->
    octetCount + byteLength (fst (takeSegment maxBytes octetCount rest))
    <= maxBytes.
Proof.
  assert (H : forall n rest, (List.length rest <= n)%nat ->
              forall m o, codeUnits rest = true -> o <= m ->
                          o + byteLength (fst (takeSegment m o rest)) <= m).
  { induction n as [|n IH]; intros [|c t] Hn m o Hu Ho;
      try (cbn; lia).
    - cbn in Hn. lia.
    - cbn [takeSegment]. cbn in Hn.
      apply codeUnits_cons in Hu as [Hc Ht].
      destruct t as [|d t'].
      + cbn [codePointAt].
        destruct (_ >? m) eqn:E; cbn [fst byteLength]; [lia|].
        destruct (c >? 65535) eqn:E1; [lia|].
        destruct (c >? 2047) eqn:E2, (c >? 127) eqn:E3,
          (c <=? 127) eqn:E4, (c <=? 2047) eqn:E5; lia.
      + destruct (isHighSurrogate c && isLowSurrogate d) eqn:Hp.
        * rewrite (codePointAt_pair c d t' Hp).
          destruct (o + 4 >? m) eqn:E; [cbn; lia|].
          apply codeUnits_cons in Ht as [Hd Ht'].
          specialize (IH t' ltac:(cbn in Hn; lia) m (o + 4) Ht' ltac:(lia)).
          destruct (takeSegment m (o + 4) t') as [seg remaining].
          cbn [fst] in *. cbn [byteLength]. rewrite Hp. lia.
        * rewrite (codePointAt_single c (d :: t') Hc Hp).
          replace (c >? 65535) with false by lia.
          set (charBytes := if c >? 2047 then 3 else if c >? 127 then 2 else 1).
          destruct (o + charBytes >? m) eqn:E; [cbn; lia|].
          specialize (IH (d :: t') ltac:(cbn in *; lia) m (o + charBytes) Ht
                         ltac:(lia)).
          pose proof (takeSegment_app (d :: t') m (o + charBytes)) as Happ.
          destruct (takeSegment m (o + charBytes) (d :: t'))
            as [seg remaining].
          cbn [fst snd] in *.
          assert (Hb : byteLength (c :: seg) = charBytes + byteLength seg).
          { destruct seg as [|x seg'].
            - cbn. subst charBytes.
              destruct (c >? 2047) eqn:E2, (c >? 127) eqn:E3,
                (c <=? 127) eqn:E4, (c <=? 2047) eqn:E5; lia.
            - cbn in Happ. injection Happ as -> _.
              cbn [byteLength]. rewrite Hp. subst charBytes.
              destruct (c >? 2047) eqn:E2, (c >? 127) eqn:E3,
                (c <=? 127) eqn:E4, (c <=? 2047) eqn:E5; lia. }
          rewrite Hb. lia. }
  intros m o. now apply (H (List.length rest)).
Qed.

Lemma foldParts_octets fuel :
  forall maxBytes rest,
    codeUnits rest = true -> 3 <= maxBytes ->
    match foldParts fuel maxBytes rest with
    | [] => True
    | first :: more =>
        byteLength first <= maxBytes /\
        Forall (fun p => byteLength p <= MAX_LINE_OCTETS - 1) more
    end.
Proof.
  induction fuel as [|fuel IH]; intros m [|c t] Hu Hm; cbn [foldParts];
    try exact I.
  pose proof (takeSegment_octets (c :: t) m 0 Hu ltac:(lia)) as Hb.
  pose proof (takeSegment_app (c :: t) m 0) as Happ.
  destruct (takeSegment m 0 (c :: t)) as [[|x seg] remaining];
    cbn [fst snd] in *.
  - apply codeUnits_cons in Hu as [Hc Ht].
    specialize (IH (MAX_LINE_OCTETS - 1) t Ht ltac:(cbv; discriminate)).
    split.
    + cbn. destruct (c <=? 127), (c <=? 2047); lia.
    + destruct (foldParts fuel _ t); [constructor|].
      destruct IH. now constructor.
  - rewrite <- Happ in Hu. apply codeUnits_app in Hu as [_ Hr].
    specialize (IH (MAX_LINE_OCTETS - 1) remaining Hr
                   ltac:(cbv; discriminate)).
    split; [lia|].
    destruct (foldParts fuel _ remaining); [constructor|].
    destruct IH. now constructor.
Qed.

Lemma byteLength_space p :
  p <> [] -> byteLength (sp :: p) = 1 + byteLength p.
Proof. destruct p; [congruence|reflexivity]. Qed.

Lemma foldLine_pieces (line : jsstring) :
  codeUnits line = true ->
  exists first more,
    foldLine line = folded (first :: more) /\
    concat (first :: more) = line /\
    byteLength first <= 75 /\
    Forall (fun p => p <> [] /\ byteLength (sp :: p) <= 75) more.
Proof.
  intros Hu. unfold foldLine.
  destruct (byteLength line <=? MAX_LINE_OCTETS) eqn:E.
  - exists line, []. repeat split.
    + cbn. apply app_nil_r.
    + unfold MAX_LINE_OCTETS in E. lia.
    + constructor.
  - pose proof (foldParts_octets (List.length line) MAX_LINE_OCTETS line Hu
                  ltac:(cbv; discriminate)) as Hb.
    pose proof (foldParts_concat (List.length line) MAX_LINE_OCTETS line
                  (le_n _)) as Hc.
    pose proof (foldParts_nonempty (List.length line) MAX_LINE_OCTETS line)
      as Hne.
    destruct (foldParts _ _ line) as [|first more].
    + cbn in Hc. subst line. discriminate E.
    + exists first, more. destruct Hb as [Hf Hm].
      repeat split; [exact Hc|exact Hf|].
      rewrite Forall_forall in *. intros p Hp.
      assert (p <> []) by (intros ->; apply Hne; now right).
      split; [assumption|]. rewrite byteLength_space by assumption.
      specialize (Hm p Hp). unfold MAX_LINE_OCTETS in Hm. lia.
Qed.

(** X11. Whatever the line, [foldLine] writes it as a first physical line
    of at most 75 octets and continuation lines that, with their leading
    space, take at most 75 octets each; the pieces are not empty and put
    together they are the line. *)
Theorem foldLine_octets (line : jsstring) :
  codeUnits line = true ->
  exists first more,
    foldLine line = folded (first :: more) /\
    concat (first :: more) = line /\
    byteLength first <= 75 /\
    Forall (fun p => p <> [] /\ byteLength (sp :: p) <= 75) more.
Proof. apply foldLine_pieces. Qed.

Lemma foldLine_octets_witness :
  exists first more,
    foldLine (str "NOTE:" ++ repeat 233 80) = folded (first :: more) /\
    concat (first :: more) = str "NOTE:" ++ repeat 233 80 /\
    byteLength first <= 75 /\
    Forall (fun p => p <> [] /\ byteLength (sp :: p) <= 75) more.
Proof.
  apply (foldLine_octets (str "NOTE:" ++ repeat 233 80)). reflexivity.
Defined.

(** Where [takeSegment] cuts, no surrogate pair is cut: the octets of the
    two sides add up. *)
Lemma takeSegment_bytes rest :
  forall maxBytes octetCount,
    codeUnits rest = true ->
    byteLength (fst (takeSegment maxBytes octetCount rest))
    + byteLength (snd (takeSegment maxBytes octetCount rest))
    = byteLength rest.
Proof.
  assert (H : forall n rest, (List.length rest <= n)%nat ->
              forall m o, codeUnits rest = true ->
                byteLength (fst (takeSegment m o rest))
                + byteLength (snd (takeSegment m o rest))
                = byteLength rest).
  { induction n as [|n IH]; intros [|c t] Hn m o Hu; try reflexivity.
    - cbn in Hn. lia.
    - cbn [takeSegment]. cbn in Hn.
      apply codeUnits_cons in Hu as [Hc Ht].
      destruct (_ >? m) eqn:E; [reflexivity|].
      destruct t as [|d t']; [cbn [fst snd byteLength]; lia|].
      destruct (isHighSurrogate c && isLowSurrogate d) eqn:Hp.
      + rewrite (codePointAt_pair c d t' Hp).
        apply codeUnits_cons in Ht as [Hd Ht'].
        specialize (IH t' ltac:(cbn in Hn; lia) m (o + 4) Ht').
        destruct (takeSegment m (o + 4) t') as [seg remaining].
        cbn [fst snd] in *. cbn [byteLength]. rewrite Hp. lia.
      + rewrite (codePointAt_single c (d :: t') Hc Hp) in *.
        replace (c >? 65535) with false in * by lia.
        set (charBytes := if c >? 2047 then 3 else if c >? 127 then 2 else 1)
          in *.
        specialize (IH (d :: t') ltac:(cbn in *; lia) m (o + charBytes) Ht).
        pose proof (takeSegment_app (d :: t') m (o + charBytes)) as Happ.
        destruct (takeSegment m (o + charBytes) (d :: t'))
          as [seg remaining].
        cbn [fst snd] in *.
        assert (Hb : byteLength (c :: seg)
                     = byteLength [c] + byteLength seg).
        { destruct seg as [|x seg']; [cbn; lia|].
          cbn in Happ. injection Happ as -> _.
          cbn [byteLength]. now rewrite Hp. }
        rewrite Hb. cbn [byteLength] in *. rewrite Hp. lia. }
  intros m o. now apply (H (List.length rest)).
Qed.

(** With room for four octets the first character always fits. *)
Lemma takeSegment_progress maxBytes c t :
  4 <= maxBytes -> fst (takeSegment maxBytes 0 (c :: t)) <> [].
Proof.
  intros Hm. cbn [takeSegment].
  replace (0 + _ >? maxBytes) with false.
  - destruct t as [|d t']; [discriminate|].
    destruct (codePointAt c (d :: t') >? 65535);
      destruct (takeSegment maxBytes _ _); discriminate.
  - destruct (codePointAt c t >? 65535), (codePointAt c t >? 2047),
      (codePointAt c t >? 127); lia.
Qed.

Lemma foldParts_bytes fuel :
  forall maxBytes rest,
    codeUnits rest = true -> 4 <= maxBytes ->
    (List.length rest <= fuel)%nat ->
    octetsOf (foldParts fuel maxBytes rest) = byteLength rest.
Proof.
  induction fuel as [|fuel IH]; intros m [|c t] Hu Hm Hn; try reflexivity.
  - cbn in Hn. lia.
  - cbn [foldParts]. cbn in Hn.
    pose proof (takeSegment_bytes (c :: t) m 0 Hu) as Hb.
    pose proof (takeSegment_app (c :: t) m 0) as Happ.
    pose proof (takeSegment_progress m c t Hm) as Hp.
    destruct (takeSegment m 0 (c :: t)) as [[|x seg] remaining];
      cbn [fst snd] in *; [congruence|].
    cbn [octetsOf fold_right]. fold (octetsOf (foldParts fuel 74 remaining)).
    change (MAX_LINE_OCTETS - 1) with 74.
    rewrite IH; [exact Hb| |lia|].
    + rewrite <- Happ in Hu. now apply codeUnits_app in Hu as [_ Hr].
    + apply (f_equal (@List.length Z)) in Happ. cbn in Happ.
      rewrite length_app in Happ. lia.
Qed.

(** X26. Folding cuts between characters: the octets of the pieces that
    [foldLine] writes add up to the octets of the line, so no surrogate
    pair, the one character of two code units and four octets, is ever
    cut in two by a line break. *)
Theorem foldLine_whole_characters (line : jsstring) :
  codeUnits line = true ->
  exists parts,
    foldLine line = folded parts /\ concat parts = line /\
    octetsOf parts = byteLength line.
Proof.
  intros Hu. unfold foldLine.
  destruct (byteLength line <=? MAX_LINE_OCTETS).
  - exists [line]. repeat split; cbn; [apply app_nil_r|lia].
  - exists (foldParts (List.length line) MAX_LINE_OCTETS line).
    repeat split.
    + now apply foldParts_concat.
    + apply foldParts_bytes; auto. cbv. discriminate.
Qed.

Lemma foldLine_whole_characters_witness :
  exists parts,
    foldLine (repeat 65 73 ++ concat (repeat [0xD83D; 0xDE00] 20))
    = folded parts /\
    concat parts = repeat 65 73 ++ concat (repeat [0xD83D; 0xDE00] 20) /\
    octetsOf parts
    = byteLength (repeat 65 73 ++ concat (repeat [0xD83D; 0xDE00] 20)).
Proof.
  apply (foldLine_whole_characters
           (repeat 65 73 ++ concat (repeat [0xD83D; 0xDE00] 20))).
  reflexivity.
Defined.

End FoldBound.

(** ** The order of the properties in the output *)

Module OrderFacts.
Import Generator.

Section Ordering.

Context {P : Type} `{PropertyLike P}.

Lemma insertOrdered_perm (prop : P) sorted :
  Permutation (prop :: sorted) (insertOrdered prop sorted).
Proof.
  induction sorted as [|q r IH]; cbn [insertOrdered]; [reflexivity|].
  destruct (_ <=? _); [reflexivity|].
  rewrite perm_swap. now constructor.
Qed.

Lemma insertOrdered_sorted (prop : P) sorted :
  StronglySorted (fun a b => rank a <= rank b) sorted ->
  StronglySorted (fun a b => rank a <= rank b) (insertOrdered prop sorted).
Proof.
  induction 1 as [|q r Hr IH Hq]; cbn [insertOrdered].
  - repeat constructor.
  - fold (rank prop). fold (rank q).
    destruct (rank prop <=? rank q) eqn:E.
    + constructor; [now constructor|].
      constructor; [lia|].
      rewrite Forall_forall in *. intros x Hx. specialize (Hq x Hx). lia.
    + constructor; [assumption|].
      rewrite Forall_forall in *. intros x Hx.
      apply (Permutation_in _ (Permutation_sym (insertOrdered_perm prop r)))
        in Hx.
      destruct Hx as [<-|Hx]; [lia|now apply Hq].
Qed.

Lemma insertOrdered_filter (prop : P) sorted r :
  filter (fun p => rank p =? r) (insertOrdered prop sorted)
  = filter (fun p => rank p =? r) (prop :: sorted).
Proof.
  induction sorted as [|q l IH]; cbn [insertOrdered]; [reflexivity|].
  fold (rank prop). fold (rank q).
  destruct (rank prop <=? rank q) eqn:E; [reflexivity|].
  cbn [filter] in *. rewrite IH.
  destruct (rank prop =? r) eqn:Ep, (rank q =? r) eqn:Eq; try reflexivity.
  lia.
Qed.

Lemma orderProperties_perm (properties : list P) :
  Permutation properties (orderProperties properties).
Proof.
  unfold orderProperties.
  induction properties as [|p ps IH]; cbn [fold_right]; [constructor|].
  rewrite <- insertOrdered_perm. now constructor.
Qed.

Lemma orderProperties_sorted (properties : list P) :
  StronglySorted (fun a b => rank a <= rank b) (orderProperties properties).
Proof.
  unfold orderProperties.
  induction properties as [|p ps IH]; cbn [fold_right]; [constructor|].
  now apply insertOrdered_sorted.
Qed.

Lemma orderProperties_filter (properties : list P) r :
  filter (fun p => rank p =? r) (orderProperties properties)
  = filter (fun p => rank p =? r) properties.
Proof.
  unfold orderProperties.
  induction properties as [|p ps IH]; cbn [fold_right]; [reflexivity|].
  rewrite insertOrdered_filter. cbn [filter]. now rewrite IH.
Qed.

(** X12. [orderProperties] rearranges the properties, puts them in
    ascending rank, and keeps the properties of one rank in the order they
    had: the sort is stable. *)
Theorem orderProperties_stable (properties : list P) :
  Permutation properties (orderProperties properties) /\
  StronglySorted (fun a b => rank a <= rank b) (orderProperties properties) /\
  forall r, filter (fun p => rank p =? r) (orderProperties properties)
            = filter (fun p => rank p =? r) properties.
Proof.
  split; [apply orderProperties_perm|].
  split; [apply orderProperties_sorted|apply orderProperties_filter].
Qed.

End Ordering.

(** A note, two telephones and a name come out as name, telephones, note,
    the telephones in their original order. *)
Example orderProperties_example :
  orderProperties
    [TextProperty (str "NOTE") (str "n") [] None;
     UnknownProperty (str "TEL") (str "1") [] None;
     UnknownProperty (str "TEL") (str "2") [] None;
     TextProperty (str "FN") (str "A") [] None]
  = [TextProperty (str "FN") (str "A") [] None;
     UnknownProperty (str "TEL") (str "1") [] None;
     UnknownProperty (str "TEL") (str "2") [] None;
     TextProperty (str "NOTE") (str "n") [] None].
Proof. reflexivity. Qed.

End OrderFacts.

(** ** Unfolding: the lines returned *)

Module UnfoldFacts.
Import Parser FoldFacts.

Lemma replace2_erase_incl p s : incl (replace2 p (fun _ _ => []) s) s.
Proof.
  assert (H : forall n s, (List.length s <= n)%nat ->
                          incl (replace2 p (fun _ _ => []) s) s).
  { induction n as [|n IH]; intros [|c t] Hn; try apply incl_refl.
    - cbn in Hn. lia.
    - cbn in Hn. destruct t as [|d t']; [apply incl_refl|].
      destruct (p c d) eqn:E.
      + rewrite replace2_hit by assumption.
        cbn [app]. apply incl_tl, incl_tl, IH. cbn in Hn. lia.
      + rewrite replace2_miss by assumption.
        apply incl_cons; [now left|].
        apply incl_tl, IH. cbn in *. lia. }
  now apply (H (List.length s)).
Qed.

Lemma replaceChar_gone c r s :
  ~ In c r -> ~ In c (replaceChar c r s).
Proof.
  intros Hr. induction s as [|x s IH]; [intros []|].
  rewrite replaceChar_cons. intros Hin.
  apply in_app_or in Hin as [Hin|Hin]; [|now apply IH].
  destruct (Z.eqb_spec x c) as [->|Hx]; [now apply Hr|].
  destruct Hin as [->|[]]. now apply Hx.
Qed.

Lemma unfoldText_no_cr input : ~ In cr (unfoldText input).
Proof.
  unfold unfoldText. intros Hin.
  apply replace2_erase_incl in Hin.
  revert Hin. apply replaceChar_gone. cbn. intros [H|[]]. discriminate H.
Qed.

Lemma split_pieces c s :
  Forall (fun piece => ~ In c piece /\ incl piece s) (split c s).
Proof.
  induction s as [|x s IH]; cbn [split].
  - constructor; [split; [intros []|apply incl_refl]|constructor].
  - destruct (Z.eqb_spec x c) as [->|Hx].
    + constructor; [split; [intros []|intros ? []]|].
      eapply Forall_impl; [|exact IH].
      intros piece [Hc Hi]. split; [assumption|now apply incl_tl].
    + destruct (split c s) as [|h r] eqn:E.
      * constructor; [split|constructor].
        -- intros [H|[]]. congruence.
        -- intros y [<-|[]]. now left.
      * inversion IH as [|? ? [Hh Hi] Hr]; subst. constructor.
        -- split; [intros [H|H]; [congruence|now apply Hh]|].
           intros y [<-|Hy]; [now left|right; now apply Hi].
        -- eapply Forall_impl; [|exact Hr].
           intros piece [Hc Hi']. split; [assumption|now apply incl_tl].
Qed.

Lemma singleLine_spec s :
  singleLine s = true <-> ~ In cr s /\ ~ In lf s.
Proof.
  unfold singleLine. rewrite forallb_forall. split.
  - intros Hs. split; intros Hin; specialize (Hs _ Hin); discriminate Hs.
  - intros [Hc Hl] x Hx.
    destruct (Z.eqb_spec x cr) as [->|_]; [contradiction|].
    destruct (Z.eqb_spec x lf) as [->|_]; [contradiction|reflexivity].
Qed.

(** X13. Whatever the input, no line that [unfoldLines] returns is empty,
    and none holds a carriage return or a line feed. *)
Theorem unfoldLines_lines (input : jsstring) :
  Forall (fun line => line <> [] /\ singleLine line = true)
         (unfoldLines input).
Proof.
  unfold unfoldLines. fold (unfoldText input).
  rewrite Forall_forall. intros line Hin.
  apply filter_In in Hin as [Hin Hlen].
  pose proof (split_pieces lf (unfoldText input)) as Hp.
  rewrite Forall_forall in Hp. destruct (Hp line Hin) as [Hlf Hincl].
  split.
  - intros ->. discriminate Hlen.
  - apply singleLine_spec. split; [|assumption].
    intros Hcr. apply Hincl in Hcr. now apply unfoldText_no_cr in Hcr.
Qed.

Lemma textLine_spec l :
  textLine l = true ->
  singleLine l = true /\
  exists h t, l = h :: t /\ h <> cr /\ h <> lf /\ h <> sp /\ h <> tab.
Proof.
  unfold textLine. intros Hl. apply andb_true_iff in Hl as [Hs Hh].
  split; [assumption|]. destruct l as [|h t]; [discriminate|].
  exists h, t. apply singleLine_cons in Hs as (Hcr & Hlf & _).
  apply negb_true_iff, orb_false_iff in Hh as [H1 H2].
  repeat split; auto; lia.
Qed.

Lemma unfoldText_lineEnd e rest :
  lineEnd e = true -> lineStart rest ->
  unfoldText (e ++ rest) = lf :: unfoldText rest.
Proof.
  intros He Hr. unfold lineEnd in He.
  assert (Hcases : e = [cr; lf] \/ e = [lf] \/ e = [cr]).
  { apply orb_true_iff in He as [He|He];
      [apply orb_true_iff in He as [He|He]|];
      apply ParamFacts.eqs_eq in He; auto. }
  destruct rest as [|h t].
  - destruct Hcases as [->|[->| ->]]; reflexivity.
  - destruct Hr as (Hcr & Hlf & Hsp & Htab).
    assert (H1 : forall d, (h =? cr) && (d =? lf) = false)
      by (intros d; apply andb_false_iff; left; lia).
    assert (H3 : (lf =? lf) && ((h =? sp) || (h =? tab)) = false)
      by (apply andb_false_iff; right; apply orb_false_iff; lia).
    assert (Hh : (h =? cr) = false) by lia.
    assert (Hl : (h =? lf) = false) by lia.
    unfold unfoldText.
    rewrite (replace2_skip _ _ h t H1).
    rewrite (replaceChar_cons cr [lf] h), Hh. cbn [app].
    destruct Hcases as [->|[->| ->]]; cbn [app].
    + rewrite replace2_hit by reflexivity. cbn [app].
      rewrite (replace2_skip _ _ h t H1).
      rewrite !replaceChar_cons, Hh. cbn [app Z.eqb lf cr Pos.eqb].
      now rewrite replace2_miss by exact H3.
    + rewrite replace2_skip by reflexivity.
      rewrite (replace2_skip _ _ h t H1).
      rewrite !replaceChar_cons, Hh. cbn [app Z.eqb lf cr Pos.eqb].
      now rewrite replace2_miss by exact H3.
    + rewrite replace2_miss
        by (apply andb_false_iff; right; exact Hl).
      rewrite (replace2_skip _ _ h t H1).
      rewrite !replaceChar_cons, Hh. cbn [app Z.eqb lf cr Pos.eqb].
      now rewrite replace2_miss by exact H3.
Qed.

Lemma split_first_line s rest :
  singleLine s = true -> split lf (s ++ lf :: rest) = s :: split lf rest.
Proof.
  induction s as [|c s IH]; intros Hs; [reflexivity|].
  apply singleLine_cons in Hs as (_ & Hlf & Hs).
  cbn [app split]. rewrite IH by assumption.
  apply Z.eqb_neq in Hlf. now rewrite Hlf.
Qed.

Lemma split_last_line s :
  singleLine s = true -> split lf s = [s].
Proof.
  induction s as [|c s IH]; intros Hs; [reflexivity|].
  apply singleLine_cons in Hs as (_ & Hlf & Hs).
  cbn [split]. rewrite IH by assumption.
  apply Z.eqb_neq in Hlf. now rewrite Hlf.
Qed.

Lemma unfoldLines_cons l e rest :
  textLine l = true -> lineEnd e = true -> lineStart rest ->
  unfoldLines (l ++ e ++ rest) = l :: unfoldLines rest.
Proof.
  intros Hl He Hr. apply textLine_spec in Hl as (Hs & h & t & -> & _).
  unfold unfoldLines. fold (unfoldText ((h :: t) ++ e ++ rest)).
  fold (unfoldText rest).
  rewrite unfoldText_prefix, unfoldText_lineEnd by assumption.
  now rewrite split_first_line by assumption.
Qed.

Lemma unfoldLines_last l :
  textLine l = true -> unfoldLines l = [l].
Proof.
  intros Hl. apply textLine_spec in Hl as (Hs & h & t & -> & _).
  unfold unfoldLines. fold (unfoldText (h :: t)).
  rewrite <- (app_nil_r (h :: t)) at 1.
  rewrite unfoldText_prefix by assumption.
  change (unfoldText []) with (@nil Z). rewrite app_nil_r.
  now rewrite split_last_line by assumption.
Qed.

Lemma lineStart_textLine l rest :
  textLine l = true -> lineStart (l ++ rest).
Proof.
  intros Hl. apply textLine_spec in Hl as (_ & h & t & -> & H). exact H.
Qed.

Lemma unfoldLines_terminated (lines : list (jsstring * jsstring)) rest :
  forallb (fun le => textLine (fst le) && lineEnd (snd le)) lines = true ->
  lineStart rest ->
  lineStart (flat_map (fun le => fst le ++ snd le) lines ++ rest) /\
  unfoldLines (flat_map (fun le => fst le ++ snd le) lines ++ rest)
  = map fst lines ++ unfoldLines rest.
Proof.
  intros Hl Hr. induction lines as [|[l e] lines IH]; [now split|].
  cbn [forallb fst snd] in Hl.
  apply andb_true_iff in Hl as [Hle Hl].
  apply andb_true_iff in Hle as [Htl He].
  destruct (IH Hl) as [IHs IHu].
  cbn [flat_map map fst snd]. rewrite <- !app_assoc. split.
  - now apply lineStart_textLine.
  - rewrite unfoldLines_cons by assumption. cbn [app]. now rewrite IHu.
Qed.

(** X14. A text made of lines of text, each ended by CRLF, LF or CR in
    any mixture, unfolds to exactly these lines; so does the same text
    followed by a last line without a terminator. *)
Theorem unfoldLines_line_ends (lines : list (jsstring * jsstring)) :
  forallb (fun le => textLine (fst le) && lineEnd (snd le)) lines = true ->
  unfoldLines (flat_map (fun le => fst le ++ snd le) lines) = map fst lines
  /\ forall l,
       textLine l = true ->
       unfoldLines (flat_map (fun le => fst le ++ snd le) lines ++ l)
       = map fst lines ++ [l].
Proof.
  intros Hl. split.
  - destruct (unfoldLines_terminated lines [] Hl I) as [_ Hu].
    rewrite !app_nil_r in Hu. exact Hu.
  - intros l Htl.
    destruct (unfoldLines_terminated lines l Hl
                (eq_ind _ _ (lineStart_textLine l [] Htl) _ (app_nil_r l)))
      as [_ Hu].
    rewrite Hu. now rewrite unfoldLines_last.
Qed.

Lemma unfoldLines_line_ends_witness :
  unfoldLines (str "BEGIN:VCARD" ++ [cr; lf] ++ str "FN:A" ++ [lf]
               ++ str "END:VCARD" ++ [cr])
  = [str "BEGIN:VCARD"; str "FN:A"; str "END:VCARD"].
Proof.
  apply (unfoldLines_line_ends
           [(str "BEGIN:VCARD", [cr; lf]); (str "FN:A", [lf]);
            (str "END:VCARD", [cr])]).
  reflexivity.
Defined.

End UnfoldFacts.

(** ** The accessors of the parameters *)

Module AccessorFacts.
Import Setters JSFacts ParamFacts.

Lemma prop_params_withParams prop params :
  prop_params (withParams prop params) = params.
Proof. now destruct prop. Qed.

Lemma mapGet_mapDelete_same m k : mapGet (mapDelete m k) k = None.
Proof.
  unfold mapDelete.
  induction m as [|[k' v'] m IH]; [reflexivity|]. cbn.
  destruct (eqs k' k) eqn:E; cbn; [assumption|now rewrite E].
Qed.

Lemma mapGet_mapDelete_other m k k' :
  k <> k' -> mapGet (mapDelete m k) k' = mapGet m k'.
Proof.
  intros Hn. unfold mapDelete.
  induction m as [|[k0 v0] m IH]; [reflexivity|]. cbn.
  destruct (eqs k0 k) eqn:E; cbn.
  - apply eqs_eq in E. subst k0. now rewrite eqs_neq.
  - now rewrite IH.
Qed.

Lemma split_absent c s : ~ In c s -> split c s = [s].
Proof.
  induction s as [|x s IH]; intros Hn; [reflexivity|]. cbn [split].
  destruct (Z.eqb_spec x c) as [->|_]; [exfalso; apply Hn; now left|].
  rewrite IH; [reflexivity|]. intros H. apply Hn. now right.
Qed.

Lemma numberToString_nonempty z : numberToString (Num z) <> [].
Proof.
  unfold numberToString. destruct (Z.to_int z) as [u|u];
    cbn [NilZero.string_of_int]; [|now rewrite NumberFacts.str_String].
  unfold NilZero.string_of_uint.
  destruct u; try discriminate;
    cbn [NilEmpty.string_of_uint]; now rewrite NumberFacts.str_String.
Qed.

(** X15. The PREF accessors: after an integer that a JavaScript number
    holds exactly (at most 2^53 - 1 in absolute value, which [String]
    writes in plain decimal digits) is set, it is read back; after
    [undefined] or [NaN] is set the accessor gives [undefined]; and setting
    PREF changes no other parameter. *)
Theorem pref_set_pref (prop : PropertyObject) (n : Z) :
  safeInteger n = true ->
  pref (set_pref prop (Some (Num n))) = Some (Num n) /\
  pref (set_pref prop (Some NaN)) = None /\
  pref (set_pref prop None) = None /\
  forall value name,
    name <> str "PREF" ->
    mapGet (prop_params (set_pref prop value)) name
    = mapGet (prop_params prop) name.
Proof.
  intros _. unfold pref, set_pref. rewrite !prop_params_withParams.
  rewrite !mapGet_mapSet_same, mapGet_mapDelete_same.
  repeat split.
  - pose proof (numberToString_nonempty n) as Hne.
    destruct (numberToString (Num n)) as [|c v] eqn:E; [congruence|].
    rewrite <- E. now rewrite NumberFacts.parseInt10_numberToString.
  - intros value name Hn. rewrite prop_params_withParams.
    destruct value;
      [apply mapGet_mapSet_other|apply mapGet_mapDelete_other]; congruence.
Qed.

Lemma pref_set_pref_witness :
  pref (set_pref (TextProperty (str "EMAIL") (str "a@b.c")
                               [(str "PREF", Scalar (str "9"))] None)
                 (Some (Num 1)))
  = Some (Num 1).
Proof.
  apply (pref_set_pref (TextProperty (str "EMAIL") (str "a@b.c")
                                     [(str "PREF", Scalar (str "9"))] None) 1).
  reflexivity.
Defined.

Section TypeAccessor.

Variable toLowerCase : jsstring -> jsstring.
Hypothesis toLowerCase_ascii :
  forall s, isAscii s = true -> toLowerCase s = lowerAscii s.

Lemma typeValue_piece v :
  typeValue v = true ->
  map (fun x => trim (toLowerCase x)) (split comma v) = [v].
Proof.
  unfold typeValue. intros Hv.
  apply andb_true_iff in Hv as [Hv Ht].
  apply andb_true_iff in Hv as [Hv Hc].
  apply andb_true_iff in Hv as [Ha Hl].
  apply eqs_eq in Hl. apply negb_true_iff in Hc.
  rewrite split_absent.
  - cbn [map]. rewrite toLowerCase_ascii, Hl by assumption.
    now rewrite trim_trimmed.
  - intros Hin. apply not_true_iff_false in Hc. apply Hc.
    apply existsb_exists. exists comma. split; [assumption|reflexivity].
Qed.

Lemma typeValue_pieces values :
  forallb typeValue values = true ->
  flat_map (fun s => map (fun x => trim (toLowerCase x)) (split comma s))
           values
  = values.
Proof.
  induction values as [|v values IH]; [reflexivity|]. cbn [forallb flat_map].
  intros Hv. apply andb_true_iff in Hv as [Hv Hvs].
  now rewrite typeValue_piece, IH.
Qed.

(** X16. The TYPE accessors: after a list of lower-case values is set,
    the same list is read back, unless it is the list of the one empty
    value, which is read back as no value; setting TYPE changes no other
    parameter. *)
Theorem type_set_type (prop : PropertyObject) (values : list jsstring) :
  forallb typeValue values = true ->
  type toLowerCase (set_type prop values)
  = (if eqs (concat values) [] && (List.length values =? 1)%nat
     then [] else values)
  /\ forall name,
       name <> str "TYPE" ->
       mapGet (prop_params (set_type prop values)) name
       = mapGet (prop_params prop) name.
Proof.
  intros Hv. unfold type, set_type. rewrite !prop_params_withParams. split.
  - destruct values as [|v [|w values]].
    + now rewrite mapGet_mapDelete_same.
    + rewrite mapGet_mapSet_same. destruct v as [|c v]; [reflexivity|].
      cbn [forallb] in Hv. rewrite andb_true_r in Hv.
      now rewrite typeValue_piece.
    + rewrite mapGet_mapSet_same.
      replace (_ && _) with false
        by (cbn [List.length Nat.eqb]; now rewrite andb_false_r).
      now apply typeValue_pieces.
  - intros name Hn.
    destruct values as [|v [|w values]];
      [apply mapGet_mapDelete_other|apply mapGet_mapSet_other..]; congruence.
Qed.

End TypeAccessor.

Lemma type_set_type_witness :
  type lowerAscii
       (set_type (TextProperty (str "TEL") (str "1") [] None)
                 [str "work"; str "voice"])
  = [str "work"; str "voice"].
Proof.
  apply (type_set_type lowerAscii (fun s _ => eq_refl)
           (TextProperty (str "TEL") (str "1") [] None)
           [str "work"; str "voice"]).
  reflexivity.
Defined.

(** X17. The accessors [language], [altid] and [valueType]: what is set
    is read back, [undefined] removes the parameter, and no other
    parameter is changed. *)
Theorem string_accessors (prop : PropertyObject) (value : option jsstring) :
  language (set_language prop value) = value /\
  altid (set_altid prop value) = value /\
  valueType (set_valueType prop value) = value /\
  forall key name,
    name <> key ->
    mapGet (prop_params (setString key prop value)) name
    = mapGet (prop_params prop) name.
Proof.
  unfold language, altid, valueType, set_language, set_altid, set_valueType,
    setString.
  rewrite !prop_params_withParams.
  destruct value as [v|];
    rewrite ?mapGet_mapSet_same, ?mapGet_mapDelete_same;
    repeat split; intros key name Hn; rewrite prop_params_withParams;
    [apply mapGet_mapSet_other|apply mapGet_mapDelete_other]; congruence.
Qed.

End AccessorFacts.

(** ** Parameters: reading what was written *)

Module ParamRoundTrip.
Import Escape Generator Parser JSFacts ParamFacts EscapeFacts FoldFacts.

(** *** Quoting *)

Lemma unquote_quote v : unquoteParamValue (quoteParamValue v) = v.
Proof.
  unfold quoteParamValue.
  destruct (needsParamQuoting v) eqn:Hq; cbn [negb].
  - unfold unquoteParamValue. cbn [app].
    fold (escBackslash v). fold (escQuote (escBackslash v)).
    set (w := escQuote (escBackslash v)).
    rewrite startsWith_cons.
    change (dq :: w ++ [dq]) with ((dq :: w) ++ [dq]) at 1.
    rewrite endsWith_snoc. cbn [andb].
    replace (2 <=? len (dq :: w ++ [dq])) with true.
    2:{ symmetry. apply Z.leb_le. unfold len. cbn [List.length].
        rewrite length_app. cbn [List.length]. lia. }
    rewrite slice_inner. subst w.
    fold (unescQuote (escQuote (escBackslash v))).
    rewrite unescQuote_escQuote.
    apply unescBackslash_escBackslash.
  - unfold unquoteParamValue.
    now rewrite (needsParamQuoting_false_head v Hq).
Qed.

Lemma existsb_false_In {A} (f : A -> bool) l :
  existsb f l = false <-> forall x, In x l -> f x = false.
Proof.
  split.
  - intros He x Hx. destruct (f x) eqn:E; [|reflexivity].
    rewrite <- He. symmetry. apply existsb_exists. eauto.
  - intros Hf. destruct (existsb f l) eqn:E; [|reflexivity].
    apply existsb_exists in E as (x & Hx & Hfx). now rewrite Hf in Hfx.
Qed.

Lemma paramText_spec v :
  paramText v = true -> trimmed v = true /\ ~ In dq v.
Proof.
  unfold paramText. intros H. apply andb_true_iff in H as [Ht Hq].
  split; [assumption|]. apply negb_true_iff in Hq.
  intros Hin. rewrite existsb_false_In in Hq.
  specialize (Hq dq Hin). discriminate Hq.
Qed.

Lemma escBackslash_no_quote v : ~ In dq v -> ~ In dq (escBackslash v).
Proof.
  intros Hn Hin. unfold escBackslash, replaceChar in Hin.
  apply in_flat_map in Hin as (x & Hx & Hin).
  destruct (x =? bs).
  - destruct Hin as [H|[H|[]]]; discriminate H.
  - destruct Hin as [E|[]]. apply Hn. now rewrite <- E.
Qed.

(** What [quoteParamValue] gives for a text without a double quote. *)
Lemma quoteParamValue_cases v :
  ~ In dq v ->
  (needsParamQuoting v = false /\ quoteParamValue v = v /\ ~ In semi v
   /\ ~ In colon v)
  \/ (exists body, quoteParamValue v = dq :: body ++ [dq] /\ ~ In dq body).
Proof.
  intros Hq. unfold quoteParamValue.
  destruct (needsParamQuoting v) eqn:E; cbn [negb].
  - right. exists (escBackslash v). split.
    + cbn [app]. fold (escBackslash v).
      now rewrite (replaceChar_absent dq _ _ (escBackslash_no_quote v Hq)).
    + now apply escBackslash_no_quote.
  - left. unfold needsParamQuoting in E. rewrite existsb_false_In in E.
    repeat split; intros Hin; specialize (E _ Hin); discriminate E.
Qed.

Lemma trimmed_quoteParamValue v :
  paramText v = true -> trimmed (quoteParamValue v) = true.
Proof.
  intros Hv. apply paramText_spec in Hv as [Ht Hq].
  destruct (quoteParamValue_cases v Hq) as [(_ & -> & _)|(body & -> & _)];
    [assumption|].
  unfold trimmed.
  change (dq :: body ++ [dq]) with ((dq :: body) ++ [dq]).
  now rewrite last_last.
Qed.

(** *** Splitting at the semicolons outside quotes *)

Lemma splitParamLoop_inside p :
  ~ In dq p ->
  forall rest parts current,
    splitParamLoop (p ++ rest) parts current true
    = splitParamLoop rest parts (current ++ p) true.
Proof.
  induction p as [|c p IH]; intros Hq rest parts current.
  - now rewrite app_nil_r.
  - cbn [app splitParamLoop].
    destruct (Z.eqb_spec c dq) as [->|_]; [exfalso; apply Hq; now left|].
    rewrite andb_false_r. rewrite IH by (intros H; apply Hq; now right).
    now rewrite <- app_assoc.
Qed.

Lemma sealed_plain p : ~ In dq p -> ~ In semi p -> sealed p.
Proof.
  induction p as [|c p IH]; intros Hq Hs rest parts current.
  - now rewrite app_nil_r.
  - cbn [app splitParamLoop].
    destruct (Z.eqb_spec c dq) as [->|_]; [exfalso; apply Hq; now left|].
    destruct (Z.eqb_spec c semi) as [->|_]; [exfalso; apply Hs; now left|].
    cbn [andb].
    rewrite IH;
      [|intros H; apply Hq; now right|intros H; apply Hs; now right].
    now rewrite <- app_assoc.
Qed.

Lemma sealed_quoted body : ~ In dq body -> sealed (dq :: body ++ [dq]).
Proof.
  intros Hq rest parts current. cbn [app splitParamLoop].
  rewrite Z.eqb_refl. cbn [negb]. rewrite <- app_assoc.
  rewrite splitParamLoop_inside by assumption.
  cbn [app splitParamLoop]. rewrite Z.eqb_refl. cbn [negb].
  f_equal. rewrite <- !app_assoc. reflexivity.
Qed.

Lemma sealed_app p q : sealed p -> sealed q -> sealed (p ++ q).
Proof.
  intros Hp Hq rest parts current.
  now rewrite <- app_assoc, Hp, Hq, app_assoc.
Qed.

Lemma splitParamLoop_sealed p ps :
  forall parts,
    Forall (fun q => sealed q /\ q <> []) (p :: ps) ->
    splitParamLoop (join [semi] (p :: ps)) parts [] false
    = parts ++ p :: ps.
Proof.
  revert p. induction ps as [|q ps IH]; intros p parts Hs;
    inversion Hs as [|? ? [Hp Hne] Hps]; subst.
  - cbn [join]. rewrite <- (app_nil_r p) at 1. rewrite Hp.
    cbn [app splitParamLoop]. now destruct p.
  - change (join [semi] (p :: q :: ps))
      with (p ++ semi :: join [semi] (q :: ps)).
    rewrite Hp. cbn [app splitParamLoop].
    replace (semi =? dq) with false by reflexivity.
    rewrite Z.eqb_refl. cbn [andb negb].
    rewrite IH by assumption. now rewrite <- app_assoc.
Qed.

(** *** Tokens *)

Lemma isBareToken_chars k :
  isBareToken k = true ->
  k <> [] /\
  forall c, In c k ->
    (((65 <=? c) && (c <=? 90)) || isDigit c || (c =? dash)) = true.
Proof.
  unfold isBareToken. destruct k as [|c k]; [discriminate|].
  intros H. split; [discriminate|]. now apply forallb_forall.
Qed.

Lemma bareChar_facts c :
  (((65 <=? c) && (c <=? 90)) || isDigit c || (c =? dash)) = true ->
  isWhiteSpace c = false /\ c <> eqc /\ c <> semi /\ c <> dq /\ c <> colon
  /\ c <> dot /\ 0 <= c < 128 /\ ((97 <=? c) && (c <=? 122)) = false.
Proof.
  unfold isDigit, isWhiteSpace, dash, eqc, semi, dq, colon, dot. lia.
Qed.

Lemma isBareToken_facts k :
  isBareToken k = true ->
  trimmed k = true /\ isAscii k = true /\ upperAscii k = k
  /\ (forall c, In c k ->
        c <> eqc /\ c <> semi /\ c <> dq /\ c <> colon /\ c <> dot)
  /\ exists c t, k = c :: t /\ isWhiteSpace c = false.
Proof.
  intros Hk. apply isBareToken_chars in Hk as [Hne Hc].
  assert (Hf := fun c Hin => bareChar_facts c (Hc c Hin)).
  repeat split.
  - destruct k as [|c k]; [reflexivity|]. unfold trimmed.
    destruct (Hf c (or_introl eq_refl)) as (-> & _).
    assert (Hl : In (last (c :: k) 0) (c :: k)).
    { destruct (exists_last Hne) as (l & x & E). rewrite E.
      rewrite last_last. apply in_or_app. right. now left. }
    now destruct (Hf _ Hl) as (-> & _).
  - apply forallb_forall. intros c Hin.
    destruct (Hf c Hin) as (_ & _ & _ & _ & _ & _ & Ha & _). lia.
  - unfold upperAscii. rewrite <- (map_id k) at 2.
    apply map_ext_in. intros c Hin.
    now destruct (Hf c Hin) as (_ & _ & _ & _ & _ & _ & _ & ->).
  - now destruct (Hf c H) as (_ & ? & _).
  - now destruct (Hf c H) as (_ & _ & ? & _).
  - now destruct (Hf c H) as (_ & _ & _ & ? & _).
  - now destruct (Hf c H) as (_ & _ & _ & _ & ? & _).
  - now destruct (Hf c H) as (_ & _ & _ & _ & _ & ? & _).
  - destruct k as [|c t]; [congruence|]. exists c, t.
    split; [reflexivity|]. now destruct (Hf c (or_introl eq_refl)).
Qed.

Lemma isBareToken_absent k c :
  isBareToken k = true ->
  c = eqc \/ c = semi \/ c = dq \/ c = colon \/ c = dot -> ~ In c k.
Proof.
  intros Hk Hc Hin.
  destruct (isBareToken_facts k Hk) as (_ & _ & _ & Hf & _).
  destruct (Hf c Hin) as (? & ? & ? & ? & ?). intuition congruence.
Qed.

Lemma sealed_paramPart k v :
  isBareToken k = true -> paramText v = true ->
  sealed (paramPart k v) /\ paramPart k v <> [].
Proof.
  intros Hk Hv. apply paramText_spec in Hv as [_ Hq]. split.
  - unfold paramPart. apply sealed_app; [|apply sealed_app].
    + apply sealed_plain; apply isBareToken_absent; auto.
    + apply sealed_plain; intros [H|[]]; discriminate H.
    + destruct (quoteParamValue_cases v Hq)
        as [(_ & -> & Hs & _)|(body & -> & Hb)].
      * now apply sealed_plain.
      * now apply sealed_quoted.
  - unfold paramPart. destruct k; discriminate.
Qed.

(** *** One parameter *)

Lemma trimStart_snoc s c :
  isWhiteSpace c = false -> trimStart (s ++ [c]) <> [].
Proof.
  intros Hc. induction s as [|x s IH]; cbn [app trimStart].
  - rewrite Hc. discriminate.
  - destruct (isWhiteSpace x); [assumption|discriminate].
Qed.

Lemma trim_nonempty c s :
  isWhiteSpace c = false -> trim (c :: s) <> [].
Proof.
  intros Hc. unfold trim. rewrite (trimStart_head c s Hc).
  cbn [rev]. intros H.
  apply (f_equal (@rev Z)) in H. rewrite rev_involutive in H.
  now apply (trimStart_snoc (rev s) c Hc).
Qed.

Lemma mapGet_None m k : mapGet m k = None <-> ~ In k (map fst m).
Proof.
  induction m as [|[k' v] m IH]; cbn; [tauto|].
  destruct (eqs k' k) eqn:E.
  - apply eqs_eq in E. split; [discriminate|]. intros H. exfalso. auto.
  - rewrite IH. split; [|tauto]. intros H [Hk|Hin]; [|contradiction].
    subst. now rewrite eqs_refl in E.
Qed.

Lemma mapSet_fresh m k v :
  mapGet m k = None -> mapSet m k v = m ++ [(k, v)].
Proof.
  induction m as [|[k' v'] m IH]; cbn; [reflexivity|].
  destruct (eqs k' k); [discriminate|]. intros H. now rewrite IH.
Qed.

Section Reading.

Variable toUpperCase toLowerCase : jsstring -> jsstring.
Hypothesis toUpperCase_ascii :
  forall s, isAscii s = true -> toUpperCase s = upperAscii s.

Lemma toUpperCase_token k : isBareToken k = true -> toUpperCase k = k.
Proof.
  intros Hk. destruct (isBareToken_facts k Hk) as (_ & Ha & Hu & _).
  now rewrite toUpperCase_ascii.
Qed.

Lemma parseParameter_paramPart map ws k v :
  isBareToken k = true -> paramText v = true -> mapGet map k = None ->
  parseParameter toUpperCase toLowerCase (map, ws) (paramPart k v)
  = (map ++ [(k, Scalar v)], ws).
Proof.
  intros Hk Hv Hfresh. unfold parseParameter.
  destruct (isBareToken_facts k Hk) as (Ht & _ & _ & _ & c & t & -> & Hc).
  pose proof (trim_nonempty c (t ++ [eqc] ++ quoteParamValue v) Hc) as Hne.
  unfold paramPart. cbn [app] in *.
  destruct (trim _) as [|x r] eqn:E; [congruence|]. clear E Hne.
  change (c :: t ++ eqc :: quoteParamValue v)
    with ((c :: t) ++ eqc :: quoteParamValue v).
  rewrite indexOf_first by (apply isBareToken_absent; auto).
  replace (len (c :: t) =? -1) with false
    by (pose proof (len_nonneg (c :: t)); lia).
  rewrite slice_prefix, sliceFrom_after.
  rewrite (trim_trimmed _ Ht), (toUpperCase_token _ Hk).
  rewrite (trim_trimmed _ (trimmed_quoteParamValue v Hv)), unquote_quote.
  unfold mergeParam. rewrite Hfresh. now rewrite mapSet_fresh.
Qed.

Lemma scalarParams_cons k pv params :
  scalarParams ((k, pv) :: params) = true ->
  exists v, pv = Scalar v /\ isBareToken k = true /\ paramText v = true
            /\ ~ In k (map fst params) /\ scalarParams params = true.
Proof.
  unfold scalarParams. cbn [forallb map fst snd distinct].
  intros H. apply andb_true_iff in H as [H Hd].
  apply andb_true_iff in H as [H Hall].
  apply andb_true_iff in H as [Hk Hv].
  apply andb_true_iff in Hd as [Hfresh Hd].
  destruct pv as [v|l]; [|discriminate]. exists v.
  repeat split; auto.
  - intros Hin. apply negb_true_iff in Hfresh.
    rewrite existsb_false_In in Hfresh. specialize (Hfresh k Hin).
    now rewrite eqs_refl in Hfresh.
  - now rewrite Hall, Hd.
Qed.

(** The parts that [serializeParameters] joins. *)
Lemma serializeParameters_parts params :
  scalarParams params = true ->
  exists parts,
    serializeParameters params = join [semi] parts /\
    Forall (fun q => sealed q /\ q <> []) parts /\
    forall map ws,
      (forall k, In k (List.map fst params) -> mapGet map k = None) ->
      fold_left (parseParameter toUpperCase toLowerCase) parts (map, ws)
      = (map ++ params, ws).
Proof.
  unfold serializeParameters.
  match goal with |- context [flat_map ?f _] => set (entryPart := f) end.
  intros Hp. exists (flat_map entryPart params).
  split; [reflexivity|].
  induction params as [|[k pv] params IH].
  - split; [constructor|].
    intros map ws _. cbn. now rewrite app_nil_r.
  - apply scalarParams_cons in Hp as (v & -> & Hk & Hv & Hfresh & Hp).
    destruct (IH Hp) as (Hs & Hfold).
    change (flat_map entryPart ((k, Scalar v) :: params))
      with (paramPart k v :: flat_map entryPart params).
    split.
    + constructor; [now apply sealed_paramPart|assumption].
    + intros map ws Hm. cbn [fold_left].
      rewrite parseParameter_paramPart; auto.
      2:{ apply Hm. now left. }
      rewrite Hfold; [now rewrite <- app_assoc|].
      intros k' Hin. apply mapGet_None. rewrite map_app, in_app_iff.
      intros [Hin'|[<-|[]]].
      * revert Hin'. apply mapGet_None. apply Hm. now right.
      * contradiction.
Qed.

Lemma parseParameters_fold paramStr ws :
  parseParameters toUpperCase toLowerCase paramStr ws
  = fold_left (parseParameter toUpperCase toLowerCase)
              (splitParamString paramStr) ([], ws).
Proof. now destruct paramStr. Qed.

Lemma parseParameters_serialized params ws :
  scalarParams params = true ->
  parseParameters toUpperCase toLowerCase (serializeParameters params) ws
  = (params, ws).
Proof.
  intros Hp. rewrite parseParameters_fold.
  destruct (serializeParameters_parts params Hp)
    as (parts & -> & Hs & Hfold).
  specialize (Hfold [] ws (fun _ _ => eq_refl)).
  unfold splitParamString. destruct parts as [|p ps].
  - exact Hfold.
  - rewrite splitParamLoop_sealed by assumption. exact Hfold.
Qed.

(** X18. Parameters are read back as written: for a map of distinct
    names, each a token in capital letters holding one text without a
    double quote and without white space at its ends, parsing what
    [serializeParameters] writes gives the same map, in the same order,
    and no warning.  Semicolons, colons and commas in a text are kept by the
    quotes. *)
Theorem parseParameters_serializeParameters
        (params : ParameterMap) (ws : list ParseWarning) :
  scalarParams params = true ->
  parseParameters toUpperCase toLowerCase (serializeParameters params) ws
  = (params, ws).
Proof. apply parseParameters_serialized. Qed.

End Reading.

Lemma parseParameters_serializeParameters_witness :
  parseParameters upperAscii lowerAscii
    (serializeParameters
       [(str "TYPE", Scalar (str "work"));
        (str "LABEL", Scalar (str "1 Main St; Springfield, IL: 62701"))]) []
  = ([(str "TYPE", Scalar (str "work"));
      (str "LABEL", Scalar (str "1 Main St; Springfield, IL: 62701"))], []).
Proof.
  apply (parseParameters_serializeParameters upperAscii lowerAscii
           (fun s _ => eq_refl)).
  reflexivity.
Defined.

End ParamRoundTrip.

(** ** Content lines: reading what was written *)

Module LineRoundTrip.
Import Escape Generator Parser JSFacts ParamFacts FoldFacts ParamRoundTrip.

(** *** Finding the colon *)

Lemma colonSealed_plain p : ~ In dq p -> ~ In colon p -> colonSealed p.
Proof.
  induction p as [|c p IH]; intros Hq Hc rest i.
  - cbn. f_equal. unfold len. cbn. lia.
  - cbn [app findColon].
    destruct (Z.eqb_spec c dq) as [->|_]; [exfalso; apply Hq; now left|].
    destruct (Z.eqb_spec c colon) as [->|_]; [exfalso; apply Hc; now left|].
    cbn [andb].
    rewrite IH;
      [|intros H; apply Hq; now right|intros H; apply Hc; now right].
    f_equal. unfold len. cbn [List.length]. lia.
Qed.

Lemma findColon_inside p :
  ~ In dq p ->
  forall rest i,
    findColon (p ++ rest) true i = findColon rest true (i + len p).
Proof.
  induction p as [|c p IH]; intros Hq rest i.
  - cbn. f_equal. unfold len. cbn. lia.
  - cbn [app findColon].
    destruct (Z.eqb_spec c dq) as [->|_]; [exfalso; apply Hq; now left|].
    rewrite andb_false_r. rewrite IH by (intros H; apply Hq; now right).
    f_equal. unfold len. cbn [List.length]. lia.
Qed.

Lemma colonSealed_quoted body :
  ~ In dq body -> colonSealed (dq :: body ++ [dq]).
Proof.
  intros Hq rest i. cbn [app findColon].
  rewrite Z.eqb_refl. cbn [negb]. rewrite <- app_assoc.
  rewrite findColon_inside by assumption.
  cbn [app findColon]. rewrite Z.eqb_refl. cbn [negb].
  f_equal. unfold len. cbn [List.length]. rewrite length_app.
  cbn [List.length]. lia.
Qed.

Lemma colonSealed_app p q :
  colonSealed p -> colonSealed q -> colonSealed (p ++ q).
Proof.
  intros Hp Hq rest i. rewrite <- app_assoc, Hp, Hq. f_equal.
  rewrite len_app. lia.
Qed.

Lemma colonSealed_paramPart k v :
  isBareToken k = true -> paramText v = true -> colonSealed (paramPart k v).
Proof.
  intros Hk Hv. apply paramText_spec in Hv as [_ Hq].
  unfold paramPart. apply colonSealed_app; [|apply colonSealed_app].
  - apply colonSealed_plain; apply isBareToken_absent; auto.
  - apply colonSealed_plain; intros [H|[]]; discriminate H.
  - destruct (quoteParamValue_cases v Hq)
      as [(_ & -> & _ & Hc)|(body & -> & Hb)].
    + now apply colonSealed_plain.
    + now apply colonSealed_quoted.
Qed.

Lemma colonSealed_join parts :
  Forall colonSealed parts -> colonSealed (join [semi] parts).
Proof.
  induction 1 as [|p parts Hp Hparts IH].
  - apply colonSealed_plain; intros [].
  - destruct parts as [|q parts]; [exact Hp|].
    change (join [semi] (p :: q :: parts))
      with (p ++ [semi] ++ join [semi] (q :: parts)).
    apply colonSealed_app; [assumption|].
    apply colonSealed_app; [|assumption].
    apply colonSealed_plain; intros [E|[]]; discriminate E.
Qed.

Lemma colonSealed_serializeParameters params :
  scalarParams params = true -> colonSealed (serializeParameters params).
Proof.
  intros Hp. unfold serializeParameters. apply colonSealed_join.
  induction params as [|[k pv] params IH]; [constructor|].
  apply scalarParams_cons in Hp
    as (v & -> & Hk & Hv & _ & Hp).
  cbn [flat_map snd fst app]. constructor; [|now apply IH].
  now apply colonSealed_paramPart.
Qed.

Lemma findColon_first p rest :
  colonSealed p -> findColon (p ++ colon :: rest) false 0 = len p.
Proof.
  intros Hp. rewrite Hp. cbn [findColon].
  replace (colon =? dq) with false by reflexivity.
  now rewrite Z.eqb_refl.
Qed.

(** *** Tokens *)

Lemma tokenChar_facts c :
  tokenChar c = true ->
  isWhiteSpace c = false /\ c <> semi /\ c <> dq /\ c <> colon /\ c <> dot
  /\ c <> cr /\ c <> lf /\ c <> sp /\ c <> tab /\ 0 <= c < 128.
Proof.
  unfold tokenChar, isDigit, isWhiteSpace, dash, semi, dq, colon, dot, cr, lf,
    sp, tab.
  lia.
Qed.

Lemma isToken_chars g :
  isToken g = true -> g <> [] /\ forall c, In c g -> tokenChar c = true.
Proof.
  unfold isToken. destruct g as [|c g]; [discriminate|].
  intros H. split; [discriminate|]. now apply forallb_forall.
Qed.

Lemma isBareToken_isToken k : isBareToken k = true -> isToken k = true.
Proof.
  intros Hk. apply isBareToken_chars in Hk as [Hne Hc].
  unfold isToken. destruct k as [|c k]; [congruence|].
  apply forallb_forall. intros x Hx. specialize (Hc x Hx).
  unfold tokenChar. unfold isDigit in *. lia.
Qed.

Lemma isToken_trimmed g : isToken g = true -> trimmed g = true.
Proof.
  intros Hg. apply isToken_chars in Hg as [Hne Hc].
  destruct g as [|c g]; [reflexivity|]. unfold trimmed.
  destruct (tokenChar_facts c (Hc c (or_introl eq_refl))) as (-> & _).
  assert (Hl : In (last (c :: g) 0) (c :: g)).
  { destruct (exists_last Hne) as (l & x & E). rewrite E.
    rewrite last_last. apply in_or_app. right. now left. }
  now destruct (tokenChar_facts _ (Hc _ Hl)) as (-> & _).
Qed.

Lemma isToken_absent g c :
  isToken g = true ->
  c = semi \/ c = dq \/ c = colon \/ c = dot \/ c = cr \/ c = lf ->
  ~ In c g.
Proof.
  intros Hg Hc Hin. apply isToken_chars in Hg as [_ Hg].
  destruct (tokenChar_facts c (Hg c Hin))
    as (_ & ? & ? & ? & ? & ? & ? & _).
  intuition congruence.
Qed.

Lemma join_nonempty sep p ps : p <> [] -> join sep (p :: ps) <> [].
Proof. destruct p, ps; cbn; congruence. Qed.

Section Reading.

Variable toUpperCase toLowerCase : jsstring -> jsstring.
Hypothesis toUpperCase_ascii :
  forall s, isAscii s = true -> toUpperCase s = upperAscii s.

Context {P : Type} `{PropertyLike P}.

(** The line without its value: [namePart] and [separator]. *)
Lemma contentLine_parts (prop : P) :
  wellNamed prop = true ->
  exists namePart separator,
    contentLine prop
    = (namePart ++ separator) ++ colon :: toContentLine prop /\
    colonSealed (namePart ++ separator) /\
    isToken (prop_name prop) = true /\
    namePart = match prop_group prop with
               | Some (c :: g) => (c :: g) ++ dot :: prop_name prop
               | _ => prop_name prop
               end /\
    match prop_group prop with
    | Some (c :: g) => isToken (c :: g) = true
    | _ => True
    end /\
    ((prop_params prop = [] /\ separator = [])
     \/ separator = semi :: serializeParameters (prop_params prop)) /\
    scalarParams (prop_params prop) = true.
Proof.
  unfold wellNamed, contentLine. intros Hw.
  apply andb_true_iff in Hw as [Hw Hp].
  apply andb_true_iff in Hw as [Hn Hg].
  pose proof (isBareToken_isToken _ Hn) as Hn'.
  eexists. eexists. split; [now rewrite <- app_assoc|].
  assert (Hname : colonSealed
                    match prop_group prop with
                    | Some (c :: g) => (c :: g) ++ [dot] ++ prop_name prop
                    | _ => prop_name prop
                    end).
  { assert (Hk : colonSealed (prop_name prop))
      by (apply colonSealed_plain; apply isToken_absent; auto).
    destruct (prop_group prop) as [[|c g]|]; try exact Hk.
    apply colonSealed_app; [|apply colonSealed_app; [|exact Hk]].
    - apply colonSealed_plain; apply isToken_absent; auto.
    - apply colonSealed_plain; intros [E|[]]; discriminate E. }
  repeat split; try assumption.
  - apply colonSealed_app; [exact Hname|].
    pose proof (colonSealed_serializeParameters _ Hp) as Hs.
    destruct (serializeParameters (prop_params prop)); [exact Hs|].
    apply colonSealed_app; [|exact Hs].
    apply colonSealed_plain; intros [E|[]]; discriminate E.
  - now destruct (prop_group prop) as [[|c g]|].
  - destruct (serializeParameters_parts toUpperCase toLowerCase
                toUpperCase_ascii _ Hp) as (parts & E & Hs & _).
    destruct (prop_params prop) as [|kv params] eqn:Ep.
    + left. split; reflexivity.
    + right. rewrite E.
      destruct parts as [|q parts].
      * exfalso. revert E. unfold serializeParameters.
        destruct kv as [k pv].
        apply scalarParams_cons in Hp
          as (v & -> & Hk & _).
        cbn [flat_map snd fst app].
        intros E. apply (join_nonempty [semi]) in E; [exact E|].
        unfold paramPart. destruct k; discriminate.
      * inversion Hs as [|? ? [_ Hq] _]; subst.
        pose proof (join_nonempty [semi] q parts Hq) as Hne.
        destruct (join [semi] (q :: parts)) eqn:Ej; [|reflexivity].
        exfalso. apply Hne. exact Ej.
Qed.

Lemma parseContentLine_contentLine (prop : P) ws :
  wellNamed prop = true ->
  parseContentLine toUpperCase toLowerCase (contentLine prop) ws
  = (Some (rawOf prop), ws).
Proof.
  intros Hw.
  destruct (contentLine_parts prop Hw)
    as (namePart & separator & -> & Hseal & Hn & Hnp & Hg & Hsep & Hp).
  unfold parseContentLine.
  rewrite (findColon_first _ _ Hseal).
  replace (len (namePart ++ separator) =? -1) with false
    by (pose proof (len_nonneg (namePart ++ separator)); lia).
  rewrite slice_prefix, sliceFrom_after.
  assert (Hsemi : ~ In semi namePart).
  { subst namePart. destruct (prop_group prop) as [[|c g]|];
      [apply isToken_absent; auto| |apply isToken_absent; auto].
    intros Hin. apply in_app_or in Hin as [Hin|[E|Hin]];
      [|discriminate E|]; revert Hin; apply isToken_absent; auto. }
  pose proof (isToken_trimmed _ Hn) as Htn.
  assert (Hup : toUpperCase (prop_name prop) = prop_name prop).
  { unfold wellNamed in Hw. apply andb_true_iff in Hw as [Hw _].
    apply andb_true_iff in Hw as [Hw _].
    now apply toUpperCase_token. }
  assert (Hne : prop_name prop <> []) by (now apply isToken_chars in Hn).
  assert (Hname :
    (if indexOf namePart dot =? -1 then None
     else Some (trim (slice namePart 0 (indexOf namePart dot))))
    = raw_group (rawOf prop) /\
    (if indexOf namePart dot =? -1 then toUpperCase (trim namePart)
     else toUpperCase (trim (sliceFrom namePart (indexOf namePart dot + 1))))
    = prop_name prop).
  { unfold rawOf. cbn [raw_group]. subst namePart.
    destruct (prop_group prop) as [[|c g]|].
    - rewrite indexOf_absent by (apply isToken_absent; auto).
      change (-1 =? -1) with true. cbv iota.
      now rewrite (trim_trimmed _ Htn), Hup.
    - rewrite indexOf_first by (apply isToken_absent; auto).
      replace (len (c :: g) =? -1) with false
        by (pose proof (len_nonneg (c :: g)); lia).
      rewrite slice_prefix, sliceFrom_after.
      now rewrite (trim_trimmed _ Htn), Hup,
        (trim_trimmed _ (isToken_trimmed _ Hg)).
    - rewrite indexOf_absent by (apply isToken_absent; auto).
      change (-1 =? -1) with true. cbv iota.
      now rewrite (trim_trimmed _ Htn), Hup. }
  destruct Hname as [Hgroup Hname].
  destruct Hsep as [[Ep ->]| ->].
  - rewrite app_nil_r, (indexOf_absent semi namePart Hsemi).
    change (-1 =? -1) with true. cbv iota. rewrite Hgroup, Hname.
    cbn [parseParameters]. unfold rawOf. rewrite Ep.
    now destruct (prop_name prop).
  - rewrite (indexOf_first semi namePart _ Hsemi).
    replace (len namePart =? -1) with false
      by (pose proof (len_nonneg namePart); lia).
    rewrite slice_prefix, sliceFrom_after. rewrite Hgroup, Hname.
    rewrite (parseParameters_serialized toUpperCase toLowerCase
               toUpperCase_ascii _ ws Hp).
    unfold rawOf. now destruct (prop_name prop).
Qed.

Lemma contentLine_nonempty (prop : P) :
  wellNamed prop = true -> contentLine prop <> [].
Proof.
  intros Hw.
  destruct (contentLine_parts prop Hw) as (n & s & -> & _).
  destruct (n ++ s); discriminate.
Qed.

Lemma unfoldLines_serializeProperty (prop : P) :
  wellNamed prop = true -> singleLine (contentLine prop) = true ->
  unfoldLines (serializeProperty prop) = [contentLine prop].
Proof.
  intros Hw Hs. pose proof (contentLine_nonempty prop Hw) as Hne.
  change (serializeProperty prop) with (foldLine (contentLine prop)).
  unfold foldLine.
  destruct (byteLength (contentLine prop) <=? MAX_LINE_OCTETS).
  - apply (unfoldLines_folded [contentLine prop]); auto. cbn.
    apply app_nil_r.
  - apply unfoldLines_folded; auto. now apply foldParts_concat.
Qed.

(** X19. A property is read back as written: when its name is a token in
    capital letters, its group a token, its parameters texts under
    distinct names, and the line it is written on has no line break, then
    unfolding what [serializeProperty] writes gives one line, and
    [parseContentLine] reads from it the group, the name, the parameters
    and the value, whatever the length of the line, and warns of
    nothing. *)
Theorem parseContentLine_serializeProperty
        (prop : P) (ws : list ParseWarning) :
  wellNamed prop = true -> singleLine (contentLine prop) = true ->
  map (fun line => parseContentLine toUpperCase toLowerCase line ws)
      (unfoldLines (serializeProperty prop))
  = [(Some (rawOf prop), ws)].
Proof.
  intros Hw Hs. rewrite unfoldLines_serializeProperty by assumption.
  cbn [map]. now rewrite parseContentLine_contentLine.
Qed.

End Reading.

Lemma parseContentLine_serializeProperty_witness :
  let prop :=
    TextProperty (str "NOTE") (repeat 233 90 ++ str "; done")
                 [(str "LANGUAGE", Scalar (str "fr"));
                  (str "X-A", Scalar (str "a:b;c"))]
                 (Some (str "item1")) in
  map (fun line => parseContentLine upperAscii lowerAscii line [])
      (unfoldLines (serializeProperty prop))
  = [(Some (rawOf prop), [])].
Proof.
  apply (parseContentLine_serializeProperty upperAscii lowerAscii
           (fun s _ => eq_refl)
           (TextProperty (str "NOTE") (repeat 233 90 ++ str "; done")
                         [(str "LANGUAGE", Scalar (str "fr"));
                          (str "X-A", Scalar (str "a:b;c"))]
                         (Some (str "item1")))).
  - reflexivity.
  - reflexivity.
Defined.

End LineRoundTrip.

(** ** Cards: reading what was written *)

Module CardRoundTrip.
Import Escape Generator Parser JSFacts ParamFacts FoldFacts UnfoldFacts.
Import ParamRoundTrip LineRoundTrip AssemblerFacts.

(** *** The lines of the text *)

Lemma unfoldText_folded_then parts rest :
  Forall (fun p => singleLine p = true) parts -> lineStart rest ->
  unfoldText (folded parts ++ rest) = concat parts ++ lf :: unfoldText rest.
Proof.
  intros Hs Hr. unfold folded.
  induction Hs as [|p parts Hp Hparts IH].
  - exact (unfoldText_lineEnd [cr; lf] rest eq_refl Hr).
  - destruct parts as [|q parts].
    + cbn [join concat]. rewrite app_nil_r, <- !app_assoc.
      rewrite unfoldText_prefix by assumption. f_equal.
      exact (unfoldText_lineEnd [cr; lf] rest eq_refl Hr).
    + change (join [cr; lf; sp] (p :: q :: parts))
        with (p ++ [cr; lf; sp] ++ join [cr; lf; sp] (q :: parts)).
      rewrite <- !app_assoc. rewrite unfoldText_prefix by assumption.
      rewrite unfoldText_fold. rewrite <- !app_assoc in IH. rewrite IH.
      cbn [concat]. now rewrite app_assoc.
Qed.

Lemma foldLine_folded line :
  exists parts,
    (foldLine line = folded parts /\ concat parts = line /\ ~ In [] parts)
    \/ (line = [] /\ parts = []).
Proof.
  unfold foldLine. destruct (byteLength line <=? MAX_LINE_OCTETS).
  - destruct line as [|c line].
    + exists []. right. split; reflexivity.
    + exists [c :: line]. left. repeat split.
      * cbn. now rewrite app_nil_r.
      * intros [E|[]]. discriminate E.
  - exists (foldParts (List.length line) MAX_LINE_OCTETS line). left.
    repeat split.
    + now apply foldParts_concat.
    + apply foldParts_nonempty.
Qed.

Lemma unfoldLines_foldLine_then line rest :
  textLine line = true -> lineStart rest ->
  unfoldLines (foldLine line ++ rest) = line :: unfoldLines rest /\
  lineStart (foldLine line ++ rest).
Proof.
  intros Hl Hr.
  pose proof (lineStart_textLine line [] Hl) as Hstart.
  rewrite app_nil_r in Hstart.
  apply textLine_spec in Hl as (Hs & h & t & -> & _).
  destruct (foldLine_folded (h :: t))
    as (parts & [(-> & Hc & Hne)|(E & _)]); [|discriminate E].
  split.
  - unfold unfoldLines. fold (unfoldText (folded parts ++ rest)).
    fold (unfoldText rest).
    rewrite unfoldText_folded_then; auto.
    2:{ eapply singleLine_concat; eauto. }
    rewrite Hc. now rewrite split_first_line by assumption.
  - destruct parts as [|[|x first] more].
    + discriminate Hc.
    + exfalso. apply Hne. now left.
    + cbn in Hc. injection Hc as -> _.
      unfold folded. destruct more; exact Hstart.
Qed.

Section Reading.

Variable toUpperCase toLowerCase : jsstring -> jsstring.
Hypothesis toUpperCase_ascii :
  forall s, isAscii s = true -> toUpperCase s = upperAscii s.
(** Upper-casing maps code point by code point, so an ASCII prefix is
    mapped on its own. *)
Hypothesis toUpperCase_prefix :
  forall a b, isAscii a = true ->
              toUpperCase (a ++ b) = upperAscii a ++ toUpperCase b.

Variable Property : Type.
Variable construct :
  jsstring -> jsstring -> ParameterMap -> option jsstring -> Property.

Context {P : Type} `{PropertyLike P}.

(** *** The first token of a line *)

Lemma token_unique U :
  forall U' d d' Y Y',
    Forall (fun c => tokenChar c = true) U ->
    Forall (fun c => tokenChar c = true) U' ->
    tokenChar d = false -> tokenChar d' = false ->
    U ++ d :: Y = U' ++ d' :: Y' -> U = U' /\ d = d'.
Proof.
  induction U as [|c U IH]; intros [|c' U'] d d' Y Y' HU HU' Hd Hd' E;
    cbn [app] in E; injection E as E1 E2.
  - now split.
  - subst d. inversion HU'; subst. congruence.
  - subst d'. inversion HU; subst. congruence.
  - subst c'. inversion HU; inversion HU'; subst.
    destruct (IH U' d d' Y Y') as [-> ->]; auto.
Qed.

Lemma startsWith_app s p : startsWith s p = true -> exists r, s = p ++ r.
Proof.
  revert s. induction p as [|x p IH]; intros s Hs.
  - now exists s.
  - destruct s as [|y s]; [discriminate|]. cbn [startsWith] in Hs.
    apply andb_true_iff in Hs as [Hx Hs]. apply Z.eqb_eq in Hx. subst y.
    destruct (IH s Hs) as [r ->]. now exists r.
Qed.

Lemma trimStart_until A d B :
  isWhiteSpace d = false -> exists W, trimStart (A ++ d :: B) = W ++ d :: B.
Proof.
  intros Hd. induction A as [|a A IH]; cbn [app trimStart].
  - rewrite Hd. now exists [].
  - destruct (isWhiteSpace a); [exact IH|]. now exists (a :: A).
Qed.

Lemma trim_token U d Y :
  isToken U = true -> isWhiteSpace d = false ->
  exists Z, trim (U ++ d :: Y) = U ++ d :: Z.
Proof.
  intros HU Hd. apply isToken_chars in HU as [Hne HU].
  destruct U as [|c U]; [congruence|].
  destruct (tokenChar_facts c (HU c (or_introl eq_refl))) as (Hc & _).
  unfold trim. cbn [app]. rewrite (trimStart_head c _ Hc).
  change (c :: U ++ d :: Y) with ((c :: U) ++ d :: Y).
  rewrite rev_app_distr. cbn [rev]. rewrite <- !app_assoc. cbn [app].
  destruct (trimStart_until (rev Y) d (rev U ++ [c]) Hd) as [W ->].
  exists (rev W). rewrite rev_app_distr. cbn [rev].
  rewrite rev_app_distr, rev_involutive. cbn [rev app].
  now rewrite <- !app_assoc.
Qed.

Lemma upperAscii_token U :
  isToken U = true -> isToken (upperAscii U) = true /\ isAscii U = true.
Proof.
  intros HU. apply isToken_chars in HU as [Hne HU]. split.
  - unfold isToken. destruct U as [|c U]; [congruence|].
    cbn [upperAscii map]. apply forallb_forall. intros x Hx.
    change (In x (map (fun c => if (97 <=? c) && (c <=? 122)
                                then c - 32 else c) (c :: U))) in Hx.
    apply in_map_iff in Hx as (y & <- & Hy). specialize (HU y Hy).
    unfold tokenChar, isDigit, dash in *.
    destruct ((97 <=? y) && (y <=? 122)) eqn:E; lia.
  - apply forallb_forall. intros x Hx.
    destruct (tokenChar_facts x (HU x Hx)) as (_ & _ & _ & _ & _ & _ & _
                                               & _ & _ & Ha).
    lia.
Qed.

Lemma delimited_not_marker line U d (T : jsstring) :
  delimited toUpperCase line U d -> isToken T = true ->
  (d = colon -> U <> T) ->
  forall rest, eqs (trim (toUpperCase line)) (T ++ colon :: rest) = false.
Proof.
  intros (Y & -> & HU & Hd & Hw) HT Hneq rest.
  apply eqs_neq. destruct (trim_token U d Y HU Hw) as [Z0 ->]. intros E.
  apply isToken_chars in HU as [_ HU]. apply isToken_chars in HT as [_ HT].
  apply token_unique in E as [E1 E2]; auto;
    try (apply Forall_forall; assumption).
  now apply Hneq.
Qed.

Lemma delimited_not_prefix line U d (T : jsstring) :
  delimited toUpperCase line U d -> isToken T = true ->
  (d = colon -> U <> T) ->
  startsWith (toUpperCase line) (T ++ [colon]) = false.
Proof.
  intros (Y & -> & HU & Hd & Hw) HT Hneq.
  destruct (startsWith _ _) eqn:E; [|reflexivity].
  apply startsWith_app in E as [r E]. rewrite <- app_assoc in E.
  apply isToken_chars in HU as [_ HU]. apply isToken_chars in HT as [_ HT].
  apply token_unique in E as [E1 E2]; auto;
    try (apply Forall_forall; assumption).
  now apply Hneq in E2.
Qed.

Lemma upper_delimiter T d X :
  isToken T = true -> d = dot \/ d = semi \/ d = colon ->
  delimited toUpperCase (T ++ d :: X) (upperAscii T) d.
Proof.
  intros HT Hd. destruct (upperAscii_token T HT) as [HU Ha].
  exists (toUpperCase X). repeat split; auto.
  - change (T ++ d :: X) with (T ++ [d] ++ X). rewrite app_assoc.
    rewrite toUpperCase_prefix.
    + unfold upperAscii. rewrite map_app, <- app_assoc. cbn [map app].
      now destruct Hd as [->|[->| ->]].
    + unfold isAscii in *. rewrite forallb_app, Ha.
      now destruct Hd as [->|[->| ->]].
  - now destruct Hd as [->|[->| ->]].
  - now destruct Hd as [->|[->| ->]].
Qed.

Lemma contentLine_delimited (prop : P) :
  wellNamed prop = true ->
  exists U d, delimited toUpperCase (contentLine prop) U d /\
              (d = colon -> U = prop_name prop).
Proof.
  intros Hw.
  destruct (contentLine_parts toUpperCase toLowerCase toUpperCase_ascii
              prop Hw)
    as (namePart & separator & -> & _ & Hn & -> & Hg & Hsep & _).
  assert (Hname : upperAscii (prop_name prop) = prop_name prop).
  { unfold wellNamed in Hw. apply andb_true_iff in Hw as [Hw _].
    apply andb_true_iff in Hw as [Hw _].
    now destruct (isBareToken_facts _ Hw) as (_ & _ & -> & _). }
  destruct (prop_group prop) as [[|c g]|].
  2:{ exists (upperAscii (c :: g)), dot. split; [|discriminate].
      rewrite <- !app_assoc. cbn [app].
      change (c :: g ++ dot :: ?X) with ((c :: g) ++ dot :: X).
      apply upper_delimiter; auto. }
  all: destruct Hsep as [[_ ->]| ->];
    [exists (upperAscii (prop_name prop)), colon; split; [|auto];
     rewrite app_nil_r; apply upper_delimiter; auto
    |exists (upperAscii (prop_name prop)), semi; split; [|discriminate];
     rewrite <- app_assoc; cbn [app]; apply upper_delimiter; auto].
Qed.

Lemma writable_spec (prop : P) :
  writable prop = true ->
  wellNamed prop = true /\ singleLine (contentLine prop) = true /\
  prop_name prop <> str "BEGIN" /\ prop_name prop <> str "END".
Proof.
  unfold writable. intros Hw.
  apply andb_true_iff in Hw as [Hw He].
  apply andb_true_iff in Hw as [Hw Hb].
  apply andb_true_iff in Hw as [Hw Hs].
  apply negb_true_iff in He, Hb.
  repeat split; auto; intros E; rewrite E in *; discriminate.
Qed.

Lemma contentLine_not_marker (prop : P) :
  writable prop = true ->
  isBeginMarker toUpperCase (contentLine prop) = false /\
  isEndMarker toUpperCase (contentLine prop) = false.
Proof.
  intros Hw. apply writable_spec in Hw as (Hw & _ & Hb & He).
  destruct (contentLine_delimited prop Hw) as (U & d & Hd & Hname).
  unfold isBeginMarker, isEndMarker. split.
  - apply (delimited_not_marker _ U d (str "BEGIN") Hd eq_refl);
      intros E; rewrite (Hname E); assumption.
  - apply (delimited_not_marker _ U d (str "END") Hd eq_refl);
      intros E; rewrite (Hname E); assumption.
Qed.

Lemma contentLine_not_version (prop : P) :
  wellNamed prop = true -> prop_name prop <> str "VERSION" ->
  startsWith (toUpperCase (contentLine prop)) (str "VERSION:") = false.
Proof.
  intros Hw Hv.
  destruct (contentLine_delimited prop Hw) as (U & d & Hd & Hname).
  apply (delimited_not_prefix _ U d (str "VERSION") Hd eq_refl).
  intros E. now rewrite (Hname E).
Qed.

Lemma contentLine_textLine (prop : P) :
  wellNamed prop = true -> singleLine (contentLine prop) = true ->
  textLine (contentLine prop) = true.
Proof.
  intros Hw Hs. unfold textLine. rewrite Hs. cbn [andb].
  destruct (contentLine_parts toUpperCase toLowerCase toUpperCase_ascii
              prop Hw)
    as (namePart & separator & -> & _ & Hn & -> & Hg & _).
  assert (Hhead : forall T X, isToken T = true ->
            match T ++ X with
            | c :: _ => negb ((c =? sp) || (c =? tab))
            | [] => false
            end = true).
  { intros T X HT. apply isToken_chars in HT as [Hne HT].
    destruct T as [|c T]; [congruence|]. cbn [app].
    destruct (tokenChar_facts c (HT c (or_introl eq_refl)))
      as (_ & _ & _ & _ & _ & _ & _ & Hsp & Htab & _).
    lia. }
  destruct (prop_group prop) as [[|c g]|]; rewrite <- !app_assoc;
    now apply Hhead.
Qed.

(** *** The block *)

Lemma parseBlockLine_contentLine (prop : P) version properties ws :
  wellNamed prop = true -> prop_name prop <> str "VERSION" ->
  exists ws',
    parseBlockLine toUpperCase toLowerCase construct
                   (version, properties, ws) (contentLine prop)
    = (version, properties ++ [instantiated construct prop], ws').
Proof.
  intros Hw Hv. unfold parseBlockLine.
  rewrite (contentLine_not_version prop Hw Hv).
  rewrite (parseContentLine_contentLine toUpperCase toLowerCase
             toUpperCase_ascii prop ws Hw).
  replace (eqs (raw_name (rawOf prop)) (str "VERSION")) with false
    by (symmetry; now apply eqs_neq).
  unfold instantiated.
  destruct (instantiateProperty construct (rawOf prop) ws) as [p ws'] eqn:E.
  exists ws'. f_equal. f_equal. f_equal.
  unfold instantiateProperty in *. now injection E as <- _.
Qed.

Lemma parseBlock_contentLines (props : list P) :
  forall version properties ws,
    Forall (fun p => wellNamed p = true /\ prop_name p <> str "VERSION")
           props ->
    exists ws',
      fold_left (parseBlockLine toUpperCase toLowerCase construct)
                (map contentLine props) (version, properties, ws)
      = (version, properties ++ map (instantiated construct) props, ws').
Proof.
  induction props as [|p props IH]; intros version properties ws Hp.
  - exists ws. cbn. now rewrite app_nil_r.
  - inversion Hp as [|? ? [Hw Hv] Hps]; subst. cbn [map fold_left].
    destruct (parseBlockLine_contentLine p version properties ws Hw Hv)
      as [ws1 ->].
    destruct (IH version (properties ++ [instantiated construct p]) ws1 Hps)
      as [ws2 ->].
    exists ws2. now rewrite <- app_assoc.
Qed.

(** *** The text *)

Lemma unfoldLines_properties (props : list P) rest :
  Forall (fun p => wellNamed p = true /\
                   singleLine (contentLine p) = true) props ->
  lineStart rest ->
  unfoldLines (flat_map serializeProperty props ++ rest)
  = map contentLine props ++ unfoldLines rest /\
  lineStart (flat_map serializeProperty props ++ rest).
Proof.
  intros Hp Hr. induction Hp as [|p props [Hw Hs] Hps [IHu IHs]];
    [now split|].
  cbn [flat_map map]. rewrite <- !app_assoc.
  change (serializeProperty p) with (foldLine (contentLine p)).
  destruct (unfoldLines_foldLine_then (contentLine p)
              (flat_map serializeProperty props ++ rest)
              (contentLine_textLine p Hw Hs) IHs) as [-> Hstart].
  split; [now rewrite IHu|exact Hstart].
Qed.

Lemma serializeVCard_text (properties : list P) options text :
  serializeVCard properties options = inr text ->
  text = str "BEGIN:VCARD" ++ [cr; lf] ++ str "VERSION:4.0" ++ [cr; lf]
         ++ flat_map serializeProperty (emitted properties)
         ++ str "END:VCARD" ++ [cr; lf].
Proof.
  unfold serializeVCard, emitted.
  destruct (match validate options with Some false => false | _ => true end);
    [destruct (validateForGeneration properties); [discriminate|]|];
    now intros [= <-].
Qed.

Lemma emitted_writable (properties : list P) :
  forallb writable properties = true ->
  Forall (fun p => writable p = true /\ prop_name p <> str "VERSION")
         (emitted properties).
Proof.
  intros Hw. apply Forall_forall. intros p Hp. unfold emitted in Hp.
  apply (Permutation_in _ (Permutation_sym
                              (OrderFacts.orderProperties_perm _))) in Hp.
  apply filter_In in Hp as [Hin Hv]. split.
  - rewrite forallb_forall in Hw. now apply Hw.
  - apply negb_true_iff in Hv. intros E. rewrite E in Hv. discriminate.
Qed.

Lemma parseVCardText_written (properties : list P) options text :
  forallb writable properties = true ->
  serializeVCard properties options = inr text ->
  exists ws,
    rawVCards (parseVCardText toUpperCase toLowerCase construct text)
    = [{| rv_version := str "4.0";
          rv_properties := map (instantiated construct) (emitted properties);
          rv_warnings := ws |}].
Proof.
  intros Hw Ht. apply serializeVCard_text in Ht. subst text.
  pose proof (emitted_writable properties Hw) as He.
  set (props := emitted properties) in *.
  assert (Hlines :
    unfoldLines (str "BEGIN:VCARD" ++ [cr; lf] ++ str "VERSION:4.0"
                 ++ [cr; lf] ++ flat_map serializeProperty props
                 ++ str "END:VCARD" ++ [cr; lf])
    = str "BEGIN:VCARD"
      :: (str "VERSION:4.0" :: map contentLine props) ++ [str "END:VCARD"]).
  { destruct (unfoldLines_properties props (str "END:VCARD" ++ [cr; lf]))
      as [Hu Hs].
    - eapply Forall_impl; [|exact He]. intros p [Hp _].
      now apply writable_spec in Hp as (? & ? & _).
    - cbv. repeat split; discriminate.
    - rewrite (unfoldLines_cons (str "BEGIN:VCARD") [cr; lf]);
        [|reflexivity|reflexivity|cbv; repeat split; discriminate].
      rewrite (unfoldLines_cons (str "VERSION:4.0") [cr; lf]);
        [|reflexivity|reflexivity|exact Hs].
      now rewrite Hu. }
  unfold parseVCardText. rewrite Hlines. clear Hlines.
  assert (Hbegin : isBeginMarker toUpperCase (str "BEGIN:VCARD") = true)
    by (unfold isBeginMarker; now rewrite toUpperCase_ascii).
  assert (Hend : isBeginMarker toUpperCase (str "END:VCARD") = false
                 /\ isEndMarker toUpperCase (str "END:VCARD") = true)
    by (unfold isBeginMarker, isEndMarker; now rewrite toUpperCase_ascii).
  assert (Hversion :
            isBeginMarker toUpperCase (str "VERSION:4.0") = false
            /\ isEndMarker toUpperCase (str "VERSION:4.0") = false)
    by (unfold isBeginMarker, isEndMarker; now rewrite toUpperCase_ascii).
  assert (Hopen :
    assembleLine toUpperCase toLowerCase construct 0 (str "BEGIN:VCARD")
      {| inVCard := false; currentLines := []; blocks := [];
         collected := [] |}
    = {| inVCard := true; currentLines := []; blocks := [];
         collected := [] |})
    by (unfold assembleLine; now rewrite Hbegin).
  assert (Hclose : forall i lines,
    assembleLine toUpperCase toLowerCase construct i (str "END:VCARD")
      {| inVCard := true; currentLines := lines; blocks := [];
         collected := [] |}
    = let card :=
        parseVCardBlock toUpperCase toLowerCase construct lines [] in
      {| inVCard := false; currentLines := []; blocks := [card];
         collected := rv_warnings card |}).
  { intros i lines. unfold assembleLine.
    destruct Hend as [-> ->]. reflexivity. }
  cbn [assemble]. rewrite Hopen, assemble_app.
  rewrite (assemble_body toUpperCase toLowerCase Property construct
             (str "VERSION:4.0" :: map contentLine props));
    [|reflexivity|].
  2:{ intros l [<-|Hl]; [exact Hversion|].
      apply in_map_iff in Hl as (p & <- & Hp).
      rewrite Forall_forall in He. destruct (He p Hp) as [Hwp _].
      now apply contentLine_not_marker. }
  cbn [assemble currentLines blocks collected app]. rewrite Hclose.
  cbv zeta. cbn [inVCard blocks rawVCards].
  unfold parseVCardBlock. cbn [fold_left].
  assert (Hv : parseBlockLine toUpperCase toLowerCase construct
                 (str "4.0", [], []) (str "VERSION:4.0")
               = (str "4.0", @nil Property, [])).
  { unfold parseBlockLine. now rewrite toUpperCase_ascii. }
  rewrite Hv.
  destruct (parseBlock_contentLines props (str "4.0") [] [])
    as [ws ->].
  { eapply Forall_impl; [|exact He]. intros p [Hp Hn].
    now apply writable_spec in Hp as (? & _). }
  exists ws. reflexivity.
Qed.

(** X20. A card is read back as written.  When every property can be
    written on a line of its own, parsing the text that [serializeVCard]
    returns gives exactly one card, of version 4.0, and its properties
    are what [instantiateProperty] makes of the group, name, parameters
    and value of the properties written, in the order of the output; no
    folding, line ending or marker gets in the way. *)
Theorem parseVCardText_serializeVCard
        (properties : list P) (options : GenerateOptions) (text : jsstring) :
  forallb writable properties = true ->
  serializeVCard properties options = inr text ->
  map (fun card => (rv_version card, rv_properties card))
      (rawVCards (parseVCardText toUpperCase toLowerCase construct text))
  = [(str "4.0", map (instantiated construct) (emitted properties))].
Proof.
  intros Hw Ht.
  destruct (parseVCardText_written properties options text Hw Ht)
    as [ws ->].
  reflexivity.
Qed.

End Reading.

Lemma parseVCardText_serializeVCard_witness :
  map (fun card => (rv_version card, rv_properties card))
      (rawVCards (parseVCardText upperAscii lowerAscii
                                 (Typed.constructTyped upperAscii)
                                 sampleText))
  = [(str "4.0",
      map (instantiated (Typed.constructTyped upperAscii))
          (emitted sampleCard))].
Proof.
  apply (parseVCardText_serializeVCard upperAscii lowerAscii
           (fun s _ => eq_refl) (fun a b _ => map_app _ a b)
           Typed.TypedProperty (Typed.constructTyped upperAscii) sampleCard
           {| validate := None |} sampleText).
  - reflexivity.
  - reflexivity.
Defined.

Section Objects.

Import Classes.

Variable toUpperCase toLowerCase : jsstring -> jsstring.
Hypothesis toUpperCase_ascii :
  forall s, isAscii s = true -> toUpperCase s = upperAscii s.
Hypothesis toUpperCase_prefix :
  forall a b, isAscii a = true ->
              toUpperCase (a ++ b) = upperAscii a ++ toUpperCase b.

(** The constructors of [instantiateProperty], known on the names of the
    typed properties and on the names of its [default] branch. *)
Variable construct :
  jsstring -> jsstring -> ParameterMap -> option jsstring -> TypedProperty.
Hypothesis construct_typed :
  forall name value params group,
    existsb (eqs name) typedNames = true
    \/ existsb (eqs name) knownNames = false ->
    construct name value params group
    = constructTyped toUpperCase name value params group.

Lemma typedNames_known name :
  existsb (eqs name) typedNames = true ->
  existsb (eqs name) knownNames = true.
Proof.
  intros Hn. apply existsb_exists in Hn as (x & Hx & E).
  apply eqs_eq in E. subst x.
  repeat (destruct Hx as [<-|Hx]; [reflexivity|]). destruct Hx.
Qed.

Lemma constructTyped_default name value params group :
  existsb (eqs name) knownNames = false ->
  constructTyped toUpperCase name value params group
  = Plain (UnknownProperty name value params group).
Proof.
  intros Hn. unfold constructTyped.
  assert (Ht : forall x, In x typedNames -> eqs name x = false).
  { intros x Hx. destruct (eqs name x) eqn:E; [|reflexivity].
    rewrite <- Hn. symmetry. apply typedNames_known.
    apply existsb_exists. now exists x. }
  assert (Hl : forall l, incl l typedNames -> existsb (eqs name) l = false).
  { intros l Hl. apply existsb_false_In. intros x Hx. apply Ht, Hl, Hx. }
  rewrite (Hl textNames), (Hl listNames);
    [|unfold typedNames; intros x Hx; apply in_or_app; right;
      apply in_or_app; now left
     |unfold typedNames; intros x Hx; apply in_or_app; now left].
  rewrite !Ht by (cbn; tauto). reflexivity.
Qed.

Lemma orEmptyName_full l :
  match l with [] => false | _ :: _ => true end = true -> orEmptyName l = l.
Proof. now destruct l. Qed.

Lemma filter_all {A} (f : A -> bool) l :
  forallb f l = true -> filter f l = l.
Proof.
  induction l as [|x l IH]; [reflexivity|]. cbn [forallb filter].
  intros H. apply andb_true_iff in H as [-> H]. now rewrite IH.
Qed.

Lemma instantiated_rebuilt (prop : TypedProperty) :
  rebuilt prop = true -> instantiated construct prop = prop.
Proof.
  unfold rebuilt, instantiated, instantiateProperty. intros Hr.
  apply andb_true_iff in Hr as [Hr Hq].
  apply andb_true_iff in Hr as [Hvalue Hg].
  apply negb_true_iff in Hq.
  cbn [raw_parameters raw_value raw_name raw_group rawOf fst].
  rewrite Hq.
  match goal with
  | |- construct _ _ _ ?g = _ =>
      replace g with (prop_group prop)
        by (now destruct (prop_group prop) as [[|c g']|])
  end.
  clear Hg Hq.
  destruct prop as [[name value params group|name raw params group]
                   |name values params group|value params group
                   |value params group|value params group
                   |value params group|value params group];
    cbn [prop_name prop_params prop_group toContentLine TypedProperty_like
         PropertyObject_like valueReadBack] in *.
  - rewrite construct_typed
      by (left; unfold typedNames; rewrite existsb_app, Hvalue;
          reflexivity).
    unfold constructTyped. rewrite Hvalue.
    now rewrite StructuredFacts.escapeText_flat,
      StructuredFacts.unescapeText_flat.
  - apply negb_true_iff in Hvalue.
    rewrite construct_typed by now right.
    now apply constructTyped_default.
  - apply andb_true_iff in Hvalue as [Hname Hvalues].
    rewrite construct_typed
      by (left; unfold typedNames; rewrite !existsb_app, Hname;
          now rewrite orb_true_r).
    unfold constructTyped.
    replace (existsb (eqs name) textNames) with false.
    2:{ apply existsb_exists in Hname as (x & Hx & E).
        apply eqs_eq in E. subst x.
        repeat (destruct Hx as [<-|Hx]; [reflexivity|]). destruct Hx. }
    rewrite Hname. f_equal.
    rewrite ClassFacts.TextListProperty_read. now apply orEmptyName_full.
  - rewrite construct_typed by (left; reflexivity).
    unfold constructTyped. cbn [existsb eqs textNames listNames map orb].
    change (eqs (str "N") (str "N")) with true. cbv iota.
    f_equal. rewrite ClassFacts.NProperty_read.
    cbn [forallb] in Hvalue.
    repeat (apply andb_true_iff in Hvalue as [?H Hvalue]).
    destruct value. cbn [familyNames givenNames additionalNames
                        honorificPrefixes honorificSuffixes] in *.
    now rewrite !orEmptyName_full.
  - rewrite construct_typed by (left; reflexivity).
    change (constructTyped toUpperCase (str "ADR")
              (AdrProperty_toContentLine value) params group)
      with (AdrP (AdrProperty_fromText (AdrProperty_toContentLine value))
                 params group).
    now rewrite ClassFacts.AdrProperty_read.
  - rewrite construct_typed by (left; reflexivity).
    change (constructTyped toUpperCase (str "ORG")
              (OrgProperty_toContentLine value) params group)
      with (OrgP (OrgProperty_fromText (OrgProperty_toContentLine value))
                 params group).
    rewrite ClassFacts.OrgProperty_read, (filter_all _ _ Hvalue).
    now destruct value.
  - apply andb_true_iff in Hvalue as [Hsex Hid].
    rewrite construct_typed by (left; reflexivity).
    change (constructTyped toUpperCase (str "GENDER")
              (GenderProperty_toContentLine value) params group)
      with (GenderP (GenderProperty_fromText toUpperCase
                       (GenderProperty_toContentLine value)) params group).
    rewrite (ClassFacts.GenderProperty_read toUpperCase toUpperCase_ascii).
    + destruct value as [s [[|c i]|]]; try reflexivity. discriminate Hid.
    + apply existsb_exists in Hsex as (x & Hx & E).
      apply eqs_eq in E. now subst x.
  - apply andb_true_iff in Hvalue as [Hsafe Hpid].
    apply negb_true_iff in Hpid.
    rewrite construct_typed by (left; reflexivity).
    change (constructTyped toUpperCase (str "CLIENTPIDMAP")
              (ClientPidMapProperty_toContentLine value) params group)
      with (ClientPidMapP
              (ClientPidMapProperty_fromText
                 (ClientPidMapProperty_toContentLine value)) params group).
    rewrite (ClassFacts.ClientPidMapProperty_read value Hsafe), Hpid.
    now destruct value.
Qed.

(** X21. Typed properties come back as the objects that were written.
    For a card of text properties (FN, EMAIL, TITLE, ROLE, NOTE, PRODID,
    KIND, XML), text lists (NICKNAME, CATEGORIES), N, ADR, ORG, GENDER and
    CLIENTPIDMAP objects and unknown properties, each writable on a line of
    its own and with a value that its class reads back, parsing the text
    that [serializeVCard] returns gives one card whose properties are the
    same objects, in the order of the output: escaping, quoting, folding
    and ordering are undone exactly. *)
Theorem parseVCardText_rebuilds
        (properties : list TypedProperty) (options : GenerateOptions)
        (text : jsstring) :
  forallb writable properties = true ->
  forallb rebuilt properties = true ->
  serializeVCard properties options = inr text ->
  map (fun card => rv_properties card)
      (rawVCards (parseVCardText toUpperCase toLowerCase construct text))
  = [emitted properties].
Proof.
  intros Hw Hr Ht.
  destruct (parseVCardText_written toUpperCase toLowerCase toUpperCase_ascii
              toUpperCase_prefix TypedProperty construct properties
              options text Hw Ht) as [ws ->].
  cbn [map rv_properties]. f_equal.
  rewrite <- (map_id (emitted properties)) at 2.
  apply map_ext_in. intros p Hp. apply instantiated_rebuilt.
  unfold emitted in Hp.
  apply (Permutation_in _ (Permutation_sym
                              (OrderFacts.orderProperties_perm _))) in Hp.
  apply filter_In in Hp as [Hin _].
  rewrite forallb_forall in Hr. now apply Hr.
Qed.

End Objects.

Lemma parseVCardText_rebuilds_witness :
  map (fun card => rv_properties card)
      (rawVCards (parseVCardText upperAscii lowerAscii
                                 (Typed.constructTyped upperAscii)
                                 sampleText))
  = [emitted sampleCard].
Proof.
  apply (parseVCardText_rebuilds upperAscii lowerAscii
           (fun s _ => eq_refl) (fun a b _ => map_app _ a b)
           (Typed.constructTyped upperAscii)
           (fun name value params group _ => eq_refl))
    with (options := {| validate := None |}).
  - reflexivity.
  - reflexivity.
  - reflexivity.
Defined.

End CardRoundTrip.

(** ** Several cards in one text *)

Module CardsRoundTrip.
Import Escape Generator Parser JSFacts ParamFacts FoldFacts UnfoldFacts.
Import ParamRoundTrip LineRoundTrip AssemblerFacts CardRoundTrip.

Section Reading.

Variable toUpperCase toLowerCase : jsstring -> jsstring.
Hypothesis toUpperCase_ascii :
  forall s, isAscii s = true -> toUpperCase s = upperAscii s.
Hypothesis toUpperCase_prefix :
  forall a b, isAscii a = true ->
              toUpperCase (a ++ b) = upperAscii a ++ toUpperCase b.

Variable Property : Type.
Variable construct :
  jsstring -> jsstring -> ParameterMap -> option jsstring -> Property.

Context {P : Type} `{PropertyLike P}.

#[local] Abbreviation runFrom := (assemble toUpperCase toLowerCase construct).

(** The lines of the text of one card. *)
Lemma unfoldLines_card (properties : list P) options text rest :
  forallb writable properties = true ->
  serializeVCard properties options = inr text ->
  lineStart rest ->
  unfoldLines (text ++ rest)
  = str "BEGIN:VCARD"
    :: (str "VERSION:4.0" :: map contentLine (emitted properties))
    ++ [str "END:VCARD"] ++ unfoldLines rest
  /\ lineStart (text ++ rest).
Proof.
  intros Hw Ht Hr. apply serializeVCard_text in Ht. subst text.
  pose proof (emitted_writable properties Hw) as He.
  split; [|cbv; repeat split; discriminate].
  destruct (unfoldLines_properties toUpperCase toLowerCase toUpperCase_ascii
              (emitted properties) (str "END:VCARD" ++ [cr; lf] ++ rest))
    as [Hu Hs].
  - eapply Forall_impl; [|exact He]. intros p [Hp _].
    now apply writable_spec in Hp as (? & ? & _).
  - cbv. repeat split; discriminate.
  - rewrite <- !app_assoc.
    rewrite (unfoldLines_cons (str "BEGIN:VCARD") [cr; lf]);
      [|reflexivity|reflexivity|cbv; repeat split; discriminate].
    rewrite (unfoldLines_cons (str "VERSION:4.0") [cr; lf]);
      [|reflexivity|reflexivity|exact Hs].
    rewrite Hu.
    rewrite (unfoldLines_cons (str "END:VCARD") [cr; lf] rest);
      [|reflexivity|reflexivity|exact Hr].
    reflexivity.
Qed.

(** What the lines of one card add to the blocks. *)
Lemma assemble_card (properties : list P) :
  forallb writable properties = true ->
  forall rest i st,
    inVCard st = false ->
    exists ws j,
      runFrom (str "BEGIN:VCARD"
               :: (str "VERSION:4.0" :: map contentLine (emitted properties))
               ++ [str "END:VCARD"] ++ rest) i st
      = runFrom rest j
          {| inVCard := false; currentLines := [];
             blocks := blocks st
                       ++ [{| rv_version := str "4.0";
                              rv_properties :=
                                map (instantiated construct)
                                    (emitted properties);
                              rv_warnings := ws |}];
             collected := collected st ++ ws |}.
Proof.
  intros Hw rest i st Hst.
  pose proof (emitted_writable properties Hw) as He.
  set (props := emitted properties) in *.
  assert (Hbegin : isBeginMarker toUpperCase (str "BEGIN:VCARD") = true)
    by (unfold isBeginMarker; now rewrite toUpperCase_ascii).
  assert (Hend : isBeginMarker toUpperCase (str "END:VCARD") = false
                 /\ isEndMarker toUpperCase (str "END:VCARD") = true)
    by (unfold isBeginMarker, isEndMarker; now rewrite toUpperCase_ascii).
  assert (Hversion :
            isBeginMarker toUpperCase (str "VERSION:4.0") = false
            /\ isEndMarker toUpperCase (str "VERSION:4.0") = false)
    by (unfold isBeginMarker, isEndMarker; now rewrite toUpperCase_ascii).
  assert (Hv : parseBlockLine toUpperCase toLowerCase construct
                 (str "4.0", [], []) (str "VERSION:4.0")
               = (str "4.0", @nil Property, [])).
  { unfold parseBlockLine. now rewrite toUpperCase_ascii. }
  destruct (parseBlock_contentLines toUpperCase toLowerCase
              toUpperCase_ascii toUpperCase_prefix Property construct
              props (str "4.0") [] [])
    as [ws Hblock].
  { eapply Forall_impl; [|exact He]. intros p [Hp Hn].
    now apply writable_spec in Hp as (? & _). }
  exists ws. eexists.
  cbn [assemble]. rewrite assemble_app.
  rewrite (assemble_body toUpperCase toLowerCase Property construct
             (str "VERSION:4.0" :: map contentLine props)).
  2:{ unfold assembleLine. now rewrite Hbegin. }
  2:{ intros l [<-|Hl]; [exact Hversion|].
      apply in_map_iff in Hl as (p & <- & Hp).
      rewrite Forall_forall in He. destruct (He p Hp) as [Hwp _].
      now apply (contentLine_not_marker toUpperCase toLowerCase
                   toUpperCase_ascii toUpperCase_prefix). }
  cbn [app assemble]. f_equal.
  unfold assembleLine at 1. destruct Hend as [-> ->].
  cbn [inVCard negb currentLines blocks collected].
  unfold assembleLine. rewrite Hbegin.
  cbn [inVCard currentLines blocks collected app].
  unfold parseVCardBlock. cbn [fold_left]. rewrite Hv, Hblock.
  reflexivity.
Qed.

Lemma parseVCardText_cards (cards : list (list P)) options texts :
  Forall (fun card => forallb writable card = true) cards ->
  Forall2 (fun card text => serializeVCard card options = inr text)
          cards texts ->
  map (fun card => (rv_version card, rv_properties card))
      (rawVCards (parseVCardText toUpperCase toLowerCase construct
                                 (concat texts)))
  = map (fun card =>
           (str "4.0", map (instantiated construct) (emitted card)))
        cards.
Proof.
  intros Hw Ht.
  assert (Hrun : forall i st,
    inVCard st = false ->
    exists st',
      runFrom (unfoldLines (concat texts)) i st = st' /\
      inVCard st' = false /\
      map (fun card => (rv_version card, rv_properties card)) (blocks st')
      = map (fun card => (rv_version card, rv_properties card)) (blocks st)
        ++ map (fun card =>
                  (str "4.0", map (instantiated construct) (emitted card)))
               cards).
  { assert (Hlines : lineStart (concat texts) /\
      forall i st, inVCard st = false ->
      exists st',
        runFrom (unfoldLines (concat texts)) i st = st' /\
        inVCard st' = false /\
        map (fun card => (rv_version card, rv_properties card)) (blocks st')
        = map (fun card => (rv_version card, rv_properties card))
              (blocks st)
          ++ map (fun card =>
                    (str "4.0",
                     map (instantiated construct) (emitted card)))
                 cards); [|tauto].
    induction Ht as [|card text cards texts Hcard Hrest IH].
    - split; [exact I|]. intros i st Hst. exists st.
      repeat split; auto. cbn. now rewrite app_nil_r.
    - inversion Hw as [|? ? Hwc Hwr]; subst.
      destruct (IH Hwr) as [Hstart IHrun].
      cbn [concat].
      destruct (unfoldLines_card card options text (concat texts)
                  Hwc Hcard Hstart) as [-> Hs].
      split; [exact Hs|]. intros i st Hst.
      destruct (assemble_card card Hwc (unfoldLines (concat texts)) i st Hst)
        as (ws & j & ->).
      destruct (IHrun j
                  {| inVCard := false; currentLines := [];
                     blocks := blocks st
                       ++ [{| rv_version := str "4.0";
                              rv_properties :=
                                map (instantiated construct) (emitted card);
                              rv_warnings := ws |}];
                     collected := collected st ++ ws |} eq_refl)
        as (st' & -> & Hin & Hb).
      exists st'. repeat split; auto. rewrite Hb.
      cbn [blocks map]. rewrite map_app. cbn [map rv_version rv_properties].
      now rewrite <- app_assoc. }
  unfold parseVCardText.
  destruct (Hrun 0 {| inVCard := false; currentLines := []; blocks := [];
                      collected := [] |} eq_refl) as (st' & -> & Hin & Hb).
  rewrite Hin. cbn [rawVCards]. exact Hb.
Qed.

(** X27. Several cards in one text are read back one by one.  When every
    property of every card is writable on a line of its own, parsing the
    texts that [serializeVCard] returns for the cards, put one after the
    other, gives as many cards in the same order, each of version 4.0 and
    with the properties that [instantiateProperty] makes of the properties
    written. *)
Theorem parseVCardText_serializeVCards
        (cards : list (list P)) (options : GenerateOptions)
        (texts : list jsstring) :
  Forall (fun card => forallb writable card = true) cards ->
  Forall2 (fun card text => serializeVCard card options = inr text)
          cards texts ->
  map (fun card => (rv_version card, rv_properties card))
      (rawVCards (parseVCardText toUpperCase toLowerCase construct
                                 (concat texts)))
  = map (fun card =>
           (str "4.0", map (instantiated construct) (emitted card)))
        cards.
Proof. apply parseVCardText_cards. Qed.

End Reading.

Lemma parseVCardText_serializeVCards_witness :
  map (fun card => (rv_version card, rv_properties card))
      (rawVCards (parseVCardText upperAscii lowerAscii
                                 (constructTyped upperAscii)
                                 (concat [sampleText; sampleText])))
  = map (fun card =>
           (str "4.0",
            map (instantiated (constructTyped upperAscii)) (emitted card)))
        [sampleCard; sampleCard].
Proof.
  apply (parseVCardText_serializeVCards upperAscii lowerAscii
           (fun s _ => eq_refl) (fun a b _ => map_app _ a b)
           TypedProperty (constructTyped upperAscii)
           [sampleCard; sampleCard] {| validate := None |}
           [sampleText; sampleText]).
  - repeat constructor.
  - repeat constructor.
Defined.

End CardsRoundTrip.

(** ** The physical lines of a card *)

Module OutputFacts.
Import Generator FoldFacts FoldBound CardRoundTrip.

Lemma physical_app a b : physical (a ++ b) = physical a ++ physical b.
Proof. unfold physical. apply flat_map_app. Qed.

Lemma folded_physical first more :
  folded (first :: more) = physical (first :: map (cons sp) more).
Proof.
  unfold folded, physical. revert first.
  induction more as [|p more IH]; intros first.
  - cbn. now rewrite app_nil_r.
  - change (join [cr; lf; sp] (first :: p :: more))
      with (first ++ [cr; lf; sp] ++ join [cr; lf; sp] (p :: more)).
    cbn [map flat_map]. rewrite <- !app_assoc. f_equal.
    specialize (IH p). cbn [map flat_map] in IH.
    cbn [app]. f_equal. f_equal.
    rewrite <- app_assoc in IH. cbn [app] in IH.
    change (sp :: join [cr; lf; sp] (p :: more) ++ [cr; lf])
      with ([sp] ++ (join [cr; lf; sp] (p :: more) ++ [cr; lf])).
    rewrite IH. reflexivity.
Qed.

Lemma foldLine_physical line :
  codeUnits line = true ->
  exists lines,
    foldLine line = physical lines /\
    Forall (fun l => byteLength l <= 75) lines.
Proof.
  intros Hu.
  destruct (foldLine_pieces line Hu) as (first & more & -> & _ & Hf & Hm).
  exists (first :: map (cons sp) more). split; [apply folded_physical|].
  constructor; [assumption|]. apply Forall_map.
  eapply Forall_impl; [|exact Hm]. now intros p [_ Hp].
Qed.

Section Writing.

Context {P : Type} `{PropertyLike P}.

Lemma properties_physical (props : list P) :
  Forall (fun p => codeUnits (contentLine p) = true) props ->
  exists lines,
    flat_map serializeProperty props = physical lines /\
    Forall (fun l => byteLength l <= 75) lines.
Proof.
  induction 1 as [|p props Hp Hps (lines & E & Hl)].
  - exists []. split; [reflexivity|constructor].
  - destruct (foldLine_physical (contentLine p) Hp) as (first & Ef & Hf).
    exists (first ++ lines). cbn [flat_map].
    change (serializeProperty p) with (foldLine (contentLine p)).
    rewrite Ef, E, physical_app. split; [reflexivity|].
    apply Forall_app. now split.
Qed.

(** X28. No physical line of a card is longer than 75 octets: the text
    that [serializeVCard] returns is a sequence of lines, each ended by
    CRLF and each of at most 75 octets, whatever the length of the names,
    parameters and values written. *)
Theorem serializeVCard_line_length
        (properties : list P) (options : GenerateOptions) (text : jsstring) :
  forallb (fun p => codeUnits (contentLine p)) properties = true ->
  serializeVCard properties options = inr text ->
  exists lines,
    text = physical lines /\ Forall (fun l => byteLength l <= 75) lines.
Proof.
  intros Hu Ht. apply serializeVCard_text in Ht. subst text.
  destruct (properties_physical (emitted properties))
    as (lines & E & Hl).
  { apply Forall_forall. intros p Hp. unfold emitted in Hp.
    apply (Permutation_in _ (Permutation_sym
                                (OrderFacts.orderProperties_perm _))) in Hp.
    apply filter_In in Hp as [Hin _].
    rewrite forallb_forall in Hu. now apply Hu. }
  exists ([str "BEGIN:VCARD"; str "VERSION:4.0"] ++ lines
          ++ [str "END:VCARD"]).
  split.
  - rewrite !physical_app, <- E. cbn [physical flat_map].
    rewrite !app_nil_r, <- !app_assoc. reflexivity.
  - apply Forall_app. split; [repeat constructor; cbv; discriminate|].
    apply Forall_app. split; [assumption|].
    repeat constructor. cbv. discriminate.
Qed.

End Writing.

Lemma serializeVCard_line_length_witness :
  exists lines,
    sampleText = physical lines /\
    Forall (fun l => byteLength l <= 75) lines.
Proof.
  apply (serializeVCard_line_length sampleCard {| validate := None |}
           sampleText).
  - reflexivity.
  - reflexivity.
Defined.

End OutputFacts.

(** ** Validation: the cards that are accepted *)

Module AcceptFacts.
Import Generator.

Section Acceptance.

Context {P : Type} `{PropertyLike P}.

Lemma firstError_None (check : P -> option Thrown) properties :
  firstError check properties = None
  <-> forallb (fun p => match check p with None => true | _ => false end)
              properties = true.
Proof.
  induction properties as [|p ps IH]; cbn [firstError forallb]; [tauto|].
  destruct (check p); cbn [andb]; [split; discriminate|exact IH].
Qed.

Lemma forallb_pointwise (f g : P -> bool) l :
  (forall x, f x = g x) -> forallb f l = forallb g l.
Proof.
  intros Hfg. induction l as [|x l IH]; [reflexivity|].
  cbn [forallb]. now rewrite Hfg, IH.
Qed.

Lemma prefError_accepted (prop : P) :
  match prefError prop with None => true | _ => false end
  = negb (prefOutOfRange prop).
Proof.
  unfold prefError, prefOutOfRange.
  destruct (pref prop) as [[|n]|]; try reflexivity.
  now destruct ((n <? 1) || (n >? 100)).
Qed.

Lemma genderError_accepted (prop : P) :
  match genderError prop with None => true | _ => false end
  = genderAccepted prop.
Proof.
  unfold genderError, genderAccepted.
  destruct (eqs (prop_name prop) (str "GENDER")); [|reflexivity].
  destruct (gender_sex prop) as [sex| |]; try reflexivity.
  now destruct (existsb (eqs sex) validSex).
Qed.

Lemma revError_accepted (prop : P) :
  match revError prop with None => true | _ => false end = revAccepted prop.
Proof.
  unfold revError, revAccepted.
  now destruct (eqs (prop_name prop) (str "REV") && rev_invalid_date prop).
Qed.

Lemma forallb_accepted (properties : list P) :
  forallb accepted properties
  = forallb (fun p => negb (prefOutOfRange p)) properties
    && forallb genderAccepted properties && forallb revAccepted properties.
Proof.
  induction properties as [|p ps IH]; [reflexivity|].
  cbn [forallb]. rewrite IH. unfold accepted.
  destruct (negb (prefOutOfRange p)), (genderAccepted p), (revAccepted p),
    (forallb (fun p => negb (prefOutOfRange p)) ps),
    (forallb genderAccepted ps); reflexivity.
Qed.

Lemma validateForGeneration_None (properties : list P) :
  validateForGeneration properties = None
  <-> existsb isFN properties = true /\ forallb accepted properties = true.
Proof.
  unfold validateForGeneration. rewrite forallb_accepted.
  assert (Hfn : filter (fun p => eqs (prop_name p) (str "FN")) properties = []
                <-> existsb isFN properties = false).
  { induction properties as [|q l IH]; cbn [filter existsb]; [tauto|].
    fold (isFN q). destruct (isFN q); cbn [orb]; [|exact IH].
    split; discriminate. }
  destruct (existsb isFN properties) eqn:Hyes.
  2:{ rewrite (proj2 Hfn eq_refl). split; [discriminate|intros [? _]].
      discriminate. }
  destruct (filter _ properties) eqn:Ef.
  - pose proof (proj1 Hfn eq_refl). discriminate.
  - clear Hfn.
    rewrite <- (forallb_pointwise _ _ properties prefError_accepted).
    rewrite <- (forallb_pointwise _ _ properties genderError_accepted).
    rewrite <- (forallb_pointwise _ _ properties revError_accepted).
    pose proof (firstError_None prefError properties) as Hp.
    pose proof (firstError_None genderError properties) as Hg.
    pose proof (firstError_None revError properties) as Hr.
    destruct (firstError prefError properties).
    { split; [discriminate|]. intros [_ Hall].
      apply andb_true_iff in Hall as [Hall _].
      apply andb_true_iff in Hall as [Hall _].
      apply Hp in Hall. discriminate. }
    rewrite (proj1 Hp eq_refl).
    destruct (firstError genderError properties).
    { split; [discriminate|]. intros [_ Hall].
      apply andb_true_iff in Hall as [Hall _].
      apply andb_true_iff in Hall as [_ Hall].
      apply Hg in Hall. discriminate. }
    rewrite (proj1 Hg eq_refl). cbn [andb]. rewrite Hr. tauto.
Qed.

(** X22. With validation enabled, [serializeVCard] returns a text exactly
    when the card has an FN property and every property is accepted: its
    PREF, if it reads as an integer, is between 1 and 100, a property named
    GENDER holds one of the six sex values, and a property named REV holds
    no invalid date.  In every other case it throws. *)
Theorem serializeVCard_accepts (properties : list P)
        (options : GenerateOptions) :
  validate options <> Some false ->
  (exists text, serializeVCard properties options = inr text)
  <-> existsb isFN properties = true /\ forallb accepted properties = true.
Proof.
  intros Hopt. rewrite <- validateForGeneration_None.
  unfold serializeVCard.
  replace (match validate options with Some false => false | _ => true end)
    with true by (destruct (validate options) as [[|]|]; congruence).
  destruct (validateForGeneration properties).
  - split; [intros [text E]; discriminate E|discriminate].
  - split; [reflexivity|]. intros _. eexists. reflexivity.
Qed.

End Acceptance.

Lemma serializeVCard_accepts_witness :
  (exists text, serializeVCard sampleCard {| validate := None |} = inr text)
  <-> existsb isFN sampleCard = true /\ forallb accepted sampleCard = true.
Proof.
  apply (serializeVCard_accepts sampleCard {| validate := None |}).
  discriminate.
Defined.

End AcceptFacts.

(** ** Quoted-printable: plain text and soft line breaks *)

Module PlainTextFacts.
Import Parser.

Lemma plainText_cons c s :
  plainText (c :: s) = true ->
  0 <= c < 128 /\ c <> eqc /\ plainText s = true.
Proof.
  unfold plainText. cbn [forallb]. intros H.
  apply andb_true_iff in H as [Hc Hs]. unfold eqc in *. repeat split;
    try assumption; lia.
Qed.

Lemma removeSoftBreaks_plain a rest :
  plainText a = true ->
  removeSoftBreaks (a ++ rest) = a ++ removeSoftBreaks rest.
Proof.
  induction a as [|c a IH]; intros Ha; [reflexivity|].
  apply plainText_cons in Ha as (_ & Hc & Ha).
  cbn [app]. rewrite <- IH by assumption.
  apply QuotedPrintableFacts.removeSoftBreaks_skip. exact Hc.
Qed.

Lemma removeSoftBreaks_crlf t :
  removeSoftBreaks ([eqc; cr; lf] ++ t) = removeSoftBreaks t.
Proof. reflexivity. Qed.

Lemma removeSoftBreaks_lf t :
  removeSoftBreaks ([eqc; lf] ++ t) = removeSoftBreaks t.
Proof. reflexivity. Qed.

Lemma collectBytes_plain a :
  plainText a = true -> collectBytes a = a.
Proof.
  induction a as [|c a IH]; intros Ha; [reflexivity|].
  apply plainText_cons in Ha as (Hr & Hc & Ha).
  cbn [collectBytes]. replace (c <? 128) with true by lia.
  replace (c =? eqc) with false by lia. cbn [andb].
  rewrite (IH Ha). now destruct a as [|h1 [|h2 t]].
Qed.

Lemma utf8ToString_plain a :
  plainText a = true -> utf8ToString a = a.
Proof.
  induction a as [|c a IH]; intros Ha; [reflexivity|].
  apply plainText_cons in Ha as (Hr & _ & Ha).
  cbn [utf8ToString]. replace (c <? 128) with true by lia.
  now rewrite IH.
Qed.

Lemma plainText_app a b :
  plainText a = true -> plainText b = true -> plainText (a ++ b) = true.
Proof. unfold plainText. intros Ha Hb. now rewrite forallb_app, Ha, Hb. Qed.

(** X23. Quoted-printable decoding leaves ASCII text without an equals
    sign as it is, and takes out a soft line break ([=] before CRLF or
    LF) between two such texts. *)
Theorem decodeQuotedPrintable_plain (a b : jsstring) :
  plainText a = true -> plainText b = true ->
  decodeQuotedPrintable a = a /\
  decodeQuotedPrintable (a ++ [eqc; cr; lf] ++ b) = a ++ b /\
  decodeQuotedPrintable (a ++ [eqc; lf] ++ b) = a ++ b.
Proof.
  intros Ha Hb. unfold decodeQuotedPrintable.
  assert (Hplain : forall s, plainText s = true -> removeSoftBreaks s = s).
  { intros s Hs. rewrite <- (app_nil_r s) at 1.
    rewrite removeSoftBreaks_plain by assumption. cbn. apply app_nil_r. }
  assert (Hdecode : forall s, plainText s = true ->
                      utf8ToString (collectBytes s) = s).
  { intros s Hs. now rewrite collectBytes_plain, utf8ToString_plain. }
  repeat split.
  - rewrite Hplain by assumption. now apply Hdecode.
  - rewrite removeSoftBreaks_plain, removeSoftBreaks_crlf by assumption.
    rewrite (Hplain b Hb). apply Hdecode. now apply plainText_app.
  - rewrite removeSoftBreaks_plain, removeSoftBreaks_lf by assumption.
    rewrite (Hplain b Hb). apply Hdecode. now apply plainText_app.
Qed.

Lemma decodeQuotedPrintable_plain_witness :
  decodeQuotedPrintable (str "1 Main") = str "1 Main" /\
  decodeQuotedPrintable (str "1 Main" ++ [eqc; cr; lf] ++ str " Street")
  = str "1 Main" ++ str " Street" /\
  decodeQuotedPrintable (str "1 Main" ++ [eqc; lf] ++ str " Street")
  = str "1 Main" ++ str " Street".
Proof.
  apply (decodeQuotedPrintable_plain (str "1 Main") (str " Street"));
    reflexivity.
Defined.

End PlainTextFacts.

(** ** Parameters without a name (vCard 3 style) *)

Module BareParamFacts.
Import Escape Generator Parser JSFacts ParamFacts ParamRoundTrip.
Import LineRoundTrip.

Lemma tokenChar_plain c :
  tokenChar c = true -> c <> eqc /\ c <> dq /\ c <> semi.
Proof. unfold tokenChar, isDigit, dash, eqc, dq, semi. lia. Qed.

Lemma isToken_sealed t : isToken t = true -> sealed t /\ t <> [].
Proof.
  intros Ht. apply isToken_chars in Ht as [Hne Ht]. split; [|assumption].
  apply sealed_plain; intros Hin; apply Ht, tokenChar_plain in Hin;
    intuition congruence.
Qed.

Lemma lowerAscii_upperAscii s : lowerAscii (upperAscii s) = lowerAscii s.
Proof.
  unfold lowerAscii, upperAscii. rewrite map_map. apply map_ext.
  intros c. destruct ((97 <=? c) && (c <=? 122)) eqn:E.
  - replace ((65 <=? c - 32) && (c - 32 <=? 90)) with true by lia.
    replace ((65 <=? c) && (c <=? 90)) with false by lia. lia.
  - reflexivity.
Qed.

Lemma isBareToken_upperAscii t :
  isToken t = true -> isBareToken (upperAscii t) = true.
Proof.
  intros Ht. apply isToken_chars in Ht as [Hne Ht].
  destruct t as [|c t]; [congruence|]. unfold isBareToken.
  cbn [upperAscii map]. apply forallb_forall. intros x Hx.
  change (In x (upperAscii (c :: t))) in Hx.
  apply in_map_iff in Hx as (y & <- & Hy). specialize (Ht y Hy).
  unfold tokenChar, isDigit, dash in *.
  destruct ((97 <=? y) && (y <=? 122)) eqn:E; lia.
Qed.

Lemma merged_snoc values v :
  values <> [] ->
  mergeParam [(str "TYPE", merged values)] (str "TYPE") v
  = [(str "TYPE", merged (values ++ [v]))].
Proof.
  intros Hne. destruct values as [|x [|y values]]; [congruence|..];
    reflexivity.
Qed.

Section Reading.

Variable toUpperCase toLowerCase : jsstring -> jsstring.
Hypothesis toUpperCase_ascii :
  forall s, isAscii s = true -> toUpperCase s = upperAscii s.
Hypothesis toLowerCase_ascii :
  forall s, isAscii s = true -> toLowerCase s = lowerAscii s.

Lemma parseParameter_bare map ws t :
  isToken t = true ->
  parseParameter toUpperCase toLowerCase (map, ws) t
  = (mergeParam map (str "TYPE") (lowerAscii t), ws).
Proof.
  intros Ht. unfold parseParameter.
  rewrite (trim_trimmed _ (isToken_trimmed _ Ht)).
  pose proof (isBareToken_upperAscii t Ht) as Hb.
  assert (Ha : isAscii t = true).
  { apply isToken_chars in Ht as [_ Ht]. apply forallb_forall.
    intros c Hc. specialize (Ht c Hc).
    unfold tokenChar, isDigit, dash in Ht. lia. }
  assert (Heq : indexOf t eqc = -1).
  { apply indexOf_absent. intros Hin. apply isToken_chars in Ht as [_ Ht].
    now apply Ht, tokenChar_plain in Hin. }
  rewrite Heq. change (-1 =? -1) with true. cbv iota.
  rewrite (toUpperCase_ascii t Ha), Hb.
  rewrite toLowerCase_ascii by (now apply isBareToken_facts).
  rewrite lowerAscii_upperAscii.
  apply isToken_chars in Ht as [Hne _]. now destruct t.
Qed.

Lemma parseParameters_bare_fold tokens :
  forallb isToken tokens = true ->
  forall values ws,
    values <> [] ->
    fold_left (parseParameter toUpperCase toLowerCase) tokens
              ([(str "TYPE", merged values)], ws)
    = ([(str "TYPE", merged (values ++ map lowerAscii tokens))], ws).
Proof.
  induction tokens as [|t tokens IH]; intros Ht values ws Hne.
  - cbn. now rewrite app_nil_r.
  - cbn [forallb] in Ht. apply andb_true_iff in Ht as [Ht Hts].
    cbn [fold_left map]. rewrite parseParameter_bare by assumption.
    rewrite merged_snoc by assumption.
    rewrite IH by (auto; now destruct values).
    now rewrite <- app_assoc.
Qed.

(** X24. Parameters written without a name, as vCard 3 does
    ([TEL;WORK;VOICE:...]), are collected under TYPE in lower case: for a
    non-empty list of tokens joined with semicolons, [parseParameters]
    returns the one parameter TYPE, holding the token if there is one and
    the array of the tokens in their order if there are several, and pushes
    no warning. *)
Theorem parseParameters_bare (tokens : list jsstring)
        (ws : list ParseWarning) :
  tokens <> [] -> forallb isToken tokens = true ->
  parseParameters toUpperCase toLowerCase (join [semi] tokens) ws
  = ([(str "TYPE", merged (map lowerAscii tokens))], ws).
Proof.
  intros Hne Ht. rewrite parseParameters_fold.
  destruct tokens as [|t tokens]; [congruence|].
  unfold splitParamString. rewrite splitParamLoop_sealed.
  2:{ apply Forall_forall. intros q Hq. apply isToken_sealed.
      rewrite forallb_forall in Ht. now apply Ht. }
  cbn [app fold_left]. cbn [forallb] in Ht.
  apply andb_true_iff in Ht as [Ht Hts].
  rewrite parseParameter_bare by assumption.
  change (mergeParam [] (str "TYPE") (lowerAscii t))
    with [(str "TYPE", merged [lowerAscii t])].
  rewrite parseParameters_bare_fold by (auto; discriminate).
  reflexivity.
Qed.

End Reading.

Lemma parseParameters_bare_witness :
  parseParameters upperAscii lowerAscii (str "WORK;voice;X-Pref") []
  = ([(str "TYPE", Multi [str "work"; str "voice"; str "x-pref"])], []).
Proof.
  apply (parseParameters_bare upperAscii lowerAscii
           (fun s _ => eq_refl) (fun s _ => eq_refl)
           [str "WORK"; str "voice"; str "X-Pref"] []).
  - discriminate.
  - reflexivity.
Defined.

End BareParamFacts.

(** ** Parameters with several values *)

Module MultiValueFacts.
Import Escape Generator Parser JSFacts ParamFacts ParamRoundTrip.
Import LineRoundTrip BareParamFacts Setters.

Lemma split_nonempty c s : split c s <> [].
Proof.
  destruct s as [|x s]; cbn [split]; [discriminate|].
  destruct (x =? c); [discriminate|]. destruct (split c s); discriminate.
Qed.

Lemma split_app c a b :
  split c (a ++ c :: b) = split c a ++ split c b.
Proof.
  induction a as [|x a IH]; cbn [app split].
  - rewrite Z.eqb_refl. reflexivity.
  - destruct (Z.eqb_spec x c) as [->|_]; [now rewrite IH|].
    rewrite IH. pose proof (split_nonempty c a).
    destruct (split c a); [congruence|reflexivity].
Qed.

Lemma split_joined c values :
  values <> [] -> split c (join [c] values) = flat_map (split c) values.
Proof.
  induction values as [|v values IH]; [congruence|]. intros _.
  destruct values as [|w values].
  - cbn. now rewrite app_nil_r.
  - change (join [c] (v :: w :: values))
      with (v ++ c :: join [c] (w :: values)).
    rewrite split_app, IH by discriminate. reflexivity.
Qed.

Lemma isToken_quoteParamValue v :
  isToken v = true -> quoteParamValue v = v.
Proof.
  intros Hv. unfold quoteParamValue.
  replace (needsParamQuoting v) with false; [reflexivity|].
  symmetry. apply existsb_false_In. intros c Hc.
  apply isToken_chars in Hv as [_ Hv]. specialize (Hv c Hc).
  unfold tokenChar, isDigit, dash, semi, colon, comma, dq in *. lia.
Qed.

(** Tokens joined by commas: no quote, no semicolon, no equals sign, and
    a token at either end. *)
Lemma joined_tokens values :
  values <> [] -> forallb isToken values = true ->
  (forall c, In c (join [comma] values) -> tokenChar c = true \/ c = comma)
  /\ trimmed (join [comma] values) = true
  /\ startsWith (join [comma] values) [dq] = false.
Proof.
  intros Hne Ht.
  assert (Hchars : forall c, In c (join [comma] values) ->
                             tokenChar c = true \/ c = comma).
  { clear Hne. induction values as [|v values IH]; [intros c []|].
    cbn [forallb] in Ht. apply andb_true_iff in Ht as [Hv Hvs].
    apply isToken_chars in Hv as [_ Hv].
    destruct values as [|w values]; [intros c Hc; left; now apply Hv|].
    change (join [comma] (v :: w :: values))
      with (v ++ comma :: join [comma] (w :: values)).
    intros c Hc. apply in_app_or in Hc as [Hc|[Hc|Hc]]; auto. }
  assert (Hws : forall c, tokenChar c = true \/ c = comma ->
                          isWhiteSpace c = false /\ c <> dq).
  { intros c [Hc| ->]; [|split; [reflexivity|discriminate]].
    destruct (tokenChar_facts c Hc) as (? & _ & ? & _). auto. }
  repeat split; [exact Hchars| |].
  - destruct (join [comma] values) as [|c s] eqn:E; [reflexivity|].
    unfold trimmed.
    destruct (Hws c (Hchars c (or_introl eq_refl))) as [-> _].
    assert (Hl : In (last (c :: s) 0) (c :: s)).
    { destruct (@exists_last _ (c :: s) ltac:(discriminate))
        as (l & x & E'). rewrite E'.
      rewrite last_last. apply in_or_app. right. now left. }
    now destruct (Hws _ (Hchars _ Hl)) as [-> _].
  - destruct (join [comma] values) as [|c s] eqn:E; [reflexivity|].
    destruct (Hws c (Hchars c (or_introl eq_refl))) as [_ Hq].
    cbn [startsWith]. replace (dq =? c) with false by lia. reflexivity.
Qed.

Section Reading.

Variable toUpperCase toLowerCase : jsstring -> jsstring.
Hypothesis toUpperCase_ascii :
  forall s, isAscii s = true -> toUpperCase s = upperAscii s.

Lemma parseParameters_joined k values ws :
  isBareToken k = true -> values <> [] -> forallb isToken values = true ->
  parseParameters toUpperCase toLowerCase
    (serializeParameters [(k, Multi values)]) ws
  = ([(k, Scalar (join [comma] values))], ws).
Proof.
  intros Hk Hne Ht.
  destruct (joined_tokens values Hne Ht) as (Hchars & Htrim & Hq).
  assert (Hpart : serializeParameters [(k, Multi values)]
                  = k ++ [eqc] ++ join [comma] values).
  { assert (Hmap : map quoteParamValue values = values).
    { rewrite <- (map_id values) at 2. apply map_ext_in.
      intros x Hx. apply isToken_quoteParamValue.
      rewrite forallb_forall in Ht. now apply Ht. }
    unfold serializeParameters. cbn [flat_map fst snd]. rewrite Hmap.
    destruct values as [|v values]; [congruence|].
    rewrite app_nil_r. reflexivity. }
  rewrite Hpart, parseParameters_fold. unfold splitParamString.
  assert (Hseal : sealed (k ++ [eqc] ++ join [comma] values)).
  { apply sealed_app; [|apply sealed_app].
    - apply sealed_plain; apply isBareToken_absent; auto.
    - apply sealed_plain; intros [E|[]]; discriminate E.
    - apply sealed_plain; intros Hin; apply Hchars in Hin as [Hc| Hc];
        try discriminate Hc;
        destruct (tokenChar_facts _ Hc) as (_ & ? & ? & _); congruence. }
  rewrite <- (app_nil_r (k ++ [eqc] ++ join [comma] values)), Hseal.
  destruct (isBareToken_facts k Hk) as (Hkt & _ & _ & _ & c & t & -> & Hc).
  cbn [app splitParamLoop fold_left]. unfold parseParameter.
  pose proof (trim_nonempty c (t ++ eqc :: join [comma] values) Hc) as Hn.
  destruct (trim _) as [|x r] eqn:E; [congruence|]. clear E Hn.
  change (c :: t ++ eqc :: join [comma] values)
    with ((c :: t) ++ eqc :: join [comma] values).
  rewrite indexOf_first by (apply isBareToken_absent; auto).
  replace (len (c :: t) =? -1) with false
    by (pose proof (len_nonneg (c :: t)); lia).
  rewrite slice_prefix, sliceFrom_after.
  rewrite (trim_trimmed _ Hkt),
    (toUpperCase_token toUpperCase toUpperCase_ascii _ Hk).
  rewrite (trim_trimmed _ Htrim).
  unfold unquoteParamValue. rewrite Hq. reflexivity.
Qed.

(** X29. An array of values is written as one text and read back as that
    text; the [type] getter gives the same list for both.  For a name that
    is a token in capital letters and a non-empty array of tokens,
    [parseParameters] applied to what [serializeParameters] writes returns
    the name with the one string of the values joined by commas; and for
    every array whose joined text is not empty, the [type] getter returns
    the same list for the array as for the joined text. *)
Theorem multi_value_round_trip (k : jsstring) (values : list jsstring)
        (ws : list ParseWarning) (prop : PropertyObject)
        (typeValues : list jsstring) :
  isBareToken k = true -> values <> [] -> forallb isToken values = true ->
  join [comma] typeValues <> [] ->
  parseParameters toUpperCase toLowerCase
    (serializeParameters [(k, Multi values)]) ws
  = ([(k, Scalar (join [comma] values))], ws)
  /\ type toLowerCase
          (withParams prop
             [(str "TYPE", Scalar (join [comma] typeValues))])
     = type toLowerCase
            (withParams prop [(str "TYPE", Multi typeValues)]).
Proof.
  intros Hk Hne Ht Hjoin. split; [now apply parseParameters_joined|].
  unfold type. rewrite !AccessorFacts.prop_params_withParams.
  cbn [mapGet]. change (eqs (str "TYPE") (str "TYPE")) with true. cbv iota.
  destruct (join [comma] typeValues) as [|c s] eqn:E; [congruence|].
  rewrite <- E. rewrite split_joined by (intros ->; discriminate E).
  clear. induction typeValues as [|v vs IH]; [reflexivity|].
  cbn [flat_map]. now rewrite map_app, IH.
Qed.

End Reading.

Lemma multi_value_round_trip_witness :
  parseParameters upperAscii lowerAscii
    (serializeParameters [(str "TYPE", Multi [str "work"; str "voice"])]) []
  = ([(str "TYPE", Scalar (str "work,voice"))], [])
  /\ type lowerAscii
          (withParams (UnknownProperty (str "TEL") (str "1") [] None)
             [(str "TYPE", Scalar (join [comma] [str "work"; str "voice"]))])
     = type lowerAscii
            (withParams (UnknownProperty (str "TEL") (str "1") [] None)
               [(str "TYPE", Multi [str "work"; str "voice"])]).
Proof.
  apply (multi_value_round_trip upperAscii lowerAscii (fun s _ => eq_refl)
           (str "TYPE") [str "work"; str "voice"] []
           (UnknownProperty (str "TEL") (str "1") [] None)
           [str "work"; str "voice"]).
  - reflexivity.
  - discriminate.
  - reflexivity.
  - discriminate.
Defined.

End MultiValueFacts.

(** ** Dates and times: reading what was written *)

Module DateRoundTrip.
Import DateTime JSFacts NumberFacts ParamFacts FoldFacts DateFacts.

Lemma parseDateAndOrTime_fields up value :
  parseDateAndOrTime up value
  = match value with
    | [] => None
    | _ =>
      let v := filter (fun c => negb (isWhiteSpace c)) value in
      let tIndex := indexOf (up v) 84 in
      let datePart := if tIndex =? -1 then v else slice v 0 tIndex in
      let timePart := if tIndex =? -1 then [] else sliceFrom v (tIndex + 1) in
      let '(year, month, day) := dateFields datePart in
      let '(hour, minute, second, utcOffset) := timeFields up timePart in
      Some {| year := year; month := month; day := day;
              hour := hour; minute := minute; second := second;
              utcOffset := utcOffset;
              hasTime := match timePart with [] => false | _ => true end |}
    end.
Proof. destruct value; reflexivity. Qed.

Lemma formatDateAndOrTime_texts dt :
  formatDateAndOrTime dt = dateText dt ++ timeText dt.
Proof. reflexivity. Qed.

(** *** Numbers in two and four digits *)

Lemma readsBack_range width hi n :
  forallb (readsBack width) (map Z.of_nat (seq 0 (Z.to_nat (hi + 1))))
  = true ->
  0 <= n <= hi -> readsBack width n = true.
Proof.
  intros Hall Hn. rewrite forallb_forall in Hall. apply Hall.
  apply in_map_iff. exists (Z.to_nat n). split; [lia|].
  apply in_seq. lia.
Qed.

Lemma readsBack_two n : 0 <= n <= 99 -> readsBack 2 n = true.
Proof. apply (readsBack_range 2 99). vm_compute. reflexivity. Qed.

Lemma readsBack_four n : 0 <= n <= 9999 -> readsBack 4 n = true.
Proof. apply (readsBack_range 4 9999). vm_compute. reflexivity. Qed.

Lemma readsBack_spec width n :
  readsBack width n = true ->
  List.length (padded width (Some (Num n))) = width /\
  forallb isDigit (padded width (Some (Num n))) = true /\
  parseInt10 (padded width (Some (Num n))) = Num n.
Proof.
  unfold readsBack. cbv zeta. intros H.
  apply andb_true_iff in H as [H Hp].
  apply andb_true_iff in H as [Hl Hd].
  apply Nat.eqb_eq in Hl. repeat split; auto.
  destruct (padded width (Some (Num n))); [discriminate|].
  destruct (parseInt10 _); [discriminate|]. f_equal. lia.
Qed.

Lemma padded_two o :
  upTo 99 o = true ->
  match o with
  | Some x =>
      exists a b, padded 2 o = [a; b] /\ isDigit a = true /\
                  isDigit b = true /\ parseInt10 [a; b] = x
  | None => padded 2 o = []
  end.
Proof.
  destruct o as [[|n]|]; [discriminate| |reflexivity]. cbn [upTo].
  intros Hn.
  destruct (readsBack_spec 2 n (readsBack_two n ltac:(lia)))
    as (Hl & Hd & Hp).
  destruct (padded 2 (Some (Num n))) as [|a [|b [|c t]]]; try discriminate.
  cbn [forallb] in Hd. apply andb_true_iff in Hd as [Ha Hd].
  apply andb_true_iff in Hd as [Hb _]. exists a, b. auto.
Qed.

Lemma padded_four o :
  upTo 9999 o = true ->
  match o with
  | Some x =>
      exists a b c d,
        padded 4 o = [a; b; c; d] /\ isDigit a = true /\ isDigit b = true /\
        isDigit c = true /\ isDigit d = true /\ parseInt10 [a; b; c; d] = x
  | None => padded 4 o = []
  end.
Proof.
  destruct o as [[|n]|]; [discriminate| |reflexivity]. cbn [upTo].
  intros Hn.
  destruct (readsBack_spec 4 n (readsBack_four n ltac:(lia)))
    as (Hl & Hd & Hp).
  destruct (padded 4 (Some (Num n))) as [|a [|b [|c [|d [|e t]]]]];
    try discriminate.
  cbn [forallb] in Hd. apply andb_true_iff in Hd as [Ha Hd].
  apply andb_true_iff in Hd as [Hb Hd].
  apply andb_true_iff in Hd as [Hc Hd].
  apply andb_true_iff in Hd as [Hd _]. exists a, b, c, d. auto 10.
Qed.

(** *** The characters of a stamp *)

Lemma stampChar_facts c :
  stampChar c = true \/ c = dash ->
  isWhiteSpace c = false /\ c <> 84 /\ 0 <= c < 128 /\
  ((97 <=? c) && (c <=? 122)) = false.
Proof.
  unfold stampChar, isDigit, isSign, isWhiteSpace, colon, dash. lia.
Qed.

Lemma stamp_filter s :
  Forall (fun c => stampChar c = true \/ c = dash \/ c = 84) s ->
  filter (fun c => negb (isWhiteSpace c)) s = s /\ isAscii s = true /\
  upperAscii s = s.
Proof.
  induction 1 as [|c s Hc Hs (IH1 & IH2 & IH3)]; [now repeat split|].
  assert (Hf : isWhiteSpace c = false /\ 0 <= c < 128 /\
               ((97 <=? c) && (c <=? 122)) = false).
  { destruct Hc as [Hc|[Hc|Hc]].
    - destruct (stampChar_facts c (or_introl Hc)) as (? & _ & ? & ?). auto.
    - destruct (stampChar_facts c (or_intror Hc)) as (? & _ & ? & ?). auto.
    - subst c. repeat split; reflexivity || lia. }
  destruct Hf as (Hw & Ha & Hl). repeat split.
  - cbn [filter]. rewrite Hw. cbn [negb]. now rewrite IH1.
  - cbn [isAscii forallb]. fold (isAscii s). rewrite IH2. lia.
  - cbn [upperAscii map]. fold (upperAscii s). now rewrite Hl, IH3.
Qed.

Lemma digits_absent s c :
  forallb isDigit s = true -> isDigit c = false -> ~ In c s.
Proof.
  intros Hs Hc Hin. rewrite forallb_forall in Hs. specialize (Hs c Hin).
  congruence.
Qed.

(** *** The date *)

Lemma dateFields_digits s :
  forallb isDigit s = true -> s <> [] ->
  dateFields s
  = (if 4 <=? len s then Some (parseInt10 (slice s 0 4)) else None,
     if 6 <=? len s then Some (parseInt10 (slice s 4 6)) else None,
     if 8 <=? len s then Some (parseInt10 (slice s 6 8)) else None).
Proof.
  intros Hs Hne. unfold dateFields.
  rewrite (replaceChar_absent dash [] s (digits_absent s dash Hs eq_refl)).
  destruct s as [|c s]; [congruence|].
  cbn [forallb] in Hs. apply andb_true_iff in Hs as [Hc _].
  assert (Hd : (45 =? c) = false) by (unfold isDigit in Hc; lia).
  cbn [startsWith str map String.list_ascii_of_string].
  change (Z.of_N (N_of_ascii "-")) with 45. now rewrite Hd.
Qed.

Lemma dateFields_dashes s :
  forallb isDigit s = true ->
  dateFields (str "--" ++ s)
  = (None,
     if 2 <=? len s then Some (parseInt10 (slice s 0 2)) else None,
     if 4 <=? len s then Some (parseInt10 (slice s 2 4)) else None).
Proof.
  intros Hs. unfold dateFields.
  change (str "--" ++ s) with (dash :: dash :: s).
  replace (startsWith (dash :: dash :: s) (str "--")) with true
    by (cbn; now destruct s).
  change (sliceFrom (dash :: dash :: s) 2)
    with (sliceFrom ([dash; dash] ++ s) (len [dash; dash])).
  rewrite sliceFrom_suffix.
  now rewrite (replaceChar_absent dash [] s (digits_absent s dash Hs eq_refl)).
Qed.

Ltac all_digits :=
  cbn [app forallb];
  repeat match goal with
         | H : isDigit ?c = true |- context [isDigit ?c] => rewrite H
         end;
  reflexivity.

Ltac stamp_chars Hdigit Hdash :=
  repeat (constructor; [first [now apply Hdigit|now apply Hdash]|]);
  constructor.

Ltac no_T :=
  let Hin := fresh "Hin" in
  intros Hin; cbn [In app] in Hin;
  repeat (destruct Hin as [Hin|Hin];
          [first [discriminate Hin|unfold isDigit, isSign in *; lia]|]);
  exact Hin.

(** What the date half reads from the date that is written. *)
Lemma dateFields_dateText dt :
  dateShape (year dt) (month dt) (day dt) = true ->
  upTo 9999 (year dt) = true -> upTo 99 (month dt) = true ->
  upTo 99 (day dt) = true ->
  dateFields (dateText dt) = (year dt, month dt, day dt) /\
  Forall (fun c => stampChar c = true \/ c = dash \/ c = 84) (dateText dt) /\
  ~ In 84 (dateText dt) /\
  (dateText dt = [] -> defined (year dt) || defined (month dt) = false).
Proof.
  intros Hshape Hy Hm Hd. unfold dateText.
  pose proof (padded_four _ Hy) as Py. pose proof (padded_two _ Hm) as Pm.
  pose proof (padded_two _ Hd) as Pd.
  assert (Hdigit : forall c, isDigit c = true ->
            stampChar c = true \/ c = dash \/ c = 84).
  { intros c Hc. unfold stampChar. rewrite Hc. now left. }
  assert (Hdash : stampChar dash = true \/ dash = dash \/ dash = 84)
    by auto.
  destruct (year dt) as [y|], (month dt) as [m|], (day dt) as [d|];
    try discriminate Hshape; cbn [defined orb andb negb].
  - destruct Py as (a & b & c & e & -> & Ha & Hb & Hc & He & Vy).
    destruct Pm as (f & g & -> & Hf & Hg & Vm).
    destruct Pd as (h & i & -> & Hh & Hi & Vd).
    cbn [app]. repeat split; [|stamp_chars Hdigit Hdash|no_T|discriminate].
    rewrite dateFields_digits by (all_digits || discriminate).
    now rewrite <- Vy, <- Vm, <- Vd.
  - destruct Py as (a & b & c & e & -> & Ha & Hb & Hc & He & Vy).
    destruct Pm as (f & g & -> & Hf & Hg & Vm). rewrite Pd.
    cbn [app]. repeat split; [|stamp_chars Hdigit Hdash|no_T|discriminate].
    rewrite dateFields_digits by (all_digits || discriminate).
    now rewrite <- Vy, <- Vm.
  - destruct Py as (a & b & c & e & -> & Ha & Hb & Hc & He & Vy).
    rewrite Pm.
    cbn [app]. repeat split; [|stamp_chars Hdigit Hdash|no_T|discriminate].
    rewrite dateFields_digits by (all_digits || discriminate).
    now rewrite <- Vy.
  - destruct Pm as (f & g & -> & Hf & Hg & Vm).
    destruct Pd as (h & i & -> & Hh & Hi & Vd).
    repeat split; [|stamp_chars Hdigit Hdash|no_T|discriminate].
    rewrite dateFields_dashes by all_digits.
    now rewrite <- Vm, <- Vd.
  - destruct Pm as (f & g & -> & Hf & Hg & Vm). rewrite Pd.
    repeat split; [|stamp_chars Hdigit Hdash|no_T|discriminate].
    rewrite dateFields_dashes by all_digits.
    now rewrite <- Vm.
  - repeat split; [constructor|intros []].
Qed.

(** *** The time *)

Ltac digit_facts :=
  repeat match goal with
         | H : isDigit ?c = true |- _ =>
             lazymatch goal with
             | _ : isSign c = false |- _ => fail
             | _ =>
                 assert (isSign c = false)
                   by (unfold isDigit, isSign in *; lia);
                 assert ((c =? colon) = false)
                   by (unfold isDigit, colon in *; lia);
                 assert ((c =? 90) = false) by (unfold isDigit in *; lia);
                 assert ((c =? 122) = false) by (unfold isDigit in *; lia)
             end
         end.

Ltac use_facts :=
  repeat (repeat match goal with
                 | H : ?t = true |- context [?t] => rewrite H
                 | H : ?t = false |- context [?t] => rewrite H
                 end;
          cbn [andb orb]).

Ltac split_bools :=
  repeat match goal with
         | H : _ && _ = true |- _ => apply andb_true_iff in H as [? ?]
         end.

Lemma offsetMatch_none body :
  forallb isDigit body = true ->
  In (List.length body) [2; 4; 6]%nat ->
  offsetMatch body = None.
Proof.
  intros Hd Hl.
  destruct body as [|a [|b [|c [|d [|e [|f [|g body]]]]]]];
    cbn [List.length In] in Hl;
    try (exfalso; clear Hd; intuition discriminate);
    cbn [forallb] in Hd; split_bools; digit_facts;
    unfold offsetMatch; cbn [List.length Nat.sub skipn]; use_facts;
    reflexivity.
Qed.

Lemma offsetMatch_some body off :
  forallb isDigit body = true ->
  In (List.length body) [2; 4; 6]%nat ->
  offsetText off = true ->
  offsetMatch (body ++ off) = Some off.
Proof.
  intros Hd Hl Ho.
  destruct body as [|a [|b [|c [|d [|e [|f [|g body]]]]]]];
    cbn [List.length In] in Hl;
    try (exfalso; clear Hd Ho; intuition discriminate);
    cbn [forallb] in Hd; split_bools; digit_facts;
    destruct off as [|o1 [|o2 [|o3 [|o4 [|o5 [|o6 [|o7 off]]]]]]];
    try discriminate Ho; cbn [offsetText] in Ho; split_bools;
    digit_facts;
    repeat match goal with
           | H : (?x =? ?k) = true |- _ => apply Z.eqb_eq in H; subst x
           end;
    unfold offsetMatch; cbn [List.length Nat.sub skipn app]; use_facts;
    reflexivity.
Qed.

Lemma digits_nonempty (body : jsstring) :
  In (List.length body) [2; 4; 6]%nat -> body <> [].
Proof. intros Hl ->. cbn in Hl. intuition discriminate. Qed.

Lemma timeFields_digits up body off :
  forallb isDigit body = true ->
  In (List.length body) [2; 4; 6]%nat ->
  match off with
  | Some o => offsetText o = true /\ up o = o
  | None => True
  end ->
  timeFields up (body ++ match off with Some o => o | None => [] end)
  = (if 2 <=? len body then Some (parseInt10 (slice body 0 2)) else None,
     if 4 <=? len body then Some (parseInt10 (slice body 2 4)) else None,
     if 6 <=? len body then Some (parseInt10 (slice body 4 6)) else None,
     off).
Proof.
  intros Hd Hl Ho. pose proof (digits_nonempty body Hl) as Hne.
  assert (Hcolon : replaceChar colon [] body = body)
    by (apply replaceChar_absent, (digits_absent body colon Hd eq_refl)).
  unfold timeFields.
  destruct off as [o|].
  - destruct Ho as [Ho Hup].
    rewrite (offsetMatch_some body o Hd Hl Ho), Hup.
    rewrite len_app.
    replace (len body + len o - len o) with (len body) by lia.
    rewrite slice_prefix, Hcolon.
    destruct body; [congruence|reflexivity].
  - rewrite app_nil_r, (offsetMatch_none body Hd Hl), Hcolon.
    destruct body; [congruence|reflexivity].
Qed.

Lemma offsetText_stamp o :
  offsetText o = true -> Forall (fun c => stampChar c = true) o.
Proof.
  intros Ho.
  destruct o as [|o1 [|o2 [|o3 [|o4 [|o5 [|o6 [|o7 o]]]]]]];
    try discriminate Ho; cbn [offsetText] in Ho; split_bools;
    repeat constructor; unfold stampChar;
    repeat match goal with
           | H : ?t = true |- context [?t] => rewrite H
           end;
    cbn [orb]; try reflexivity; now rewrite ?orb_true_r.
Qed.

Lemma parseDateAndOrTime_nonempty up value :
  value <> [] ->
  parseDateAndOrTime up value
  = let v := filter (fun c => negb (isWhiteSpace c)) value in
    let tIndex := indexOf (up v) 84 in
    let datePart := if tIndex =? -1 then v else slice v 0 tIndex in
    let timePart := if tIndex =? -1 then [] else sliceFrom v (tIndex + 1) in
    let '(year, month, day) := dateFields datePart in
    let '(hour, minute, second, utcOffset) := timeFields up timePart in
    Some {| year := year; month := month; day := day;
            hour := hour; minute := minute; second := second;
            utcOffset := utcOffset;
            hasTime := match timePart with [] => false | _ => true end |}.
Proof.
  intros Hne. rewrite parseDateAndOrTime_fields.
  destruct value; [congruence|reflexivity].
Qed.

Section Reading.

Variable toUpperCase : jsstring -> jsstring.
Hypothesis toUpperCase_ascii :
  forall s, isAscii s = true -> toUpperCase s = upperAscii s.

Lemma toUpperCase_stamp s :
  Forall (fun c => stampChar c = true \/ c = dash \/ c = 84) s ->
  toUpperCase s = s.
Proof.
  intros Hs. destruct (stamp_filter s Hs) as (_ & Ha & Hu).
  now rewrite toUpperCase_ascii.
Qed.

(** What the time half reads from the time that is written. *)
Lemma timeFields_timeText dt :
  hasTime dt = true ->
  timeShape (hour dt) (minute dt) (second dt) = true ->
  upTo 99 (hour dt) = true -> upTo 99 (minute dt) = true ->
  upTo 99 (second dt) = true ->
  match utcOffset dt with
  | Some o => offsetText o = true
  | None => True
  end ->
  exists c tp,
    timeText dt = 84 :: c :: tp /\
    timeFields toUpperCase (c :: tp)
    = (hour dt, minute dt, second dt, utcOffset dt) /\
    Forall (fun c => stampChar c = true \/ c = dash \/ c = 84) (c :: tp).
Proof.
  intros Ht Hshape Hh Hm Hs Ho. unfold timeText. rewrite Ht.
  pose proof (padded_two _ Hh) as Ph. pose proof (padded_two _ Hm) as Pm.
  pose proof (padded_two _ Hs) as Ps.
  assert (Hoff : match utcOffset dt with
                 | Some (c :: o) => c :: o
                 | _ => []
                 end
                 = match utcOffset dt with Some o => o | None => [] end).
  { destruct (utcOffset dt) as [[|c o]|]; reflexivity. }
  assert (Hup : match utcOffset dt with
                | Some o => offsetText o = true /\ toUpperCase o = o
                | None => True
                end).
  { destruct (utcOffset dt) as [o|]; [|exact I]. split; [assumption|].
    apply toUpperCase_stamp. apply offsetText_stamp in Ho.
    eapply Forall_impl; [|exact Ho]. intros c Hc. now left. }
  assert (Hstamp : Forall (fun c => stampChar c = true \/ c = dash \/ c = 84)
                     match utcOffset dt with Some o => o | None => [] end).
  { destruct (utcOffset dt) as [o|]; [|constructor].
    apply offsetText_stamp in Ho.
    eapply Forall_impl; [|exact Ho]. intros c Hc. now left. }
  assert (Hdigit : forall c, isDigit c = true ->
            stampChar c = true \/ c = dash \/ c = 84).
  { intros c Hc. unfold stampChar. rewrite Hc. now left. }
  rewrite Hoff. clear Hoff Ho.
  destruct (hour dt) as [h|], (minute dt) as [m|], (second dt) as [s|];
    try discriminate Hshape; cbn [defined orb andb].
  - destruct Ph as (a & b & -> & Ha & Hb & Vh).
    destruct Pm as (c & d & -> & Hc & Hd & Vm).
    destruct Ps as (e & f & -> & He & Hf & Vs).
    exists a, ([b] ++ [c; d] ++ [e; f]
               ++ match utcOffset dt with Some o => o | None => [] end).
    split; [reflexivity|]. split.
    + change (a :: [b] ++ [c; d] ++ [e; f] ++ ?o)
        with ([a; b; c; d; e; f] ++ o).
      rewrite timeFields_digits; [|all_digits|cbn; tauto|exact Hup].
      now rewrite <- Vh, <- Vm, <- Vs.
    + repeat (constructor; [now apply Hdigit|]). exact Hstamp.
  - destruct Ph as (a & b & -> & Ha & Hb & Vh).
    destruct Pm as (c & d & -> & Hc & Hd & Vm). rewrite Ps.
    exists a, ([b] ++ [c; d] ++ []
               ++ match utcOffset dt with Some o => o | None => [] end).
    split; [reflexivity|]. split.
    + change (a :: [b] ++ [c; d] ++ [] ++ ?o) with ([a; b; c; d] ++ o).
      rewrite timeFields_digits; [|all_digits|cbn; tauto|exact Hup].
      now rewrite <- Vh, <- Vm.
    + repeat (constructor; [now apply Hdigit|]). exact Hstamp.
  - destruct Ph as (a & b & -> & Ha & Hb & Vh). rewrite Pm.
    exists a, ([b] ++ [] ++ []
               ++ match utcOffset dt with Some o => o | None => [] end).
    split; [reflexivity|]. split.
    + change (a :: [b] ++ [] ++ [] ++ ?o) with ([a; b] ++ o).
      rewrite timeFields_digits; [|all_digits|cbn; tauto|exact Hup].
      now rewrite <- Vh.
    + repeat (constructor; [now apply Hdigit|]). exact Hstamp.
Qed.

Lemma parse_format dt :
  canonical dt = true ->
  parseDateAndOrTime toUpperCase (formatDateAndOrTime dt) = Some dt.
Proof.
  unfold canonical. intros Hc.
  apply andb_true_iff in Hc as [Hc Ht].
  apply andb_true_iff in Hc as [Hc Hs].
  apply andb_true_iff in Hc as [Hc Hmi].
  apply andb_true_iff in Hc as [Hc Hh].
  apply andb_true_iff in Hc as [Hc Hd].
  apply andb_true_iff in Hc as [Hc Hm].
  apply andb_true_iff in Hc as [Hshape Hy].
  destruct (dateFields_dateText dt Hshape Hy Hm Hd)
    as (HD & HDc & HDT & HDe).
  rewrite formatDateAndOrTime_texts.
  destruct (hasTime dt) eqn:Eht.
  - apply andb_true_iff in Ht as [Hts Ho].
    destruct (timeFields_timeText dt Eht Hts Hh Hmi Hs)
      as (c & tp & ET & HT & HTc).
    { destruct (utcOffset dt); [exact Ho|exact I]. }
    rewrite ET.
    assert (Hall : Forall (fun c => stampChar c = true \/ c = dash \/ c = 84)
                     (dateText dt ++ 84 :: c :: tp)).
    { apply Forall_app. split; [assumption|]. constructor; auto. }
    rewrite parseDateAndOrTime_nonempty
      by (destruct (dateText dt); discriminate).
    cbv zeta. destruct (stamp_filter _ Hall) as (-> & _ & _).
    rewrite (toUpperCase_stamp _ Hall).
    rewrite indexOf_first by assumption.
    replace (len (dateText dt) =? -1) with false
      by (pose proof (len_nonneg (dateText dt)); lia).
    rewrite slice_prefix, sliceFrom_after.
    rewrite HD, HT. destruct dt; cbn in *. now subst.
  - apply andb_true_iff in Ht as [Ht Eo].
    apply andb_true_iff in Ht as [Ht Es].
    apply andb_true_iff in Ht as [Ht Emi].
    apply andb_true_iff in Ht as [Hdef Eh].
    assert (ET : timeText dt = []) by (unfold timeText; now rewrite Eht).
    rewrite ET, app_nil_r.
    assert (Hne : dateText dt <> []).
    { intros E. rewrite (HDe E) in Hdef. discriminate. }
    rewrite parseDateAndOrTime_nonempty by assumption.
    cbv zeta. destruct (stamp_filter _ HDc) as (-> & _ & _).
    rewrite (toUpperCase_stamp _ HDc).
    rewrite indexOf_absent by assumption.
    change (-1 =? -1) with true. cbv iota zeta. rewrite HD.
    cbn [timeFields].
    destruct dt as [y m d h mi s off ht]; cbn in *.
    destruct h, mi, s, off; try discriminate. now subst.
Qed.

(** X25. A date-and-or-time value is read back as written.  For every
    value whose set fields make a date (year-month-day, year-month, year,
    month-day or month), a time (hour-minute-second, hour-minute or hour,
    with no offset, [Z], [+hhmm] or [+hh:mm]) or both, each field within
    its width, [parseDateAndOrTime] applied to what [formatDateAndOrTime]
    writes returns the same value. *)
Theorem parseDateAndOrTime_formatDateAndOrTime (dt : DateAndOrTime) :
  canonical dt = true ->
  parseDateAndOrTime toUpperCase (formatDateAndOrTime dt) = Some dt.
Proof. apply parse_format. Qed.

End Reading.

Lemma parseDateAndOrTime_formatDateAndOrTime_witness :
  let dt := {| year := Some (Num 1985); month := Some (Num 4);
               day := Some (Num 12); hour := Some (Num 23);
               minute := Some (Num 20); second := None;
               utcOffset := Some (str "-05:00"); hasTime := true |} in
  parseDateAndOrTime upperAscii (formatDateAndOrTime dt) = Some dt.
Proof.
  apply (parseDateAndOrTime_formatDateAndOrTime upperAscii
           (fun s _ => eq_refl)
           {| year := Some (Num 1985); month := Some (Num 4);
              day := Some (Num 12); hour := Some (Num 23);
              minute := Some (Num 20); second := None;
              utcOffset := Some (str "-05:00"); hasTime := true |}).
  reflexivity.
Defined.

End DateRoundTrip.
